(** * Verification of the iterative profile tuner
    (autopilot/codex-tuner/scripts/iterative-search.py)

    The Python program is embedded shallowly: Python floats are IEEE-754
    binary64 values ([spec_float] with [prec = 53], [emax = 1024]),
    dictionaries are [gmap]s, exceptions are an explicit error type, and
    the stateful parts (the pseudorandom stream, the file system and the
    external benchmark process) are threaded through a state-and-error
    monad. *)

From Stdlib Require Import ZArith Lia Bool List.
From Stdlib Require Import Floats.SpecFloat.
From stdpp Require Import base option gmap strings list sorting pretty.

Local Open Scope Z_scope.

(** ** Exceptions and the state-and-error monad *)

Inductive exn :=
  | ValueError
  | KeyError
  | IndexError
  | OverflowError
  | RuntimeError
  | FileNotFoundError
  | FileExistsError
  | CalledProcessError
  | StopIteration.

Inductive result (A : Type) :=
  | Ok (a : A)
  | Raise (e : exn).
Arguments Ok {A} a.
Arguments Raise {A} e.

#[global] Instance exn_eq_dec : EqDecision exn.
Proof. solve_decision. Defined.

#[global] Instance result_eq_dec {A} `{EqDecision A} : EqDecision (result A).
Proof. solve_decision. Defined.

Definition result_bind {A B} (r : result A) (k : A -> result B) : result B :=
  match r with
  | Ok a => k a
  | Raise e => Raise e
  end.

#[global] Instance result_ret : MRet result := fun _ a => Ok a.
#[global] Instance result_mbind : MBind result :=
  fun _ _ k r => result_bind r k.

(** A Python [for x in xs: acc = f(acc, x)] whose body may raise. *)
Fixpoint for_each {A B} (f : B -> A -> result B) (xs : list A) (acc : B)
  : result B :=
  match xs with
  | [] => Ok acc
  | x :: rest => acc' ← f acc x; for_each f rest acc'
  end.

(** [d[key]]: subscripting a dictionary raises [KeyError] on a missing key. *)
Definition dict_get {A} (d : gmap string A) (key : string) : result A :=
  match d !! key with
  | Some v => Ok v
  | None => Raise KeyError
  end.

(** Computations over a mutable state [S] that may raise; the state
    survives an exception, which is what [try ... finally] observes. *)
Definition M (S A : Type) : Type := S -> result A * S.

Definition ret {S A} (a : A) : M S A := fun s => (Ok a, s).
Definition raise {S A} (e : exn) : M S A := fun s => (Raise e, s).
Definition bind {S A B} (m : M S A) (k : A -> M S B) : M S B :=
  fun s =>
    match m s with
    | (Ok a, s') => k a s'
    | (Raise e, s') => (Raise e, s')
    end.
Definition get {S} : M S S := fun s => (Ok s, s).
Definition put {S} (s : S) : M S unit := fun _ => (Ok tt, s).
Definition modify {S} (f : S -> S) : M S unit := fun s => (Ok tt, f s).
Definition lift {S A} (r : result A) : M S A := fun s => (r, s).

Notation "'let*' pat ':=' m 'in' k" :=
  (bind m (fun x => match x with pat => k end))
  (at level 10, pat pattern, m at level 100, k at level 200).
Notation "m ;;; k" := (bind m (fun _ => k))
  (at level 100, right associativity).

(** [try: body finally: cleanup] *)
Definition try_finally {S A} (body : M S A) (cleanup : result A -> M S unit)
  : M S A :=
  fun s =>
    match body s with
    | (r, s') =>
        match cleanup r s' with
        | (Ok _, s'') => (r, s'')
        | (Raise e, s'') => (Raise e, s'')
        end
    end.

(** A [for] loop in the monad. *)
Fixpoint for_eachM {S A B} (f : B -> A -> M S B) (xs : list A) (acc : B)
  : M S B :=
  match xs with
  | [] => ret acc
  | x :: rest => let* acc' := f acc x in for_eachM f rest acc'
  end.

(** Whether a run returned normally, and the value it returned. *)
Definition returns {S A} (run : result A * S) : bool :=
  match fst run with
  | Ok _ => true
  | Raise _ => false
  end.

Definition returned {S A} (run : result A * S) (dflt : A) : A :=
  match fst run with
  | Ok a => a
  | Raise _ => dflt
  end.

(** A relation between the state before and after that every outcome of
    [m] satisfies. *)
Definition always {S A} (R : S -> S -> Prop) (m : M S A) : Prop :=
  forall s r s', m s = (r, s') -> R s s'.

(** The same for the runs of [m] that return normally. *)
Definition on_return {S A} (R : S -> S -> Prop) (m : M S A) : Prop :=
  forall s a s', m s = (Ok a, s') -> R s s'.

(** ** Binary64 floating point *)

Module F64.

Definition prec : Z := 53.
Definition emax : Z := 1024.

Abbreviation float := spec_float.

Definition valid (x : float) : bool := valid_binary prec emax x.

Definition add : float -> float -> float := SFadd prec emax.
Definition sub : float -> float -> float := SFsub prec emax.
Definition mul : float -> float -> float := SFmul prec emax.
Definition neg : float -> float := SFopp.

(** Python's [<], [>] and [==] on floats. *)
Definition lt (x y : float) : bool := SFltb x y.
Definition gt (x y : float) : bool := SFltb y x.
Definition eq (x y : float) : bool := SFeqb x y.
Definition le (x y : float) : bool := SFleb x y.

Definition is_nan (x : float) : bool :=
  match x with S754_nan => true | _ => false end.

Definition is_finite (x : float) : bool :=
  match x with
  | S754_finite _ _ _ | S754_zero _ => true
  | _ => false
  end.

Definition sgn (s : bool) : Z := if s then -1 else 1.

(** The value of a finite float in units of [2^-1074], of which every
    finite binary64 value is an integer multiple. *)
Definition scaled (x : float) : Z :=
  match x with
  | S754_finite s m e => sgn s * (Zpos m * 2 ^ (e + 1074))
  | _ => 0
  end.

(** Round-half-even of the rational [a / b], for [0 < b]. *)
Definition rhe_div (a b : Z) : Z :=
  let q := a / b in
  let r := a mod b in
  match 2 * r ?= b with
  | Lt => q
  | Gt => q + 1
  | Eq => if Z.even q then q else q + 1
  end.

(** The binary64 value nearest to the rational [num / den] (ties to
    even), with sign [s]; [0 <= num], [0 < den].  This is what a
    correctly rounded decimal-to-binary conversion (a float literal,
    [strtod]) returns.  [L] is the binary exponent of the quotient,
    [e] the exponent of the unit in the last place of the result. *)
Definition nearest_f64 (s : bool) (num den : Z) : float :=
  if num =? 0 then S754_zero s else
  let k := Z.log2 num - Z.log2 den in
  let above :=
    if 0 <=? k then den * 2 ^ k <=? num else den <=? num * 2 ^ (- k) in
  let L := if above then k else k - 1 in
  let e := Z.max (L - 52) (-1074) in
  let m :=
    if 0 <=? e then rhe_div num (den * 2 ^ e)
    else rhe_div (num * 2 ^ (- e)) den in
  let '(m, e) := if m =? 2 ^ 53 then (2 ^ 52, e + 1) else (m, e) in
  match m with
  | Zpos p => if 971 <? e then S754_infinity s else S754_finite s p e
  | _ => S754_zero s
  end.

(** The decimal literal [n * 10^-k]. *)
Definition dec (n k : Z) : float := nearest_f64 (n <? 0) (Z.abs n) (10 ^ k).

(** The value of [x] in millionths, rounded half-even: the digits that
    a correctly rounded conversion to six decimals prints. *)
Definition micro (x : float) : Z :=
  match x with
  | S754_finite s m e =>
      let v := if s then Zneg m else Zpos m in
      if 0 <=? e then v * 2 ^ e * 10 ^ 6
      else rhe_div (v * 10 ^ 6) (2 ^ (- e))
  | _ => 0
  end.

(** Python's [round(x, 6)]: the exact binary value is rounded half-even
    to six decimals and the decimal result converted back to the nearest
    float; zeros, infinities and NaN round to themselves. *)
Definition round6 (x : float) : float :=
  match x with
  | S754_finite s _ _ => nearest_f64 s (Z.abs (micro x)) (10 ^ 6)
  | _ => x
  end.

(** Python's [float(n)] for an [int]: correctly rounded, and
    [OverflowError] when the integer is too large. *)
Definition of_int (n : Z) : result float :=
  match binary_normalize prec emax n 0 false with
  | S754_infinity _ => Raise OverflowError
  | f => Ok f
  end.

(** Python's two-argument [min(a, b)] and [max(a, b)] keep the first
    argument unless the second compares strictly below (above) it. *)
Definition min (a b : float) : float := if lt b a then b else a.
Definition max (a b : float) : float := if gt b a then b else a.

End F64.

Abbreviation float := spec_float.

#[global] Instance float_eq_dec : EqDecision float.
Proof. solve_decision. Defined.

#[global] Instance float_countable : Countable float.
Proof.
  refine (inj_countable'
    (fun x : float =>
       match x with
       | S754_zero s => inl (inl s)
       | S754_infinity s => inl (inr s)
       | S754_nan => inr (inl tt)
       | S754_finite s m e => inr (inr (s, m, e))
       end)
    (fun y : bool + bool + (unit + bool * positive * Z) =>
       match y with
       | inl (inl s) => S754_zero s
       | inl (inr s) => S754_infinity s
       | inr (inl _) => S754_nan
       | inr (inr (s, m, e)) => S754_finite s m e
       end) _).
  intros []; reflexivity.
Defined.

(** ** Profile model *)

Abbreviation Profile := (gmap string float).

Definition SCALE_KEYS : list string := [
  "risk_weight_scale";
  "survival_weight_scale";
  "aggression_weight_scale";
  "fire_reward_scale";
  "shot_penalty_scale";
  "miss_fire_penalty_scale";
  "action_penalty_scale";
  "turn_penalty_scale";
  "thrust_penalty_scale";
  "center_weight_scale";
  "edge_penalty_scale";
  "lookahead_frames_scale";
  "flow_weight_scale";
  "speed_soft_cap_scale";
  "fire_distance_scale";
  "lurk_trigger_scale";
  "lurk_boost_scale";
  "fire_tolerance_scale"
]%string.

Definition SCALE_BOUNDS : gmap string (float * float) :=
  list_to_map [
    ("risk_weight_scale", (F64.dec 35 2, F64.dec 23 1));
    ("survival_weight_scale", (F64.dec 35 2, F64.dec 24 1));
    ("aggression_weight_scale", (F64.dec 4 1, F64.dec 26 1));
    ("fire_reward_scale", (F64.dec 35 2, F64.dec 26 1));
    ("shot_penalty_scale", (F64.dec 25 2, F64.dec 22 1));
    ("miss_fire_penalty_scale", (F64.dec 25 2, F64.dec 24 1));
    ("action_penalty_scale", (F64.dec 25 2, F64.dec 17 1));
    ("turn_penalty_scale", (F64.dec 25 2, F64.dec 17 1));
    ("thrust_penalty_scale", (F64.dec 25 2, F64.dec 17 1));
    ("center_weight_scale", (F64.dec 25 2, F64.dec 22 1));
    ("edge_penalty_scale", (F64.dec 25 2, F64.dec 24 1));
    ("lookahead_frames_scale", (F64.dec 55 2, F64.dec 18 1));
    ("flow_weight_scale", (F64.dec 35 2, F64.dec 24 1));
    ("speed_soft_cap_scale", (F64.dec 6 1, F64.dec 19 1));
    ("fire_distance_scale", (F64.dec 55 2, F64.dec 19 1));
    ("lurk_trigger_scale", (F64.dec 5 1, F64.dec 20 1));
    ("lurk_boost_scale", (F64.dec 5 1, F64.dec 25 1));
    ("fire_tolerance_scale", (F64.dec 5 1, F64.dec 26 1))
  ]%string.

Definition DELTA_KEY : string := "min_fire_quality_delta".
Definition DELTA_BOUNDS : float * float := (F64.dec (-35) 2, F64.dec 3 1).
Definition PROFILE_KEYS : list string := SCALE_KEYS ++ [DELTA_KEY].

Definition clamp (value lo hi : float) : float :=
  F64.max lo (F64.min hi value).

(** A pair of bounds is good when both are six-digit decimal literals
    below 4 in magnitude, nonzero, and in increasing order. *)
Definition good_bounds (lo hi : float) : bool :=
  bool_decide (lo = F64.dec (F64.micro lo) 6)
  && bool_decide (hi = F64.dec (F64.micro hi) 6)
  && (F64.micro lo <? F64.micro hi)
  && (-4000000 <? F64.micro lo) && (F64.micro hi <? 4000000)
  && negb (F64.micro lo =? 0) && negb (F64.micro hi =? 0).

(** [profile.get(key, default)] *)
Definition get_or (profile : Profile) (key : string) (dflt : float) : float :=
  default dflt (profile !! key).

Definition valid_profile (p : Profile) : Prop :=
  map_Forall (fun _ v => F64.valid v = true) p.

Definition normalize_profile (profile : Profile) : result Profile :=
  out ← for_each
    (fun (out : Profile) key =>
       '(lo, hi) ← dict_get SCALE_BOUNDS key;
       Ok (<[key := F64.round6 (clamp (get_or profile key (F64.dec 1 0)) lo hi)]> out))
    SCALE_KEYS ∅;
  Ok (<[DELTA_KEY :=
          F64.round6 (clamp (get_or profile DELTA_KEY (F64.dec 0 0))
                            (fst DELTA_BOUNDS) (snd DELTA_BOUNDS))]> out).

(** [json.dumps(d, sort_keys=True, separators=(",", ":"))] of a profile:
    the key-sorted sequence of its items.  The text that Python prints for
    a float determines the float (the shortest repr round-trips, and
    distinguishes -0.0 from 0.0), so two profiles free of NaN have the same
    text exactly when they have the same items. *)
Definition Signature : Type := list (string * float).

Definition item_le (a b : string * float) : Prop :=
  String.leb (fst a) (fst b) = true.

#[global] Instance item_le_dec a b : Decision (item_le a b).
Proof. unfold item_le. apply _. Defined.

Definition json_dumps_sorted (d : Profile) : Signature :=
  merge_sort item_le (map_to_list d).

Definition profile_signature (profile : Profile) : result Signature :=
  normalized ← normalize_profile profile;
  Ok (json_dumps_sorted normalized).

(** ** Candidate results and selection metrics *)

Record CandidateResult := {
  iteration : Z;
  candidate : Z;
  strategy : string;
  objective_value : float;
  avg_score : float;
  max_score : Z;
  avg_frames : float;
  out_dir : string;
  profile : Profile
}.

#[global] Instance CandidateResult_eq_dec : EqDecision CandidateResult.
Proof. solve_decision. Defined.

Definition MetricTuple : Type := float * float * float * float.

Definition metric_tuple (row : CandidateResult) (selection_metric : string)
  : result MetricTuple :=
  if decide (selection_metric = "objective") then
    m ← F64.of_int (max_score row);
    Ok (objective_value row, avg_score row, m, avg_frames row)
  else if decide (selection_metric = "score") then
    m ← F64.of_int (max_score row);
    Ok (avg_score row, m, objective_value row, avg_frames row)
  else if decide (selection_metric = "insane") then
    m ← F64.of_int (max_score row);
    Ok (m, avg_score row, objective_value row, avg_frames row)
  else Raise ValueError.

(** Python compares tuples lexicographically: the first position at which
    the items are not [==] decides, by [<] or [>] of the items there; tuples
    equal at every position are neither less nor greater. *)
Definition tuple_items (t : MetricTuple) : list float :=
  let '(a, b, c, d) := t in [a; b; c; d].

Fixpoint items_cmp (op : float -> float -> bool) (xs ys : list float) : bool :=
  match xs, ys with
  | x :: xs', y :: ys' => if F64.eq x y then items_cmp op xs' ys' else op x y
  | _, _ => false
  end.

Definition tuple_lt (a b : MetricTuple) : bool :=
  items_cmp F64.lt (tuple_items a) (tuple_items b).
Definition tuple_gt (a b : MetricTuple) : bool :=
  items_cmp F64.gt (tuple_items a) (tuple_items b).

Definition better_than (left right : CandidateResult) (selection_metric : string)
  : result bool :=
  l ← metric_tuple left selection_metric;
  r ← metric_tuple right selection_metric;
  Ok (tuple_gt l r).

(** [rows.sort(key=..., reverse=True)]: the keys are computed first (any
    failure aborts the sort), then the rows are put in descending key
    order, rows with equal keys keeping their original order.  The sort
    uses [<] on the keys only.  On keys that [<] orders totally (no NaN)
    the stable arrangement is unique, and it is the one computed here by
    insertion. *)
Fixpoint insert_desc {A} (x : MetricTuple * A) (l : list (MetricTuple * A))
  : list (MetricTuple * A) :=
  match l with
  | [] => [x]
  | y :: l' => if tuple_lt (fst x) (fst y) then y :: insert_desc x l' else x :: l
  end.

Fixpoint sort_desc {A} (l : list (MetricTuple * A)) : list (MetricTuple * A) :=
  match l with
  | [] => []
  | x :: rest => insert_desc x (sort_desc rest)
  end.

Fixpoint with_keys (selection_metric : string) (rows : list CandidateResult)
  : result (list (MetricTuple * CandidateResult)) :=
  match rows with
  | [] => Ok []
  | row :: rest =>
      k ← metric_tuple row selection_metric;
      ks ← with_keys selection_metric rest;
      Ok ((k, row) :: ks)
  end.

Definition sort_results (selection_metric : string) (rows : list CandidateResult)
  : result (list CandidateResult) :=
  keyed ← with_keys selection_metric rows;
  Ok (map snd (sort_desc keyed)).

(** ** The outside world *)

(** One entry of [bot_rankings] in the summary the benchmark writes. *)
Record RankingItem := {
  bot_id : string;
  ranking_objective_value : float;
  ranking_avg_score : float;
  ranking_max_score : Z;
  ranking_avg_frames : float
}.

(** What one run of the external benchmark process does: it exits
    non-zero, or it exits zero and leaves a readable [summary.json] with
    its [bot_rankings], or it exits zero without a readable summary. *)
Inductive bench_outcome :=
  | BenchFailed
  | BenchSummary (bot_rankings : list RankingItem)
  | BenchNoSummary.

Record HistoryEntry := {
  history_iteration : Z;
  history_base_step : float;
  history_search_step : float;
  history_improved : bool;
  history_stagnation_count : Z;
  history_winner : Z * string * float * float * Z * float
}.

Record Summary := {
  summary_iterations : Z;
  summary_candidates : Z;
  summary_selection_metric : string;
  summary_install_mode : string;
  summary_best : CandidateResult;
  summary_champion_profile : Profile;
  summary_history : list HistoryEntry
}.

(** Files written under the session directory, in the order written. *)
Inductive SessionFile :=
  | BackupActiveProfile (p : Profile)
  | CandidateProfile (iter idx : Z) (p : Profile)
  | Leaderboard (iter : Z) (rows : list CandidateResult)
  | WinnerProfile (iter : Z) (p : Profile)
  | SessionChampion (p : Profile)
  | SessionSummary (s : Summary).

#[global] Instance RankingItem_eq_dec : EqDecision RankingItem.
Proof. solve_decision. Defined.
#[global] Instance bench_outcome_eq_dec : EqDecision bench_outcome.
Proof. solve_decision. Defined.
#[global] Instance HistoryEntry_eq_dec : EqDecision HistoryEntry.
Proof. solve_decision. Defined.
#[global] Instance Summary_eq_dec : EqDecision Summary.
Proof. solve_decision. Defined.
#[global] Instance SessionFile_eq_dec : EqDecision SessionFile.
Proof. solve_decision. Defined.

(** The files and processes the program touches.  A profile file holds a
    JSON object of floats, [None] when the file does not exist. *)
Record World := {
  session_name : string;
  seeds_file_exists : bool;
  base_profile_file : option Profile;
  champion_profile_file : option Profile;
  archived_champions : list (string * Profile);
  other_profile_file : option Profile;
  active_profile_file : option Profile;
  session_dir_exists : bool;
  binary_available : bool;
  session_files : list SessionFile;
  latest_session : option string;
  bench_log : list (option Profile * bench_outcome)
}.

Definition set_active (p : Profile) (w : World) : World :=
  {| session_name := session_name w;
     seeds_file_exists := seeds_file_exists w;
     base_profile_file := base_profile_file w;
     champion_profile_file := champion_profile_file w;
     archived_champions := archived_champions w;
     other_profile_file := other_profile_file w;
     active_profile_file := Some p;
     session_dir_exists := session_dir_exists w;
     binary_available := binary_available w;
     session_files := session_files w;
     latest_session := latest_session w;
     bench_log := bench_log w |}.

Definition set_champion (p : Profile) (w : World) : World :=
  {| session_name := session_name w;
     seeds_file_exists := seeds_file_exists w;
     base_profile_file := base_profile_file w;
     champion_profile_file := Some p;
     archived_champions := archived_champions w;
     other_profile_file := other_profile_file w;
     active_profile_file := active_profile_file w;
     session_dir_exists := session_dir_exists w;
     binary_available := binary_available w;
     session_files := session_files w;
     latest_session := latest_session w;
     bench_log := bench_log w |}.

Definition add_session_file (f : SessionFile) (w : World) : World :=
  {| session_name := session_name w;
     seeds_file_exists := seeds_file_exists w;
     base_profile_file := base_profile_file w;
     champion_profile_file := champion_profile_file w;
     archived_champions := archived_champions w;
     other_profile_file := other_profile_file w;
     active_profile_file := active_profile_file w;
     session_dir_exists := session_dir_exists w;
     binary_available := binary_available w;
     session_files := session_files w ++ [f];
     latest_session := latest_session w;
     bench_log := bench_log w |}.

(** [session_dir.mkdir(parents=True, exist_ok=False)]: a new, empty
    directory. *)
Definition make_session_dir (w : World) : World :=
  {| session_name := session_name w;
     seeds_file_exists := seeds_file_exists w;
     base_profile_file := base_profile_file w;
     champion_profile_file := champion_profile_file w;
     archived_champions := archived_champions w;
     other_profile_file := other_profile_file w;
     active_profile_file := active_profile_file w;
     session_dir_exists := true;
     binary_available := binary_available w;
     session_files := [];
     latest_session := latest_session w;
     bench_log := bench_log w |}.

Definition set_latest_session (name : string) (w : World) : World :=
  {| session_name := session_name w;
     seeds_file_exists := seeds_file_exists w;
     base_profile_file := base_profile_file w;
     champion_profile_file := champion_profile_file w;
     archived_champions := archived_champions w;
     other_profile_file := other_profile_file w;
     active_profile_file := active_profile_file w;
     session_dir_exists := session_dir_exists w;
     binary_available := binary_available w;
     session_files := session_files w;
     latest_session := Some name;
     bench_log := bench_log w |}.

Definition log_bench (o : bench_outcome) (w : World) : World :=
  {| session_name := session_name w;
     seeds_file_exists := seeds_file_exists w;
     base_profile_file := base_profile_file w;
     champion_profile_file := champion_profile_file w;
     archived_champions := archived_champions w;
     other_profile_file := other_profile_file w;
     active_profile_file := active_profile_file w;
     session_dir_exists := session_dir_exists w;
     binary_available := binary_available w;
     session_files := session_files w;
     latest_session := latest_session w;
     bench_log := bench_log w ++ [(active_profile_file w, o)] |}.

(** The collaborators the program is run against: the pseudorandom
    generator behind [random.Random], the C library's [pow], and the
    benchmark binary.  The benchmark is a function of everything it can
    observe: the files, and how many runs came before. *)
Class Environment := {
  rng_t : Type;
  rng_seed : Z -> rng_t;
  rng_random : rng_t -> float * rng_t;
  rng_randbelow : Z -> rng_t -> Z * rng_t;
  rng_sample : list string -> Z -> rng_t -> list string * rng_t;
  float_pow : float -> Z -> result float;
  benchmark : World -> bench_outcome
}.

(** ** Candidate generation *)

Section Generation.
Context `{Environment}.

(** [random.Random] methods, as CPython defines them over [random()]
    and [_randbelow()]. *)
Definition random : M rng_t float :=
  fun r => let '(x, r') := rng_random r in (Ok x, r').

Definition uniform (a b : float) : M rng_t float :=
  let* u := random in
  ret (F64.add a (F64.mul (F64.sub b a) u)).

Definition randbelow (n : Z) : M rng_t Z :=
  fun r => let '(i, r') := rng_randbelow n r in (Ok i, r').

Definition randint (a b : Z) : M rng_t Z :=
  if b - a + 1 <=? 0 then raise ValueError
  else let* i := randbelow (b - a + 1) in ret (a + i).

Definition choice {A} (seq : list A) : M rng_t A :=
  match seq with
  | [] => raise IndexError
  | _ =>
      let* i := randbelow (Z.of_nat (length seq)) in
      if i <? 0 then raise IndexError
      else match seq !! Z.to_nat i with
           | Some x => ret x
           | None => raise IndexError
           end
  end.

Definition sample (population : list string) (k : Z) : M rng_t (list string) :=
  if (k <? 0) || (Z.of_nat (length population) <? k) then raise ValueError
  else fun r => let '(xs, r') := rng_sample population k r in (Ok xs, r').

Definition len_SCALE_KEYS : Z := Z.of_nat (length SCALE_KEYS).

Definition mutate_profile (base : Profile) (step : float)
    (min_fields max_fields : Z) (delta_scale : float) : M rng_t Profile :=
  let out := base in
  let min_fields := Z.max 1 (Z.min min_fields len_SCALE_KEYS) in
  let max_fields := Z.max min_fields (Z.min max_fields len_SCALE_KEYS) in
  let* field_count := randint min_fields max_fields in
  let* keys := sample SCALE_KEYS field_count in
  let* out :=
    for_eachM
      (fun (out : Profile) key =>
         let* (lo, hi) := lift (dict_get SCALE_BOUNDS key) in
         let* u := uniform (F64.neg step) step in
         let factor := F64.add (F64.dec 1 0) u in
         let* v := lift (dict_get out key) in
         ret (<[key := clamp (F64.mul v factor) lo hi]> out))
      keys out in
  let* r := random in
  let* out :=
    if F64.lt r (F64.dec 95 2) then
      let delta_step := F64.max (F64.dec 1 2) (F64.mul step delta_scale) in
      let* v := lift (dict_get out DELTA_KEY) in
      let* u := uniform (F64.neg delta_step) delta_step in
      ret (<[DELTA_KEY := clamp (F64.add v u) (fst DELTA_BOUNDS) (snd DELTA_BOUNDS)]> out)
    else ret out in
  lift (normalize_profile out).

(** [mutate_profile(base, rng, step)] with the default arguments. *)
Definition mutate_profile_default (base : Profile) (step : float)
  : M rng_t Profile :=
  mutate_profile base step 3 7 (F64.dec 1 1).

Definition mutate_profile_aggressive (base : Profile) (step : float)
  : M rng_t Profile :=
  let* out :=
    mutate_profile base (F64.mul step (F64.dec 175 2)) 6 len_SCALE_KEYS
                   (F64.dec 2 1) in
  let* r := random in
  let* out :=
    if F64.lt r (F64.dec 45 2) then
      let* key := choice SCALE_KEYS in
      let* (lo, hi) := lift (dict_get SCALE_BOUNDS key) in
      let* u := uniform lo hi in
      ret (<[key := F64.round6 u]> out)
    else ret out in
  lift (normalize_profile out).

End Generation.

Definition blend_profiles (a b : Profile) (alpha : float) : result Profile :=
  let alpha := clamp alpha (F64.dec 0 0) (F64.dec 1 0) in
  out ← for_each
    (fun (out : Profile) key =>
       '(lo, hi) ← dict_get SCALE_BOUNDS key;
       x ← dict_get a key;
       y ← dict_get b key;
       let value :=
         F64.add (F64.mul x alpha) (F64.mul y (F64.sub (F64.dec 1 0) alpha)) in
       Ok (<[key := F64.round6 (clamp value lo hi)]> out))
    SCALE_KEYS ∅;
  x ← dict_get a DELTA_KEY;
  y ← dict_get b DELTA_KEY;
  let delta_value :=
    F64.add (F64.mul x alpha) (F64.mul y (F64.sub (F64.dec 1 0) alpha)) in
  normalize_profile
    (<[DELTA_KEY := F64.round6 (clamp delta_value (fst DELTA_BOUNDS) (snd DELTA_BOUNDS))]> out).

Definition profile_delta (newer older : Profile) : result Profile :=
  for_each
    (fun (out : Profile) key =>
       x ← dict_get newer key;
       y ← dict_get older key;
       Ok (<[key := F64.round6 (F64.sub x y)]> out))
    PROFILE_KEYS ∅.

Definition apply_momentum (base momentum : Profile) (scale : float)
  : result Profile :=
  out ← for_each
    (fun (out : Profile) key =>
       '(lo, hi) ← dict_get SCALE_BOUNDS key;
       x ← dict_get out key;
       Ok (<[key := clamp (F64.add x (F64.mul (get_or momentum key (F64.dec 0 0)) scale))
                          lo hi]> out))
    SCALE_KEYS base;
  x ← dict_get out DELTA_KEY;
  normalize_profile
    (<[DELTA_KEY :=
         clamp (F64.add x (F64.mul (get_or momentum DELTA_KEY (F64.dec 0 0)) scale))
               (fst DELTA_BOUNDS) (snd DELTA_BOUNDS)]> out).

(** ** The session: [main] *)

(** Where [--start-profile] points: one of the profile files the program
    itself names, or some other file. *)
Inductive ProfilePath := BasePath | ChampionPath | ActivePath | OtherPath.

Definition read_path (path : ProfilePath) (w : World) : option Profile :=
  match path with
  | BasePath => base_profile_file w
  | ChampionPath => champion_profile_file w
  | ActivePath => active_profile_file w
  | OtherPath => other_profile_file w
  end.

(** The namespace [parse_args] returns; [start_profile] is [None] for the
    empty string. *)
Record Args := {
  iterations : Z;
  candidates : Z;
  max_frames : Z;
  jobs : Z;
  bot : string;
  random_seed : Z;
  initial_step : float;
  decay : float;
  min_step : float;
  install_mode : string;
  start_profile : option ProfilePath;
  anchor_mode : string;
  selection_metric : string
}.

(** The candidates accepted so far in an iteration, the signatures seen,
    and the generator they were drawn from. *)
Record GenState {E : Environment} := {
  gen_rng : rng_t;
  candidate_specs : list (Profile * string);
  seen : gset Signature
}.

(** The variables [main] carries from one iteration to the next. *)
Record SearchState {E : Environment} := {
  incumbent_profile : Profile;
  global_best_profile : Profile;
  global_best_result : option CandidateResult;
  momentum : option Profile;
  last_gain_anchor : option Profile;
  stagnation_count : Z;
  history : list HistoryEntry;
  rng : rng_t
}.

Definition FAILURE_SENTINEL : float * float * Z * float :=
  (S754_infinity true, S754_infinity true, 0, F64.dec 0 0).

(** [f"{n:0{width}d}"] for a non-negative [n]. *)
Definition zero_padded (width : nat) (n : Z) : string :=
  let digits := pretty n in
  String.concat "" (replicate (width - String.length digits) "0"%string) +:+ digits.

Definition iter_dir_of (session_dir : string) (iter : Z) : string :=
  session_dir +:+ "/iter-" +:+ zero_padded 3 iter.

Definition cand_dir_of (iter_dir : string) (idx : Z) : string :=
  iter_dir +:+ "/cand-" +:+ zero_padded 2 idx.

(** [s.replace(old, new)] for single characters. *)
Fixpoint replace_char (old new : Ascii.ascii) (s : string) : string :=
  match s with
  | EmptyString => EmptyString
  | String c s' =>
      String (if Ascii.eqb c old then new else c) (replace_char old new s')
  end.

Section Session.
Context `{Environment}.

(** Run a generator computation inside the generation state. *)
Definition with_rng {A} (m : M rng_t A) : M GenState A :=
  fun g =>
    match m (gen_rng g) with
    | (r, rng') =>
        (r, {| gen_rng := rng';
               candidate_specs := candidate_specs g;
               seen := seen g |})
    end.

Definition push_candidate (profile : Profile) (strategy : string)
  : M GenState bool :=
  let* normalized := lift (normalize_profile profile) in
  let* sig := lift (profile_signature normalized) in
  let* g := get in
  if decide (sig ∈ seen g) then ret false
  else
    put {| gen_rng := gen_rng g;
           candidate_specs := candidate_specs g ++ [(normalized, strategy)];
           seen := {[sig]} ∪ seen g |} ;;;
    ret true.

(** [len(candidate_specs) < args.candidates] *)
Definition has_room (args : Args) : M GenState bool :=
  let* g := get in
  ret (Z.of_nat (length (candidate_specs g)) <? candidates args).

(** [if cond and len(candidate_specs) < args.candidates: body] *)
Definition when_room (args : Args) (cond : bool) (body : M GenState unit)
  : M GenState unit :=
  if cond then
    let* room := has_room args in
    if room then body else ret tt
  else ret tt.

Definition is_insane (args : Args) : bool :=
  bool_decide (selection_metric args = "insane").

(** One pass through the body of the [while] loop that fills the
    remaining slots. *)
Definition mutate_attempt (args : Args) (incumbent : Profile)
    (stagnation : Z) (search_step : float) : M GenState unit :=
  let* u := with_rng (uniform (F64.dec (-15) 2) (F64.dec 35 2)) in
  let local_step := F64.mul search_step (F64.add (F64.dec 1 0) u) in
  let local_step :=
    if 2 <=? stagnation then F64.mul local_step (F64.dec 12 1) else local_step in
  if is_insane args then
    let* u := with_rng (uniform (F64.dec (-8) 2) (F64.dec 32 2)) in
    let local_step := F64.mul local_step (F64.add (F64.dec 12 1) u) in
    let* r := with_rng random in
    if F64.lt r (F64.dec 24 2) then
      let* p := with_rng (mutate_profile_aggressive incumbent local_step) in
      push_candidate p "mutate_aggressive" ;;; ret tt
    else
      let* p := with_rng (mutate_profile incumbent local_step 4 len_SCALE_KEYS
                                         (F64.dec 18 2)) in
      push_candidate p "mutate" ;;; ret tt
  else
    let* p := with_rng (mutate_profile_default incumbent local_step) in
    push_candidate p "mutate" ;;; ret tt.

(** [while len(candidate_specs) < args.candidates and attempts < 320];
    [budget] is [320 - attempts]. *)
Fixpoint mutate_loop (budget : nat) (args : Args) (incumbent : Profile)
    (stagnation : Z) (search_step : float) : M GenState unit :=
  match budget with
  | O => ret tt
  | S budget' =>
      let* room := has_room args in
      if room then
        mutate_attempt args incumbent stagnation search_step ;;;
        mutate_loop budget' args incumbent stagnation search_step
      else ret tt
  end.

End Session.

Section Iteration.
Context `{Environment}.

(** The candidate-generation part of one iteration of [main]'s loop,
    in the order the strategies are tried. *)
Definition generate_candidates (args : Args)
    (anchor_profiles : list (string * Profile)) (st : SearchState)
    (search_step : float) : M GenState unit :=
  let incumbent := incumbent_profile st in
  let stagnation := stagnation_count st in
  push_candidate incumbent "incumbent" ;;;
  match momentum st with
  | Some mom =>
      when_room args true
        (let* u := with_rng (uniform (F64.dec (-25) 2) (F64.dec 45 2)) in
         let momentum_scale := F64.add (F64.dec 1 0) u in
         let* p := lift (apply_momentum incumbent mom momentum_scale) in
         push_candidate p "momentum" ;;; ret tt)
  | None => ret tt
  end ;;;
  match last_gain_anchor st with
  | Some anchor =>
      when_room args true
        (let* u := with_rng (uniform (F64.dec (-18) 2) (F64.dec 18 2)) in
         let alpha := F64.add (F64.dec 5 1) u in
         let* p := lift (blend_profiles incumbent anchor alpha) in
         push_candidate p "blend_last_gain" ;;; ret tt)
  | None => ret tt
  end ;;;
  when_room args (negb (bool_decide (anchor_profiles = [])))
    (let* (anchor_label, anchor_profile) := with_rng (choice anchor_profiles) in
     let* u := with_rng (uniform (F64.dec (-32) 2) (F64.dec 2 1)) in
     let alpha := F64.add (F64.dec 58 2) u in
     let* p := lift (blend_profiles incumbent anchor_profile alpha) in
     push_candidate p ("blend_" +:+ anchor_label) ;;; ret tt) ;;;
  when_room args (negb (bool_decide (anchor_profiles = []))
                  && ((1 <=? stagnation) || is_insane args))
    (let* (anchor_label, anchor_profile) := with_rng (choice anchor_profiles) in
     let* u := with_rng (uniform (F64.dec (-1) 1) (F64.dec 5 1)) in
     let anchor_step := F64.mul search_step (F64.add (F64.dec 135 2) u) in
     let* anchor_seed :=
       with_rng (mutate_profile anchor_profile anchor_step 5 len_SCALE_KEYS
                                (F64.dec 24 2)) in
     let* u := with_rng (uniform (F64.dec (-12) 2) (F64.dec 16 2)) in
     let alpha := F64.add (F64.dec 35 2) u in
     let* p := lift (blend_profiles anchor_seed incumbent alpha) in
     push_candidate p ("anchor_mutate_" +:+ anchor_label) ;;; ret tt) ;;;
  when_room args (2 <=? stagnation)
    (let* p := with_rng (mutate_profile_aggressive incumbent search_step) in
     push_candidate p "escape" ;;; ret tt) ;;;
  when_room args (is_insane args)
    (let* chaos :=
       with_rng (mutate_profile_aggressive incumbent
                   (F64.mul search_step (F64.dec 145 2))) in
     let* r := with_rng random in
     let* chaos :=
       if F64.lt r (F64.dec 72 2) then
         let* n := with_rng (randint 1 3) in
         let* keys := with_rng (sample SCALE_KEYS n) in
         let* chaos :=
           for_eachM
             (fun (chaos : Profile) key =>
                let* (lo, hi) := lift (dict_get SCALE_BOUNDS key) in
                let* u := with_rng (uniform lo hi) in
                ret (<[key := F64.round6 u]> chaos))
             keys chaos in
         let* r := with_rng random in
         if F64.lt r (F64.dec 55 2) then
           let* u := with_rng (uniform (fst DELTA_BOUNDS) (snd DELTA_BOUNDS)) in
           ret (<[DELTA_KEY := F64.round6 u]> chaos)
         else ret chaos
       else ret chaos in
     let* p := lift (normalize_profile chaos) in
     push_candidate p "chaos" ;;; ret tt) ;;;
  mutate_loop 320 args incumbent stagnation search_step ;;;
  let* room := has_room args in
  if room then raise RuntimeError else ret tt.

(** [benchmark_profile]: run the benchmark once, then read the target
    bot's entry from the summary it wrote. *)
Definition benchmark_profile (args : Args) : M World (float * float * Z * float) :=
  let* w := get in
  let outcome := benchmark w in
  modify (log_bench outcome) ;;;
  match outcome with
  | BenchFailed => raise CalledProcessError
  | BenchNoSummary => raise FileNotFoundError
  | BenchSummary bot_rankings =>
      match find (fun item => bool_decide (bot_id item = bot args)) bot_rankings with
      | None => raise RuntimeError
      | Some ranking =>
          ret (ranking_objective_value ranking, ranking_avg_score ranking,
               ranking_max_score ranking, ranking_avg_frames ranking)
      end
  end.

(** [try: body except subprocess.CalledProcessError: value] *)
Definition except_called_process_error {S A} (body : M S A) (value : A)
  : M S A :=
  fun s =>
    match body s with
    | (Raise CalledProcessError, s') => (Ok value, s')
    | other => other
    end.

(** The body of the evaluation loop for one candidate. *)
Definition evaluate_candidate (args : Args) (iter : Z) (iter_dir : string)
    (candidate_idx : Z) (spec : Profile * string) : M World CandidateResult :=
  let '(p, strat) := spec in
  let cand_dir := cand_dir_of iter_dir candidate_idx in
  modify (add_session_file (CandidateProfile iter candidate_idx p)) ;;;
  modify (set_active p) ;;;
  let* (objective, avg, mx, frames) :=
    except_called_process_error (benchmark_profile args) FAILURE_SENTINEL in
  ret {| iteration := iter;
         candidate := candidate_idx;
         strategy := strat;
         objective_value := objective;
         avg_score := avg;
         max_score := mx;
         avg_frames := frames;
         out_dir := cand_dir;
         profile := p |}.

(** [for candidate_idx, (profile, strategy) in enumerate(candidate_specs)] *)
Fixpoint evaluate_candidates (args : Args) (iter : Z) (iter_dir : string)
    (candidate_idx : Z) (specs : list (Profile * string))
    (results : list CandidateResult) : M World (list CandidateResult) :=
  match specs with
  | [] => ret results
  | spec :: rest =>
      let* result := evaluate_candidate args iter iter_dir candidate_idx spec in
      evaluate_candidates args iter iter_dir (candidate_idx + 1) rest
                          (results ++ [result])
  end.

End Iteration.

Section Main.
Context `{Environment}.

(** [next(r for r in results if r.strategy == "incumbent")] *)
Definition find_incumbent (results : list CandidateResult)
  : result CandidateResult :=
  match find (fun r => bool_decide (strategy r = "incumbent")) results with
  | Some r => Ok r
  | None => Raise StopIteration
  end.

(** The selection-and-adaptation step of an iteration, on the ranked
    results: the "improved" test, the update of incumbent, momentum,
    last-gain anchor and stagnation counter, and the update of the global
    best.  Returns the winner and the "improved" flag with the new
    state. *)
Definition adapt (args : Args) (st : SearchState)
    (results : list CandidateResult)
  : result (CandidateResult * bool * SearchState) :=
  winner ← match results with
           | r :: _ => Ok r
           | [] => Raise IndexError
           end;
  incumbent_result ← find_incumbent results;
  improved ← better_than winner incumbent_result (selection_metric args);
  st1 ← (if (improved : bool) then
           let previous := incumbent_profile st in
           let incumbent := profile winner in
           mom ← profile_delta incumbent previous;
           Ok {| incumbent_profile := incumbent;
                 global_best_profile := global_best_profile st;
                 global_best_result := global_best_result st;
                 momentum := Some mom;
                 last_gain_anchor := Some previous;
                 stagnation_count := 0;
                 history := history st;
                 rng := rng st |}
         else
           Ok {| incumbent_profile := incumbent_profile st;
                 global_best_profile := global_best_profile st;
                 global_best_result := global_best_result st;
                 momentum := momentum st;
                 last_gain_anchor := last_gain_anchor st;
                 stagnation_count := stagnation_count st + 1;
                 history := history st;
                 rng := rng st |});
  replace ← match global_best_result st1 with
            | None => Ok true
            | Some best => better_than winner best (selection_metric args)
            end;
  Ok (winner, improved,
      if (replace : bool) then
        {| incumbent_profile := incumbent_profile st1;
           global_best_profile := profile winner;
           global_best_result := Some winner;
           momentum := momentum st1;
           last_gain_anchor := last_gain_anchor st1;
           stagnation_count := stagnation_count st1;
           history := history st1;
           rng := rng st1 |}
      else st1).

Definition step_sizes (args : Args) (st : SearchState) (iter : Z)
  : result (float * float) :=
  p ← float_pow (decay args) (iter - 1);
  let base_step := F64.max (min_step args) (F64.mul (initial_step args) p) in
  sc ← F64.of_int (stagnation_count st);
  let search_step :=
    F64.min (F64.mul base_step (F64.add (F64.dec 1 0) (F64.mul (F64.dec 3 1) sc)))
            (F64.mul base_step (F64.dec 24 1)) in
  Ok (base_step, search_step).

(** Run the generation phase from a fresh candidate list. *)
Definition run_generation (args : Args)
    (anchor_profiles : list (string * Profile)) (st : SearchState)
    (search_step : float) : result (list (Profile * string) * rng_t) :=
  match generate_candidates args anchor_profiles st search_step
          {| gen_rng := rng st; candidate_specs := []; seen := ∅ |} with
  | (Ok _, g) => Ok (candidate_specs g, gen_rng g)
  | (Raise e, _) => Raise e
  end.

Definition with_rng_state (st : SearchState) (r : rng_t) : SearchState :=
  {| incumbent_profile := incumbent_profile st;
     global_best_profile := global_best_profile st;
     global_best_result := global_best_result st;
     momentum := momentum st;
     last_gain_anchor := last_gain_anchor st;
     stagnation_count := stagnation_count st;
     history := history st;
     rng := r |}.

Definition with_history (st : SearchState) (h : HistoryEntry) : SearchState :=
  {| incumbent_profile := incumbent_profile st;
     global_best_profile := global_best_profile st;
     global_best_result := global_best_result st;
     momentum := momentum st;
     last_gain_anchor := last_gain_anchor st;
     stagnation_count := stagnation_count st;
     history := history st ++ [h];
     rng := rng st |}.

(** The body of [for iteration in range(1, args.iterations + 1)]. *)
Definition iteration_body (args : Args)
    (anchor_profiles : list (string * Profile)) (session_dir : string)
    (st : SearchState) (iter : Z) : M World SearchState :=
  let iter_dir := iter_dir_of session_dir iter in
  let* (base_step, search_step) := lift (step_sizes args st iter) in
  let* (specs, rng') :=
    lift (run_generation args anchor_profiles st search_step) in
  let st := with_rng_state st rng' in
  let* results := evaluate_candidates args iter iter_dir 0 specs [] in
  let* results := lift (sort_results (selection_metric args) results) in
  modify (add_session_file (Leaderboard iter results)) ;;;
  let* (winner, improved, st) := lift (adapt args st results) in
  modify (add_session_file (WinnerProfile iter (incumbent_profile st))) ;;;
  ret (with_history st
         {| history_iteration := iter;
            history_base_step := base_step;
            history_search_step := search_step;
            history_improved := improved;
            history_stagnation_count := stagnation_count st;
            history_winner :=
              (candidate winner, strategy winner, objective_value winner,
               avg_score winner, max_score winner, avg_frames winner) |}).

(** [range(1, args.iterations + 1)] *)
Definition iteration_range (args : Args) : list Z :=
  seqZ 1 (iterations args).

Definition run_iterations (args : Args)
    (anchor_profiles : list (string * Profile)) (session_dir : string)
    (st : SearchState) (iters : list Z) : M World SearchState :=
  for_eachM (iteration_body args anchor_profiles session_dir) iters st.

End Main.

Section Program.
Context `{Environment}.

(** What [main] has established when it enters the [try] block. *)
Record Session := {
  session_dir : string;
  old_profile : Profile;
  anchor_profiles : list (string * Profile);
  initial_state : SearchState
}.

Definition require {S} (cond : bool) (e : exn) : M S unit :=
  if cond then ret tt else raise e.

(** [load_json(path)] of a profile file checked to exist. *)
Definition load_profile {S} (content : option Profile) : M S Profile :=
  match content with
  | Some p => ret p
  | None => raise FileNotFoundError
  end.

(** The anchor sources: base and champion, and with [--anchor-mode all]
    every archived [champion-*.json], labelled after its file stem. *)
Definition anchor_source_pairs (args : Args) (w : World)
  : list (string * option Profile) :=
  [("base"%string, base_profile_file w);
   ("champion"%string, champion_profile_file w)]
  ++ (if decide (anchor_mode args = "all") then
        map (fun '(stem, p) =>
               ("auto_" +:+ replace_char (Ascii.ascii_of_nat 45) (Ascii.ascii_of_nat 95) stem,
                Some p))
            (archived_champions w)
      else []).

(** [for label, path in anchor_source_pairs: ...]: sources that do not
    exist, and those whose signature is the starting incumbent's, are
    skipped. *)
Definition load_anchors (incumbent_sig : Signature)
    (sources : list (string * option Profile))
  : result (list (string * Profile)) :=
  for_each
    (fun anchors '(label, content) =>
       match content with
       | None => Ok anchors
       | Some raw =>
           p ← normalize_profile raw;
           sig ← profile_signature p;
           if decide (sig = incumbent_sig) then Ok anchors
           else Ok (anchors ++ [(label, p)])
       end)
    sources [].

(** [main] up to the [try]: argument checks, seeding of a missing active
    profile, the session directory, the snapshot of the active profile,
    the starting incumbent, the anchors and the binary. *)
Definition init (args : Args) : M World Session :=
  require (negb (iterations args <? 1)) ValueError ;;;
  require (negb (candidates args <? 2)) ValueError ;;;
  require (negb (max_frames args <? 1)) ValueError ;;;
  let* w := get in
  require (seeds_file_exists w) FileNotFoundError ;;;
  require (bool_decide (is_Some (base_profile_file w))) FileNotFoundError ;;;
  match active_profile_file w with
  | Some _ => ret tt
  | None =>
      let seed_source :=
        match champion_profile_file w with
        | Some p => Some p
        | None => base_profile_file w
        end in
      let* raw := load_profile seed_source in
      let* seed := lift (normalize_profile raw) in
      modify (set_active seed)
  end ;;;
  let dir := ("codex-tuner/runs/" +:+ session_name w)%string in
  require (negb (session_dir_exists w)) FileExistsError ;;;
  modify make_session_dir ;;;
  let* w := get in
  let* raw := load_profile (active_profile_file w) in
  let* old := lift (normalize_profile raw) in
  modify (add_session_file (BackupActiveProfile old)) ;;;
  let r := rng_seed (random_seed args) in
  let* w := get in
  let* start_raw :=
    match start_profile args with
    | Some path => load_profile (read_path path w)
    | None =>
        match champion_profile_file w with
        | Some p => ret p
        | None => load_profile (base_profile_file w)
        end
    end in
  let* incumbent := lift (normalize_profile start_raw) in
  let* incumbent_sig := lift (profile_signature incumbent) in
  let* anchors := lift (load_anchors incumbent_sig (anchor_source_pairs args w)) in
  require (binary_available w) RuntimeError ;;;
  ret {| session_dir := dir;
         old_profile := old;
         anchor_profiles := anchors;
         initial_state :=
           {| incumbent_profile := incumbent;
              global_best_profile := incumbent;
              global_best_result := None;
              momentum := None;
              last_gain_anchor := None;
              stagnation_count := 0;
              history := [];
              rng := r |} |}.

(** The code after the loop, inside the [try]: commit the champion,
    write the summary, install, and point to the session. *)
Definition finalize (args : Args) (s : Session) (st : SearchState) : M World Z :=
  match global_best_result st with
  | None => raise RuntimeError
  | Some best =>
      modify (add_session_file (SessionChampion (global_best_profile st))) ;;;
      modify (set_champion (global_best_profile st)) ;;;
      modify (add_session_file (SessionSummary
        {| summary_iterations := iterations args;
           summary_candidates := candidates args;
           summary_selection_metric := selection_metric args;
           summary_install_mode := install_mode args;
           summary_best := best;
           summary_champion_profile := global_best_profile st;
           summary_history := history st |})) ;;;
      (if decide (install_mode args = "champion")
       then modify (set_active (global_best_profile st))
       else modify (set_active (old_profile s))) ;;;
      modify (set_latest_session (session_dir s)) ;;;
      ret 0
  end.

(** The [try] block: the loop, then finalization. *)
Definition session_body (args : Args) (s : Session) : M World Z :=
  let* st := run_iterations args (anchor_profiles s) (session_dir s)
                            (initial_state s) (iteration_range args) in
  finalize args s st.

(** [finally: if not success: write_json(active_profile_path, old_profile)] *)
Definition restore_unless_success (s : Session) (r : result Z) : M World unit :=
  match r with
  | Ok _ => ret tt
  | Raise _ => modify (set_active (old_profile s))
  end.

Definition main (args : Args) : M World Z :=
  let* s := init args in
  try_finally (session_body args s) (restore_unless_success s).

(** The exit status of the process: [raise SystemExit(main())], and 1
    when an exception escapes. *)
Definition exit_code (r : result Z) : Z :=
  match r with
  | Ok code => code
  | Raise _ => 1
  end.

End Program.

(** ** Notions the properties are stated with *)

(** The values [normalize_profile] stores for a scale key and for the
    delta key. *)
Definition scale_value (profile : Profile) (key : string) (b : float * float) : float :=
  F64.round6 (clamp (get_or profile key (F64.dec 1 0)) (fst b) (snd b)).

Definition delta_value (profile : Profile) : float :=
  F64.round6 (clamp (get_or profile DELTA_KEY (F64.dec 0 0))
                    (fst DELTA_BOUNDS) (snd DELTA_BOUNDS)).


(** The content of the active-profile file as the session finds it, or
    as it is seeded from the champion or base profile when missing. *)
Definition pre_session_active (w : World) : result Profile :=
  match active_profile_file w with
  | Some p => Ok p
  | None =>
      match champion_profile_file w with
      | Some c => normalize_profile c
      | None =>
          match base_profile_file w with
          | Some b => normalize_profile b
          | None => Raise FileNotFoundError
          end
      end
  end.

(** The normalized pre-session snapshot of the active profile. *)
Definition snapshot (w : World) : result Profile :=
  pre_session_active w ≫= normalize_profile.

(** The rows of every leaderboard written so far: the evaluated
    candidates of the session. *)
Definition evaluated_rows (w : World) : list CandidateResult :=
  concat (map (fun f => match f with
                        | Leaderboard _ rows => rows
                        | _ => []
                        end) (session_files w)).

(** The summary a session wrote, if it wrote one. *)
Definition session_summary (w : World) : option Summary :=
  head (omap (fun f => match f with
                       | SessionSummary s => Some s
                       | _ => None
                       end) (session_files w)).

(** A benchmark run is fatal to the session unless it exits non-zero or
    reports the target bot. *)
Definition nonfatal (target : string) (o : bench_outcome) : bool :=
  match o with
  | BenchFailed => true
  | BenchSummary bot_rankings =>
      bool_decide (is_Some (find (fun item => bool_decide (bot_id item = target))
                                 bot_rankings))
  | BenchNoSummary => false
  end.

(** A benchmark run that exits zero and leaves a summary without an entry
    for the target bot. *)
Definition summary_lacks_bot (target : string) (o : bench_outcome) : bool :=
  match o with
  | BenchSummary bot_rankings =>
      match find (fun item => bool_decide (bot_id item = target)) bot_rankings with
      | None => true
      | Some _ => false
      end
  | _ => false
  end.

(** No benchmark run so far left a summary without the target bot. *)
Definition bot_always_reported (target : string) (w : World) : bool :=
  forallb (fun entry => negb (summary_lacks_bot target (snd entry))) (bench_log w).



(** A computation that, started in a state that is [clean], ends in one
    or raises [e]. *)
Definition aborts_with {S A} (clean : S -> bool) (e : exn) (m : M S A) : Prop :=
  forall s r s', m s = (r, s') -> clean s = true -> clean s' = true \/ r = Raise e.

Definition ranking_nan_free (item : RankingItem) : bool :=
  negb (F64.is_nan (ranking_objective_value item))
  && negb (F64.is_nan (ranking_avg_score item))
  && negb (F64.is_nan (ranking_avg_frames item)).

(** The benchmark reports numbers, never NaN. *)
Definition outcome_nan_free (o : bench_outcome) : bool :=
  match o with
  | BenchSummary bot_rankings => forallb ranking_nan_free bot_rankings
  | _ => true
  end.

Definition row_nan_free (row : CandidateResult) : bool :=
  negb (F64.is_nan (objective_value row))
  && negb (F64.is_nan (avg_score row))
  && negb (F64.is_nan (avg_frames row)).

Section EvaluationNotions.
Context `{Environment}.

(** The row [main] builds for a candidate from its four metrics. *)
Definition row_for (iter : Z) (iter_dir : string) (idx : Z)
    (spec : Profile * string) (metrics : float * float * Z * float)
  : CandidateResult :=
  let '(objective, avg, mx, frames) := metrics in
  {| iteration := iter;
     candidate := idx;
     strategy := snd spec;
     objective_value := objective;
     avg_score := avg;
     max_score := mx;
     avg_frames := frames;
     out_dir := cand_dir_of iter_dir idx;
     profile := fst spec |}.

(** The world in which the benchmark for a candidate runs, and the world
    it leaves. *)
Definition world_at_benchmark (iter idx : Z) (p : Profile) (w : World) : World :=
  set_active p (add_session_file (CandidateProfile iter idx p) w).

Definition world_after_benchmark (iter idx : Z) (p : Profile) (w : World) : World :=
  log_bench (benchmark (world_at_benchmark iter idx p w))
            (world_at_benchmark iter idx p w).
End EvaluationNotions.

(** The order of the floats that are not NaN, as three integers compared
    lexicographically: the class (minus infinity, negative, zero, positive,
    plus infinity), then the exponent and the mantissa, both negated for
    negative values. *)
Definition order_class (x : float) : Z :=
  match x with
  | S754_infinity true => -2
  | S754_finite true _ _ => -1
  | S754_zero _ => 0
  | S754_finite false _ _ => 1
  | S754_infinity false => 2
  | S754_nan => 3
  end.

Definition order_exponent (x : float) : Z :=
  match x with
  | S754_finite true _ e => - e
  | S754_finite false _ e => e
  | _ => 0
  end.

Definition order_mantissa (x : float) : Z :=
  match x with
  | S754_finite true m _ => Zneg m
  | S754_finite false m _ => Zpos m
  | _ => 0
  end.

Definition key_lt (x y : float) : Prop :=
  order_class x < order_class y \/
  (order_class x = order_class y /\
   (order_exponent x < order_exponent y \/
    (order_exponent x = order_exponent y /\ order_mantissa x < order_mantissa y))).

Definition key_eq (x y : float) : Prop :=
  order_class x = order_class y /\
  order_exponent x = order_exponent y /\
  order_mantissa x = order_mantissa y.

Definition nan_free (xs : list float) : Prop :=
  Forall (fun x => F64.is_nan x = false) xs.

(** The global best is one of the evaluated rows, its profile is the
    global-best profile, and no evaluated row is strictly better. *)
Definition best_tracks {E : Environment} (args : Args) (st : SearchState)
    (w : World) : Prop :=
  Forall (fun row => row_nan_free row = true) (evaluated_rows w) /\
  match global_best_result st with
  | None => evaluated_rows w = []
  | Some best =>
      best ∈ evaluated_rows w /\
      global_best_profile st = profile best /\
      forall row, row ∈ evaluated_rows w ->
        better_than row best (selection_metric args) = Ok false
  end.

(** The global best of [st'] is that of [st] or strictly better, and in
    both cases the old one is not strictly better than the new one. *)
Definition not_decreased {E : Environment} (args : Args) (st st' : SearchState)
  : Prop :=
  match global_best_result st, global_best_result st' with
  | Some b, Some b' =>
      (b' = b \/ better_than b' b (selection_metric args) = Ok true) /\
      better_than b b' (selection_metric args) = Ok false
  | None, _ => True
  | Some _, None => False
  end.

(** A result row holding the failure sentinel. *)
Definition is_sentinel (row : CandidateResult) : Prop :=
  objective_value row = S754_infinity true /\
  avg_score row = S754_infinity true /\
  max_score row = 0 /\
  avg_frames row = F64.dec 0 0.

#[global] Instance is_sentinel_dec row : Decision (is_sentinel row).
Proof. unfold is_sentinel. apply _. Defined.

Definition three_metrics : list string := ["objective"; "score"; "insane"]%string.

(** The per-key difference [newer - older] as floating-point subtraction
    gives it, with no rounding to six decimals: the momentum as the
    specification words it. *)
Definition elementwise_difference (newer older : Profile) : result Profile :=
  for_each
    (fun (out : Profile) key =>
       x ← dict_get newer key;
       y ← dict_get older key;
       Ok (<[key := F64.sub x y]> out))
    PROFILE_KEYS ∅.

(** The signature of an accepted candidate. *)
Definition spec_signature (spec : Profile * string) : result Signature :=
  profile_signature (fst spec).

(** The accepted candidates have signatures, pairwise distinct, and
    [seen] holds exactly those. *)
Definition distinct_signatures {E : Environment} (g : GenState) : Prop :=
  NoDup (map spec_signature (candidate_specs g)) /\
  Forall (fun spec => exists sig, spec_signature spec = Ok sig) (candidate_specs g) /\
  forall sig, sig ∈ seen g <-> Ok sig ∈ map spec_signature (candidate_specs g).

Section SelectionNotions.
Context `{Environment}.

(** The global best after the selection step: the winner if there was
    none or the winner is strictly better, the previous one otherwise. *)
Definition best_updated (args : Args) (winner : CandidateResult)
    (st st' : SearchState) : Prop :=
  match global_best_result st with
  | None =>
      global_best_result st' = Some winner /\
      global_best_profile st' = profile winner
  | Some best =>
      exists replace,
        better_than winner best (selection_metric args) = Ok replace /\
        if replace : bool then
          global_best_result st' = Some winner /\
          global_best_profile st' = profile winner
        else
          global_best_result st' = Some best /\
          global_best_profile st' = global_best_profile st
  end.

(** An iteration ranked [ranked], evaluated from [w1], with winner and
    "improved" flag as given, between the states [st] and [st'] and ending
    in the world [w']. *)
Definition iteration_ran (args : Args) (iter : Z) (st st' : SearchState)
    (w1 w' : World) (ranked : list CandidateResult)
    (winner : CandidateResult) (improved : bool) : Prop :=
  head ranked = Some winner /\
  (exists incumbent_result,
     find_incumbent ranked = Ok incumbent_result /\
     better_than winner incumbent_result (selection_metric args) = Ok improved) /\
  w' = add_session_file (WinnerProfile iter (incumbent_profile st'))
         (add_session_file (Leaderboard iter ranked) w1) /\
  exists entry,
    history st' = history st ++ [entry] /\
    history_iteration entry = iter /\
    history_improved entry = improved /\
    history_stagnation_count entry = stagnation_count st'.
End SelectionNotions.

(** A step of the generation phase keeps the signatures distinct. *)
Definition keeps_distinct {E : Environment} (g g' : GenState) : Prop :=
  distinct_signatures g -> distinct_signatures g'.

(** A profile that holds every scale key and the delta key. *)
Definition has_profile_keys (p : Profile) : Prop :=
  forall key, key ∈ PROFILE_KEYS -> is_Some (p !! key).

(** What the program relies on from [random.Random]: [_randbelow(n)]
    returns a number from 0 up to, not including, [n], and [sample] returns
    elements of the population. *)
Definition rng_well_behaved {E : Environment} : Prop :=
  (forall n r, 0 < n -> 0 <= fst (rng_randbelow n r) < n) /\
  (forall population k r x, x ∈ fst (rng_sample population k r) -> x ∈ population).

(** A computation that never fails and whose results satisfy [Q]. *)
Definition returns_with {S A} (Q : A -> Prop) (m : M S A) : Prop :=
  forall s r s', m s = (r, s') -> exists a, r = Ok a /\ Q a.

(** A computation that returns, or fails with [e] and nothing else. *)
Definition fails_only_with {S A} (e : exn) (m : M S A) : Prop :=
  forall s e' s', m s = (Raise e', s') -> e' = e.

(** The profiles a generation phase starts from hold every profile key. *)
Definition profiles_complete {E : Environment} (st : SearchState) : Prop :=
  has_profile_keys (incumbent_profile st) /\
  forall anchor, last_gain_anchor st = Some anchor -> has_profile_keys anchor.

(** A generation step keeps the accepted candidates complete. *)
Definition keeps_complete {E : Environment} (g g' : GenState) : Prop :=
  Forall (fun spec => has_profile_keys (fst spec)) (candidate_specs g) ->
  Forall (fun spec => has_profile_keys (fst spec)) (candidate_specs g').

(** The candidate list of [g'] is that of [g] with at most [k] more
    candidates at its end. *)
Definition grows_by {E : Environment} (k : nat) (g g' : GenState) : Prop :=
  exists extra,
    candidate_specs g' = candidate_specs g ++ extra /\ (length extra <= k)%nat.

(** A generation step that accepts at most [k] candidates. *)
Definition adds_at_most {E : Environment} {A} (k : nat) (m : M GenState A) : Prop :=
  forall g r g', m g = (r, g') -> grows_by k g g'.

(** The candidate list only grows, and not beyond [n] candidates. *)
Definition capped {E : Environment} (n : Z) (g g' : GenState) : Prop :=
  candidate_specs g `prefix_of` candidate_specs g' /\
  (Z.of_nat (length (candidate_specs g)) <= n ->
   Z.of_nat (length (candidate_specs g')) <= n).

(** A computation whose normal returns end in a state satisfying [P]. *)
Definition ends_with {S A} (P : S -> Prop) (m : M S A) : Prop :=
  forall s a s', m s = (Ok a, s') -> P s'.

(** ** Concrete sessions *)

Module Scenario.

(** [x ** n] by repeated multiplication, for the stand-in environment. *)
Fixpoint pow_by_mul (x : float) (n : nat) : float :=
  match n with
  | O => F64.dec 1 0
  | S n' => F64.mul x (pow_by_mul x n')
  end.

(** A stand-in environment: a generator whose every draw is the lowest
    value it may return, and the given benchmark. *)
Definition lowest_draws (bench : World -> bench_outcome) : Environment :=
  {| rng_t := unit;
     rng_seed := fun _ => tt;
     rng_random := fun r => (F64.dec 0 0, r);
     rng_randbelow := fun _ r => (0, r);
     rng_sample := fun population k r => (take (Z.to_nat k) population, r);
     float_pow := fun x n => Ok (pow_by_mul x (Z.to_nat n));
     benchmark := bench |}.

Definition the_bot : string := "codex-potential-adaptive".

Definition ranking (score : Z) : RankingItem :=
  {| bot_id := the_bot;
     ranking_objective_value := F64.dec score 0;
     ranking_avg_score := F64.dec score 0;
     ranking_max_score := score;
     ranking_avg_frames := F64.dec 100 0 |}.

(** A benchmark that scores 5 when the active profile is [target] and 3
    otherwise. *)
Definition prefers (target : Profile) (w : World) : bench_outcome :=
  if decide (active_profile_file w = Some target)
  then BenchSummary [ranking 5]
  else BenchSummary [ranking 3].

(** A benchmark whose summary never lists the target bot. *)
Definition omits_bot (w : World) : bench_outcome := BenchSummary [].

Definition args_with (iters : Z) (start : option ProfilePath) : Args :=
  {| iterations := iters;
     candidates := 2;
     max_frames := 108000;
     jobs := 8;
     bot := the_bot;
     random_seed := 424242;
     initial_step := F64.dec 18 2;
     decay := F64.dec 86 2;
     min_step := F64.dec 4 2;
     install_mode := "champion";
     start_profile := start;
     anchor_mode := "core";
     selection_metric := "score" |}.

(** A world with an empty [base.json], no champion, and the given
    active profile and [--start-profile] file. *)
Definition world_with (active other : option Profile) : World :=
  {| session_name := "session-20260101-000000";
     seeds_file_exists := true;
     base_profile_file := Some ∅;
     champion_profile_file := None;
     archived_champions := [];
     other_profile_file := other;
     active_profile_file := active;
     session_dir_exists := false;
     binary_available := true;
     session_files := [];
     latest_session := None;
     bench_log := [] |}.

(** The profile of defaults: every scale 1.0, the delta 0.0. *)
Definition defaults : Profile :=
  match normalize_profile ∅ with
  | Ok p => p
  | Raise _ => ∅
  end.

(** The defaults but for a risk weight one millionth higher. *)
Definition nudged : Profile :=
  <["risk_weight_scale"%string := F64.dec 1000001 6]> ∅.

(** An active profile outside its bounds, as a hand-edited file. *)
Definition unnormalized : Profile :=
  <["risk_weight_scale"%string := F64.dec 9 0]> ∅.

(** A session started at the defaults whose benchmark prefers them. *)
Definition stay_env : Environment := lowest_draws (prefers defaults).
Definition stay_args : Args := args_with 1 None.
Definition stay_world : World := world_with (Some ∅) None.

(** A session started next to the defaults, which the benchmark
    prefers: the first iteration moves the incumbent onto them. *)
Definition move_env : Environment := lowest_draws (prefers defaults).
Definition move_args : Args := args_with 2 (Some OtherPath).
Definition move_world : World := world_with (Some ∅) (Some nudged).

(** The same world without its [base.json]. *)
Definition without_base (w : World) : World :=
  {| session_name := session_name w;
     seeds_file_exists := seeds_file_exists w;
     base_profile_file := None;
     champion_profile_file := champion_profile_file w;
     archived_champions := archived_champions w;
     other_profile_file := other_profile_file w;
     active_profile_file := active_profile_file w;
     session_dir_exists := session_dir_exists w;
     binary_available := binary_available w;
     session_files := session_files w;
     latest_session := latest_session w;
     bench_log := bench_log w |}.

(** A session whose [--start-profile] file does not exist. *)
Definition lost_args : Args := args_with 1 (Some OtherPath).
Definition lost_world : World := world_with (Some unnormalized) None.

Definition row_of (objective avg : float) (mx : Z) (frames : float)
  : CandidateResult :=
  {| iteration := 1;
     candidate := 0;
     strategy := "mutate";
     objective_value := objective;
     avg_score := avg;
     max_score := mx;
     avg_frames := frames;
     out_dir := "";
     profile := ∅ |}.

(** The row recorded for a candidate whose benchmark run failed. *)
Definition failed_row : CandidateResult :=
  row_of (S754_infinity true) (S754_infinity true) 0 (F64.dec 0 0).

(** A successful run with ordinary numbers. *)
Definition scored_row : CandidateResult :=
  row_of (F64.dec 5 0) (F64.dec 5 0) 7 (F64.dec 100 0).

(** Successful runs that report a negative maximum score, and negative
    average frames with scores of minus infinity. *)
Definition negative_max_row : CandidateResult :=
  row_of (F64.dec 0 0) (F64.dec 0 0) (-1) (F64.dec 0 0).
Definition negative_frames_row : CandidateResult :=
  row_of (S754_infinity true) (S754_infinity true) 0 (F64.dec (-1) 0).

(** A third successful run, between the two. *)
Definition middling_row : CandidateResult :=
  row_of (F64.dec 4 0) (F64.dec 4 0) 9 (F64.dec 50 0).

(** The rows of an iteration as evaluated, before ranking. *)
Definition unranked_rows : list CandidateResult :=
  [failed_row; middling_row; scored_row].

(** A benchmark that always exits non-zero. *)
Definition always_fails (w : World) : bench_outcome := BenchFailed.

(** The snapshot [main] takes of the out-of-bounds active profile. *)
Definition lost_snapshot : Profile :=
  match snapshot lost_world with
  | Ok p => p
  | Raise _ => ∅
  end.

Definition lost_run : result Z * World :=
  @main move_env lost_args lost_world.

(** A summary entry whose scores are NaN. *)
Definition nan_ranking : RankingItem :=
  {| bot_id := the_bot;
     ranking_objective_value := S754_nan;
     ranking_avg_score := S754_nan;
     ranking_max_score := 0;
     ranking_avg_frames := F64.dec 100 0 |}.

(** A benchmark that scores its first two runs 3 and 2, reports NaN
    on the third and scores 5 from then on. *)
Definition nan_once (w : World) : bench_outcome :=
  match length (bench_log w) with
  | 0%nat => BenchSummary [ranking 3]
  | 1%nat => BenchSummary [ranking 2]
  | 2%nat => BenchSummary [nan_ranking]
  | _ => BenchSummary [ranking 5]
  end.

(** A session of two iterations of two candidates against it: the
    incumbent of the second iteration is the run that reports NaN. *)
Definition nan_run : result Z * World :=
  @main (lowest_draws nan_once) (args_with 2 None) stay_world.

(** The global best that session's summary records, and the evaluated
    row that scored 5. *)
Definition nan_best : CandidateResult :=
  default failed_row (summary_best <$> session_summary (snd nan_run)).
Definition nan_better : CandidateResult :=
  default failed_row
    (find (fun row => bool_decide (avg_score row = F64.dec 5 0))
          (evaluated_rows (snd nan_run))).



(** A session whose benchmark never reports the target bot. *)
Definition absent_run : result Z * World :=
  @main (lowest_draws omits_bot) stay_args stay_world.

(** The whole session that stays at the defaults. *)
Definition stay_run : result Z * World := @main stay_env stay_args stay_world.

(** The state in which a session started at the defaults enters its
    first iteration. *)
Definition stay_state : @SearchState stay_env :=
  @Build_SearchState stay_env defaults defaults None None None 0 [] tt.

Definition stay_generation : result (list (Profile * string) * unit) :=
  @run_generation stay_env stay_args [] stay_state (F64.dec 18 2).

Definition stay_specs : list (Profile * string) :=
  match stay_generation with
  | Ok (specs, _) => specs
  | Raise _ => []
  end.

(** The generation phase asked for more candidates than it can make. *)
Definition greedy_args : Args :=
  {| iterations := 1;
     candidates := 328;
     max_frames := 108000;
     jobs := 8;
     bot := the_bot;
     random_seed := 424242;
     initial_step := F64.dec 18 2;
     decay := F64.dec 86 2;
     min_step := F64.dec 4 2;
     install_mode := "champion";
     start_profile := None;
     anchor_mode := "core";
     selection_metric := "score" |}.

(** A profile file holding values that are not finite numbers. *)
Definition nonfinite : Profile :=
  <["risk_weight_scale"%string := S754_nan]>
    (<["survival_weight_scale"%string := S754_infinity true]>
       (<[DELTA_KEY := S754_infinity false]> ∅)).

(** The evaluation phase of the first iteration of the session that
    stays at the defaults. *)
Definition stay_evaluation : result (list CandidateResult) * World :=
  @evaluate_candidates stay_env stay_args 1 "iter-001" 0 stay_specs [] stay_world.

(** The first iteration of the session that stays at the defaults. *)
Definition stay_iteration : result (@SearchState stay_env) * World :=
  @iteration_body stay_env stay_args [] "codex-tuner/runs/session-20260101-000000"
                  stay_state 1 stay_world.
Definition stay_after : @SearchState stay_env :=
  returned stay_iteration stay_state.

(** The session that moves onto the defaults, and its first iteration. *)
Definition move_init : result (@Session move_env) * World :=
  @init move_env move_args move_world.
Definition move_session : @Session move_env :=
  returned move_init
    (@Build_Session move_env "" ∅ []
       (@Build_SearchState move_env ∅ ∅ None None None 0 [] tt)).
Definition move_iteration : result (@SearchState move_env) * World :=
  @iteration_body move_env move_args (anchor_profiles move_session)
                  (session_dir move_session) (initial_state move_session) 1
                  (snd move_init).
Definition move_after : @SearchState move_env :=
  returned move_iteration (initial_state move_session).

(** The difference between the new and the previous incumbent of that
    iteration, not rounded. *)
Definition move_difference : Profile :=
  match elementwise_difference (incumbent_profile move_after)
                               (incumbent_profile (initial_state move_session)) with
  | Ok d => d
  | Raise _ => ∅
  end.

(** The session and the state after its first iteration. *)
Definition first_iteration {E : Environment} (args : Args) (w : World)
  : option (Session * SearchState * World) :=
  match init args w with
  | (Ok s, w1) =>
      match iteration_body args (anchor_profiles s) (session_dir s)
                           (initial_state s) 1 w1 with
      | (Ok st, w2) => Some (s, st, w2)
      | _ => None
      end
  | _ => None
  end.

End Scenario.

(** ** Tactics for running monadic code symbolically *)

(** One step of a run recorded in hypothesis [H]: reduce, then split on
    the innermost scrutinee that is not itself a [match]. *)
Ltac atomic x :=
  lazymatch x with
  | context [match _ with _ => _ end] => fail
  | _ => idtac
  end.

Ltac run_step H :=
  cbv beta iota zeta in H;
  match type of H with
  | context [match ?x with _ => _ end] => atomic x; destruct x eqn:?
  end.

(** ** Facts about binary64 rounding *)

Module F64Facts.
Import F64.

Lemma rhe_div_bound a b : 0 < b -> 2 * Z.abs (rhe_div a b * b - a) <= b.
Proof.
  intros Hb. unfold rhe_div.
  pose proof (Z.div_mod a b ltac:(lia)) as Hdm.
  pose proof (Z.mod_pos_bound a b Hb) as Hr.
  set (q := a / b) in *. set (r := a mod b) in *.
  destruct (Z.compare_spec (2 * r) b); [destruct (Z.even q)|..]; nia.
Qed.

Lemma rhe_div_unique a b n :
  0 < b -> 2 * Z.abs (n * b - a) < b -> rhe_div a b = n.
Proof.
  intros Hb Hn. unfold rhe_div.
  pose proof (Z.div_mod a b ltac:(lia)) as Hdm.
  pose proof (Z.mod_pos_bound a b Hb) as Hr.
  set (q := a / b) in *. set (r := a mod b) in *.
  assert (n = q \/ n = q + 1) as [-> | ->] by nia;
    destruct (Z.compare_spec (2 * r) b); try destruct (Z.even q); nia.
Qed.

Lemma rhe_div_mul n b : 0 < b -> rhe_div (n * b) b = n.
Proof. intros Hb. apply rhe_div_unique; [done|]. rewrite Z.sub_diag. simpl. lia. Qed.

Lemma rhe_div_mono a1 a2 b :
  0 < b -> a1 <= a2 -> rhe_div a1 b <= rhe_div a2 b.
Proof.
  intros Hb Ha. unfold rhe_div.
  pose proof (Z.div_mod a1 b ltac:(lia)) as Hdm1.
  pose proof (Z.mod_pos_bound a1 b Hb) as Hr1.
  pose proof (Z.div_mod a2 b ltac:(lia)) as Hdm2.
  pose proof (Z.mod_pos_bound a2 b Hb) as Hr2.
  pose proof (Z.div_le_mono a1 a2 b Hb Ha) as Hq.
  set (q1 := a1 / b) in *. set (r1 := a1 mod b) in *.
  set (q2 := a2 / b) in *. set (r2 := a2 mod b) in *.
  destruct (Z.compare_spec (2 * r1) b), (Z.compare_spec (2 * r2) b);
    repeat match goal with |- context [Z.even ?q] => destruct (Z.even q) eqn:? end;
    try nia.
  all: destruct (Z.eq_dec q1 q2) as [Heq|Hne]; [rewrite Heq in *; congruence || nia | nia].
Qed.

Lemma digits2_pos_size m : digits2_pos m = Pos.size m.
Proof. induction m; simpl; congruence. Qed.

Lemma digits2_pos_log2 m : Zpos (digits2_pos m) = Z.log2 (Zpos m) + 1.
Proof.
  rewrite digits2_pos_size.
  destruct m; simpl; rewrite ?Pos2Z.inj_succ; lia.
Qed.

Lemma valid_finite_inv s m e :
  valid (S754_finite s m e) = true ->
  -1074 <= e <= 971 /\ Zpos m < 2 ^ 53 /\ (-1074 < e -> 2 ^ 52 <= Zpos m).
Proof.
  unfold valid, valid_binary, bounded, canonical_mantissa, fexp, emin, prec, emax.
  rewrite andb_true_iff, Z.eqb_eq, Z.leb_le, digits2_pos_log2.
  intros [Hc He].
  destruct (Z.log2_spec (Zpos m) ltac:(lia)) as [Hlo Hhi].
  set (L := Z.log2 (Zpos m)) in *.
  assert (0 <= L) by apply Z.log2_nonneg.
  assert (L <= 52) by lia.
  assert (Zpos m < 2 ^ 53).
  { eapply Z.lt_le_trans; [exact Hhi|]. apply Z.pow_le_mono_r; lia. }
  repeat split; try lia.
  intros Hn. assert (L = 52) as HL by lia. rewrite HL in Hlo. exact Hlo.
Qed.

Lemma valid_finite_intro s m e :
  -1074 <= e <= 971 -> Zpos m < 2 ^ 53 -> (-1074 < e -> 2 ^ 52 <= Zpos m) ->
  valid (S754_finite s m e) = true.
Proof.
  intros He Hm Hn.
  unfold valid, valid_binary, bounded, canonical_mantissa, fexp, emin, prec, emax.
  rewrite andb_true_iff, Z.eqb_eq, Z.leb_le, digits2_pos_log2.
  split; [|lia].
  assert (Z.log2 (Zpos m) < 53) by (apply Z.log2_lt_pow2; lia).
  destruct (Z.eq_dec e (-1074)) as [->|Hne]; [lia|].
  assert (52 <= Z.log2 (Zpos m)) by (apply Z.log2_le_pow2; lia).
  lia.
Qed.

Lemma pow2_pos k : 0 <= k -> 0 < 2 ^ k.
Proof. intros. apply Z.pow_pos_nonneg; lia. Qed.

(** On canonical representations the lexicographic comparison of
    exponent and mantissa is the comparison of the values. *)
Lemma lex_scaled m1 e1 m2 e2 :
  valid (S754_finite false m1 e1) = true ->
  valid (S754_finite false m2 e2) = true ->
  match e1 ?= e2 with
  | Lt => Lt
  | Gt => Gt
  | Eq => Pos.compare_cont Eq m1 m2
  end = (Zpos m1 * 2 ^ (e1 + 1074) ?= Zpos m2 * 2 ^ (e2 + 1074)).
Proof.
  intros (He1 & Hm1 & Hn1)%valid_finite_inv (He2 & Hm2 & Hn2)%valid_finite_inv.
  assert (forall ma ea mb eb,
    -1074 <= ea -> ea < eb -> Zpos ma < 2 ^ 53 -> 2 ^ 52 <= Zpos mb ->
    Zpos ma * 2 ^ (ea + 1074) < Zpos mb * 2 ^ (eb + 1074)) as Hlt.
  { intros ma ea mb eb Hea Hab Hma Hmb.
    pose proof (pow2_pos (ea + 1074) ltac:(lia)) as HA.
    assert (2 * 2 ^ (ea + 1074) <= 2 ^ (eb + 1074)) as HB.
    { rewrite <- Z.pow_succ_r by lia. apply Z.pow_le_mono_r; lia. }
    change (2 ^ 53) with (2 * 2 ^ 52) in Hma.
    set (A := 2 ^ (ea + 1074)) in *. set (B := 2 ^ (eb + 1074)) in *.
    set (T := 2 ^ 52) in *. assert (0 < T) by (subst T; lia).
    nia. }
  destruct (Z.compare_spec e1 e2) as [->|Hc|Hc].
  - rewrite <- Zmult_compare_compat_r by (pose proof (pow2_pos (e2 + 1074)); lia).
    reflexivity.
  - symmetry. apply Z.compare_lt_iff. apply Hlt; lia.
  - symmetry. apply Z.compare_gt_iff. apply Hlt; lia.
Qed.

Lemma scaled_pos (m : positive) e :
  -1074 <= e -> 0 < Zpos m * 2 ^ (e + 1074).
Proof. intros. pose proof (pow2_pos (e + 1074) ltac:(lia)). lia. Qed.

Lemma compare_scaled x y :
  valid x = true -> valid y = true ->
  is_finite x = true -> is_finite y = true ->
  SFcompare x y = Some (scaled x ?= scaled y).
Proof.
  intros Hx Hy Hfx Hfy.
  destruct x as [sx|sx| |sx mx ex], y as [sy|sy| |sy my ey]; try discriminate;
    simpl SFcompare; unfold scaled, sgn.
  - reflexivity.
  - apply valid_finite_inv in Hy as (He & _).
    pose proof (scaled_pos my ey ltac:(lia)).
    f_equal. symmetry. destruct sy;
      [apply Z.compare_gt_iff | apply Z.compare_lt_iff]; lia.
  - apply valid_finite_inv in Hx as (He & _).
    pose proof (scaled_pos mx ex ltac:(lia)).
    f_equal. symmetry. destruct sx;
      [apply Z.compare_lt_iff | apply Z.compare_gt_iff]; lia.
  - pose proof Hx as (Hex & _)%valid_finite_inv.
    pose proof Hy as (Hey & _)%valid_finite_inv.
    pose proof (scaled_pos mx ex ltac:(lia)).
    pose proof (scaled_pos my ey ltac:(lia)).
    f_equal. destruct sx, sy.
    + assert (forall a, -1 * a = - a) as Hneg by (intros; lia).
      rewrite !Hneg, Z.compare_opp.
      rewrite <- (lex_scaled my ey mx ex) by assumption.
      rewrite (Z.compare_antisym ex ey).
      destruct (ex ?= ey); simpl; try reflexivity.
      apply (Pos.compare_cont_antisym mx my Eq).
    + symmetry. apply Z.compare_lt_iff. lia.
    + symmetry. apply Z.compare_gt_iff. lia.
    + rewrite (lex_scaled mx ex my ey) by assumption.
      rewrite !Z.mul_1_l. reflexivity.
Qed.

Lemma rhe_div_scale a b c :
  0 < b -> 0 < c -> rhe_div (a * c) (b * c) = rhe_div a b.
Proof.
  intros Hb Hc. unfold rhe_div.
  rewrite Z.div_mul_cancel_r, Z.mul_mod_distr_r by lia.
  replace (2 * (a mod b * c)) with (2 * (a mod b) * c) by lia.
  rewrite <- Zmult_compare_compat_r by lia. reflexivity.
Qed.

(** [nearest_f64] on rationals below 4: the result is a canonical float
    with the requested sign, within half a unit in the last place. *)
Lemma nearest_f64_spec s num den :
  0 <= num -> 0 < den -> num < 4 * den ->
  valid (nearest_f64 s num den) = true /\
  is_finite (nearest_f64 s num den) = true /\
  exists mag, 0 <= mag /\
    scaled (nearest_f64 s num den) = sgn s * mag /\
    (nearest_f64 s num den = S754_zero s /\ mag = 0 \/
     exists p e, nearest_f64 s num den = S754_finite s p e) /\
    2 * Z.abs (mag * den - num * 2 ^ 1074) <= den * 2 ^ 1023.
Proof.
  intros Hnum Hden Hlt. unfold nearest_f64.
  destruct (Z.eqb_spec num 0) as [->|Hnz].
  { split; [reflexivity|]. split; [reflexivity|].
    exists 0. split; [lia|]. split; [unfold scaled; lia|].
    split; [by left|]. pose proof (pow2_pos 1023 ltac:(lia)). nia. }
  destruct (Z.log2_spec num ltac:(lia)) as [Ha1 Ha2].
  destruct (Z.log2_spec den ltac:(lia)) as [Hb1 Hb2].
  pose proof (Z.log2_nonneg num) as Ha0. pose proof (Z.log2_nonneg den) as Hb0.
  set (a := Z.log2 num) in *. set (b := Z.log2 den) in *.
  assert (a - b <= 2) as Hk.
  { assert (2 ^ a < 2 ^ (b + 3)) as Hp.
    { rewrite Z.pow_add_r by lia. change (2 ^ 3) with 8.
      rewrite Z.pow_succ_r in Hb2 by lia. lia. }
    apply Z.pow_lt_mono_r_iff in Hp; lia. }
  set (k := a - b) in *.
  set (above := if 0 <=? k then den * 2 ^ k <=? num else den <=? num * 2 ^ (- k)).
  set (L := if above then k else k - 1).
  assert (L <= 1) as HL1.
  { subst L. destruct above eqn:Hab; [|lia].
    destruct (Z.eq_dec k 2) as [Hk2|]; [|lia]. exfalso.
    subst above. rewrite Hk2 in Hab. simpl in Hab. apply Z.leb_le in Hab. lia. }
  (* the two-sided bound on the quotient, at shift [52 - L] *)
  assert (num * 2 ^ (52 - L) < 2 ^ 53 * den /\ 2 ^ 52 * den <= num * 2 ^ (52 - L))
    as [Hup Hdn].
  { subst L. destruct above eqn:Hab; subst above.
    - split.
      + assert (2 ^ (Z.succ a) * 2 ^ (52 - k) = 2 ^ 53 * 2 ^ b) as Heq.
        { rewrite <- !Z.pow_add_r by lia. f_equal. lia. }
        pose proof (pow2_pos (52 - k) ltac:(lia)). nia.
      + destruct (Z.leb_spec 0 k) as [Hk0|Hk0]; apply Z.leb_le in Hab.
        * assert (2 ^ 52 = 2 ^ k * 2 ^ (52 - k)) as Heq.
          { rewrite <- Z.pow_add_r by lia. f_equal. lia. }
          rewrite Heq. pose proof (pow2_pos (52 - k) ltac:(lia)). nia.
        * assert (2 ^ (52 - k) = 2 ^ (- k) * 2 ^ 52) as Heq.
          { rewrite <- Z.pow_add_r by lia. f_equal. lia. }
          rewrite Heq. nia.
    - replace (52 - (k - 1)) with (53 - k) by lia. split.
      + destruct (Z.leb_spec 0 k) as [Hk0|Hk0]; apply Z.leb_gt in Hab.
        * assert (2 ^ 53 = 2 ^ k * 2 ^ (53 - k)) as Heq.
          { rewrite <- Z.pow_add_r by lia. f_equal. lia. }
          rewrite Heq. pose proof (pow2_pos (53 - k) ltac:(lia)). nia.
        * assert (2 ^ (53 - k) = 2 ^ (- k) * 2 ^ 53) as Heq.
          { rewrite <- Z.pow_add_r by lia. f_equal. lia. }
          rewrite Heq. nia.
      + assert (2 ^ a * 2 ^ (53 - k) = 2 ^ 52 * 2 ^ (Z.succ b)) as Heq.
        { rewrite <- !Z.pow_add_r by lia. f_equal. lia. }
        pose proof (pow2_pos (53 - k) ltac:(lia)). nia. }
  clearbody L. clear above.
  set (e := Z.max (L - 52) (-1074)).
  assert (-1074 <= e <= -51) as He by lia.
  destruct (Z.leb_spec 0 e) as [?|_]; [lia|].
  set (t := - e) in *.
  assert (num * 2 ^ t < 2 ^ 53 * den) as Hup'.
  { assert (2 ^ t <= 2 ^ (52 - L)) by (apply Z.pow_le_mono_r; lia). nia. }
  assert (t < 1074 -> 2 ^ 52 * den <= num * 2 ^ t) as Hdn'.
  { intros Ht. replace t with (52 - L) by lia. exact Hdn. }
  pose proof (rhe_div_bound (num * 2 ^ t) den Hden) as Herr.
  assert (0 <= rhe_div (num * 2 ^ t) den) as Hm0.
  { pose proof (pow2_pos t ltac:(lia)).
    pose proof (rhe_div_mono (0 * den) (num * 2 ^ t) _ Hden ltac:(nia)) as H'.
    rewrite rhe_div_mul in H' by done. exact H'. }
  assert (rhe_div (num * 2 ^ t) den <= 2 ^ 53) as Hm53.
  { pose proof (rhe_div_mono (num * 2 ^ t) (2 ^ 53 * den) _ Hden ltac:(lia)) as H'.
    rewrite rhe_div_mul in H' by done. exact H'. }
  assert (t < 1074 -> 2 ^ 52 <= rhe_div (num * 2 ^ t) den) as Hm52.
  { intros Ht. specialize (Hdn' Ht).
    pose proof (rhe_div_mono (2 ^ 52 * den) (num * 2 ^ t) _ Hden ltac:(lia)) as H'.
    rewrite rhe_div_mul in H' by done. exact H'. }
  assert (2 ^ 1074 = 2 ^ t * 2 ^ (e + 1074)) as HP.
  { rewrite <- Z.pow_add_r by lia. f_equal. lia. }
  assert (2 ^ (e + 1074) <= 2 ^ 1023) as HT' by (apply Z.pow_le_mono_r; lia).
  pose proof (pow2_pos (e + 1074) ltac:(lia)) as HT.
  pose proof (pow2_pos t ltac:(lia)) as Ht2.
  set (m := rhe_div (num * 2 ^ t) den) in *. clearbody m.
  set (T := 2 ^ (e + 1074)) in *. set (T1023 := 2 ^ 1023) in *.
  set (P := 2 ^ 1074) in *. set (U := 2 ^ t) in *.
  destruct (Z.eqb_spec m (2 ^ 53)) as [Hm|Hm].
  - change (2 ^ 52) with (Zpos 4503599627370496).
    cbv beta iota zeta.
    destruct (Z.ltb_spec 971 (e + 1)) as [?|_]; [lia|].
    split; [apply valid_finite_intro; lia|].
    split; [reflexivity|].
    exists (m * T). split; [nia|]. split; [|split; [right; eauto|nia]].
    unfold scaled. f_equal.
    replace (e + 1 + 1074) with (Z.succ (e + 1074)) by lia.
    rewrite Z.pow_succ_r by lia. fold T. rewrite Hm.
    change (2 ^ 53) with (2 * 4503599627370496). lia.
  - cbv beta iota zeta. destruct m as [|p|p]; [| |lia].
    + split; [reflexivity|]. split; [reflexivity|].
      exists 0. split; [lia|]. split; [unfold scaled; lia|].
      split; [left; done|]. nia.
    + destruct (Z.ltb_spec 971 e) as [?|_]; [lia|].
      split; [apply valid_finite_intro; [lia|lia|intros; apply Hm52; lia]|].
      split; [reflexivity|].
      exists (Zpos p * T). split; [nia|]. split; [|split; [right; eauto|nia]].
      unfold scaled. reflexivity.
Qed.

Lemma micro_scaled x :
  valid x = true -> micro x = rhe_div (scaled x * 10 ^ 6) (2 ^ 1074).
Proof.
  intros Hv. pose proof (pow2_pos 1074 ltac:(lia)) as HP.
  destruct x as [s|s| |s m e]; unfold micro, scaled;
    try (symmetry; change (0 * 10 ^ 6) with (0 * 2 ^ 1074); by apply (rhe_div_mul 0)).
  apply valid_finite_inv in Hv as (He & _).
  assert ((if s then Z.neg m else Z.pos m) = sgn s * Z.pos m) as -> by (destruct s; reflexivity).
  destruct (Z.leb_spec 0 e) as [He0|He0].
  - rewrite Z.pow_add_r by lia.
    replace (sgn s * (Z.pos m * (2 ^ e * 2 ^ 1074)) * 10 ^ 6)
      with (sgn s * Z.pos m * 2 ^ e * 10 ^ 6 * 2 ^ 1074) by lia.
    symmetry. by apply rhe_div_mul.
  - assert (2 ^ 1074 = 2 ^ (- e) * 2 ^ (e + 1074)) as ->.
    { rewrite <- Z.pow_add_r by lia. f_equal. lia. }
    replace (sgn s * (Z.pos m * 2 ^ (e + 1074)) * 10 ^ 6)
      with (sgn s * Z.pos m * 10 ^ 6 * 2 ^ (e + 1074)) by lia.
    symmetry. apply rhe_div_scale; apply pow2_pos; lia.
Qed.

Lemma pow_gap : 10 ^ 6 * 2 ^ 1023 < 2 ^ 1074.
Proof. vm_compute. reflexivity. Qed.

Lemma ltb_scaled x y :
  valid x = true -> valid y = true ->
  is_finite x = true -> is_finite y = true ->
  SFltb x y = (scaled x <? scaled y).
Proof.
  intros. unfold SFltb, Z.ltb. rewrite compare_scaled by assumption.
  destruct (scaled x ?= scaled y); reflexivity.
Qed.

Lemma leb_scaled x y :
  valid x = true -> valid y = true ->
  is_finite x = true -> is_finite y = true ->
  SFleb x y = (scaled x <=? scaled y).
Proof.
  intros. unfold SFleb, Z.leb. rewrite compare_scaled by assumption.
  destruct (scaled x ?= scaled y); reflexivity.
Qed.

(** Decimal literals with six fractional digits, below 4 in magnitude. *)
Lemma dec6_spec n :
  -4000000 < n < 4000000 ->
  valid (dec n 6) = true /\ is_finite (dec n 6) = true /\
  2 * Z.abs (scaled (dec n 6) * 10 ^ 6 - n * 2 ^ 1074) <= 10 ^ 6 * 2 ^ 1023 /\
  (n <> 0 -> exists p e, dec n 6 = S754_finite (n <? 0) p e).
Proof.
  intros Hn. unfold dec.
  destruct (nearest_f64_spec (n <? 0) (Z.abs n) (10 ^ 6))
    as (Hv & Hf & mag & Hmag & Hs & Hshape & Herr);
    [lia | reflexivity | change (10 ^ 6) with 1000000; lia |].
  pose proof pow_gap as Hgap. pose proof (pow2_pos 1074 ltac:(lia)) as HP.
  change (10 ^ 6) with 1000000 in *.
  set (P := 2 ^ 1074) in *. set (T := 2 ^ 1023) in *.
  split; [done|]. split; [done|]. split.
  - rewrite Hs. unfold sgn. destruct (Z.ltb_spec n 0); nia.
  - intros Hne. destruct Hshape as [[_ ->]|Hsh]; [nia|exact Hsh].
Qed.

Lemma micro_dec6 n : -4000000 < n < 4000000 -> micro (dec n 6) = n.
Proof.
  intros Hn. destruct (dec6_spec n Hn) as (Hv & _ & Herr & _).
  pose proof pow_gap. rewrite micro_scaled by done. apply rhe_div_unique.
  - apply pow2_pos; lia.
  - set (P := 2 ^ 1074) in *. set (T := 2 ^ 1023) in *.
    change (10 ^ 6) with 1000000 in *. lia.
Qed.

Lemma scaled_dec6_lt n1 n2 :
  -4000000 < n1 < 4000000 -> -4000000 < n2 < 4000000 -> n1 < n2 ->
  scaled (dec n1 6) < scaled (dec n2 6).
Proof.
  intros H1 H2 Hlt.
  destruct (dec6_spec n1 H1) as (_ & _ & Herr1 & _).
  destruct (dec6_spec n2 H2) as (_ & _ & Herr2 & _).
  pose proof pow_gap. pose proof (pow2_pos 1074 ltac:(lia)).
  set (P := 2 ^ 1074) in *. set (T := 2 ^ 1023) in *.
  change (10 ^ 6) with 1000000 in *. nia.
Qed.

Lemma micro_mono x y :
  valid x = true -> valid y = true ->
  scaled x <= scaled y -> micro x <= micro y.
Proof.
  intros. rewrite !micro_scaled by done.
  apply rhe_div_mono; [apply pow2_pos; lia|].
  change (10 ^ 6) with 1000000. lia.
Qed.

Lemma micro_zero s : micro (S754_zero s) = 0.
Proof. reflexivity. Qed.

(** [round6] on a float whose value is below 4 in magnitude. *)
Lemma round6_spec x :
  valid x = true -> is_finite x = true -> -4000000 < micro x < 4000000 ->
  valid (round6 x) = true /\ is_finite (round6 x) = true /\
  scaled (round6 x) = scaled (dec (micro x) 6) /\
  (micro x <> 0 -> round6 x = dec (micro x) 6) /\
  round6 (round6 x) = round6 x.
Proof.
  intros Hv Hf Hn.
  destruct (dec6_spec _ Hn) as (Hdv & Hdf & _ & Hshape).
  assert (dec 0 6 = S754_zero false) as Hd0 by (vm_compute; reflexivity).
  assert (forall s, nearest_f64 s 0 (10 ^ 6) = S754_zero s) as Hn0
    by (intros []; vm_compute; reflexivity).
  assert (round6 (dec (micro x) 6) = dec (micro x) 6) as Hfix.
  { destruct (Z.eq_dec (micro x) 0) as [->|Hne]; [rewrite Hd0; done|].
    destruct (Hshape Hne) as (p & e & Hd).
    pose proof (micro_dec6 _ Hn) as Hm. rewrite Hd in Hm |- *.
    unfold round6. rewrite Hm. rewrite <- Hd. reflexivity. }
  destruct x as [s|s| |s m e]; try discriminate.
  - rewrite micro_zero, Hd0. repeat split; (reflexivity || congruence).
  - pose proof (valid_finite_inv _ _ _ Hv) as (He & _).
    pose proof (scaled_pos m e ltac:(lia)) as Hpos.
    assert (s = (micro (S754_finite s m e) <? 0) \/
            s = true /\ micro (S754_finite s m e) = 0) as Hsign.
    { pose proof (micro_zero false) as Hz.
      destruct s.
      - pose proof (micro_mono (S754_finite true m e) (S754_zero false) Hv eq_refl) as Hle.
        rewrite Hz in Hle. unfold scaled, sgn in Hle. specialize (Hle ltac:(lia)).
        destruct (Z.ltb_spec (micro (S754_finite true m e)) 0); [by left|right; lia].
      - pose proof (micro_mono (S754_zero false) (S754_finite false m e) eq_refl Hv) as Hle.
        rewrite Hz in Hle. unfold scaled, sgn in Hle. specialize (Hle ltac:(lia)).
        left. symmetry. apply Z.ltb_ge. exact Hle. }
    set (n := micro (S754_finite s m e)) in *.
    assert (round6 (S754_finite s m e) = nearest_f64 s (Z.abs n) (10 ^ 6)) as Hr
      by reflexivity.
    destruct Hsign as [Hs|[-> Hn0']].
    + assert (round6 (S754_finite s m e) = dec n 6) as Hrd
        by (rewrite Hr; unfold dec; rewrite <- Hs; reflexivity).
      rewrite Hrd. repeat split; try done.
    + rewrite Hr, Hn0'. change (Z.abs 0) with 0. rewrite Hn0, Hd0.
      repeat split; try done.
Qed.

Lemma clamp_range x lo hi :
  valid x = true ->
  valid lo = true -> valid hi = true ->
  is_finite lo = true -> is_finite hi = true ->
  scaled lo < scaled hi ->
  valid (clamp x lo hi) = true /\ is_finite (clamp x lo hi) = true /\
  scaled lo <= scaled (clamp x lo hi) <= scaled hi.
Proof.
  intros Hx Hlo Hhi Hflo Hfhi Hlt.
  assert (SFltb lo hi = true) as Hlohi
    by (rewrite ltb_scaled by done; apply Z.ltb_lt; done).
  unfold clamp, F64.max, F64.min, gt, lt.
  destruct (is_finite x) eqn:Hfx.
  - rewrite (ltb_scaled x hi) by done.
    destruct (Z.ltb_spec (scaled x) (scaled hi)).
    + rewrite (ltb_scaled lo x) by done.
      destruct (Z.ltb_spec (scaled lo) (scaled x)); repeat split; (done || lia).
    + rewrite Hlohi. repeat split; (done || lia).
  - assert (SFltb x hi = false \/ SFltb x hi = true /\ SFltb lo x = false) as Hc.
    { destruct x as [?|[]| |]; try discriminate;
        destruct hi as [?|?| |[] ? ?]; try discriminate;
        destruct lo as [?|?| |[] ? ?]; try discriminate; simpl; auto. }
    destruct Hc as [->|[-> ->]]; [rewrite Hlohi|]; repeat split; (done || lia).
Qed.

Lemma round6_clamp x lo hi :
  valid x = true -> good_bounds lo hi = true ->
  le lo (round6 (clamp x lo hi)) = true /\
  le (round6 (clamp x lo hi)) hi = true /\
  clamp (round6 (clamp x lo hi)) lo hi = round6 (clamp x lo hi) /\
  round6 (round6 (clamp x lo hi)) = round6 (clamp x lo hi) /\
  valid (round6 (clamp x lo hi)) = true.
Proof.
  intros Hx Hg. unfold good_bounds in Hg.
  repeat (apply andb_true_iff in Hg as [Hg ?]).
  repeat match goal with
         | H : bool_decide _ = true |- _ => apply bool_decide_eq_true in H
         | H : negb _ = true |- _ => apply negb_true_iff, Z.eqb_neq in H
         | H : (_ <? _) = true |- _ => apply Z.ltb_lt in H
         end.
  set (lo6 := micro lo) in *. set (hi6 := micro hi) in *.
  assert (-4000000 < lo6 < 4000000) as Hlo6 by lia.
  assert (-4000000 < hi6 < 4000000) as Hhi6 by lia.
  destruct (dec6_spec lo6 Hlo6) as (Hvlo & Hflo & _).
  destruct (dec6_spec hi6 Hhi6) as (Hvhi & Hfhi & _).
  pose proof (scaled_dec6_lt lo6 hi6 Hlo6 Hhi6 ltac:(lia)) as Hlt.
  assert (lo = dec lo6 6) as Elo by done.
  assert (hi = dec hi6 6) as Ehi by done.
  rewrite <- Elo in Hvlo, Hflo, Hlt. rewrite <- Ehi in Hvhi, Hfhi, Hlt.
  destruct (clamp_range x lo hi) as (Hvc & Hfc & Hclo & Hchi); try done.
  set (c := clamp x lo hi) in *.
  pose proof (micro_mono _ _ Hvlo Hvc Hclo) as Hn1.
  pose proof (micro_mono _ _ Hvc Hvhi Hchi) as Hn2.
  fold lo6 in Hn1. fold hi6 in Hn2.
  destruct (round6_spec c Hvc Hfc ltac:(lia)) as (Hvr & Hfr & Hsr & Hrd & Hfix).
  set (r := round6 c) in *. set (n := micro c) in *.
  assert (scaled lo <= scaled r /\ (scaled lo = scaled r -> r = lo)) as [Hrlo Hrlo'].
  { rewrite Hsr. destruct (Z.eq_dec n lo6) as [Heq|Hne].
    - rewrite Hrd by lia. rewrite Heq, <- Elo. split; [lia|done].
    - pose proof (scaled_dec6_lt lo6 n Hlo6 ltac:(lia) ltac:(lia)) as Hs.
      rewrite <- Elo in Hs. lia. }
  assert (scaled r <= scaled hi /\ (scaled r = scaled hi -> r = hi)) as [Hrhi Hrhi'].
  { rewrite Hsr. destruct (Z.eq_dec n hi6) as [Heq|Hne].
    - rewrite Hrd by lia. rewrite Heq, <- Ehi. split; [lia|done].
    - pose proof (scaled_dec6_lt n hi6 ltac:(lia) Hhi6 ltac:(lia)) as Hs.
      rewrite <- Ehi in Hs. lia. }
  split; [unfold le; rewrite leb_scaled by done; apply Z.leb_le; done|].
  split; [unfold le; rewrite leb_scaled by done; apply Z.leb_le; done|].
  split; [|done].
  unfold clamp, F64.max, F64.min, gt, lt.
  rewrite (ltb_scaled r hi) by done.
  destruct (Z.ltb_spec (scaled r) (scaled hi)) as [Hc|Hc].
  - rewrite (ltb_scaled lo r) by done.
    destruct (Z.ltb_spec (scaled lo) (scaled r)); [done|]. symmetry. apply Hrlo'. lia.
  - assert (r = hi) as -> by (apply Hrhi'; lia).
    rewrite (ltb_scaled lo hi) by done.
    destruct (Z.ltb_spec (scaled lo) (scaled hi)); [done|lia].
Qed.
End F64Facts.

Import F64Facts.

Opaque F64.nearest_f64 F64.rhe_div.

(** ** Facts about normalization *)

Lemma scale_keys_bounded key :
  key ∈ SCALE_KEYS <-> is_Some (SCALE_BOUNDS !! key).
Proof.
  rewrite <- elem_of_dom.
  assert (dom SCALE_BOUNDS = list_to_set SCALE_KEYS) as ->
    by (apply (bool_decide_eq_true_1 _); vm_compute; reflexivity).
  rewrite elem_of_list_to_set. reflexivity.
Qed.

Lemma scale_bounds_good key lo hi :
  SCALE_BOUNDS !! key = Some (lo, hi) ->
  good_bounds lo hi = true /\
  F64.round6 (clamp (F64.dec 1 0) lo hi) = F64.dec 1 0.
Proof.
  intros H. unfold SCALE_BOUNDS in H. apply elem_of_list_to_map_2 in H.
  match type of H with
  | _ ∈ ?l =>
      assert (forallb (fun kv : string * (float * float) =>
                good_bounds (fst (snd kv)) (snd (snd kv)) &&
                bool_decide (F64.round6 (clamp (F64.dec 1 0) (fst (snd kv)) (snd (snd kv)))
                             = F64.dec 1 0)) l = true) as Hall
        by (vm_compute; reflexivity)
  end.
  rewrite forallb_forall in Hall. apply list_elem_of_In, Hall in H.
  apply andb_true_iff in H as [H1 H2%bool_decide_eq_true]. split; [exact H1|exact H2].
Qed.

Lemma delta_bounds_good :
  good_bounds (fst DELTA_BOUNDS) (snd DELTA_BOUNDS) = true /\
  F64.round6 (clamp (F64.dec 0 0) (fst DELTA_BOUNDS) (snd DELTA_BOUNDS)) = F64.dec 0 0.
Proof. split; vm_compute; reflexivity. Qed.

Lemma delta_not_scale : DELTA_KEY ∉ SCALE_KEYS.
Proof. apply (bool_decide_eq_true_1 (DELTA_KEY ∉ SCALE_KEYS)). vm_compute. reflexivity. Qed.

Lemma dict_get_Some {A} (d : gmap string A) key v :
  d !! key = Some v -> dict_get d key = Ok v.
Proof. unfold dict_get. by intros ->. Qed.

Lemma get_or_Some (p : Profile) key d v : p !! key = Some v -> get_or p key d = v.
Proof. unfold get_or. by intros ->. Qed.

Lemma for_each_scale (p : Profile) keys (out : Profile) :
  (forall k, k ∈ keys -> is_Some (SCALE_BOUNDS !! k)) ->
  exists q : Profile,
    for_each
      (fun (out : Profile) key =>
         '(lo, hi) ← dict_get SCALE_BOUNDS key;
         Ok (<[key := F64.round6 (clamp (get_or p key (F64.dec 1 0)) lo hi)]> out))
      keys out = Ok q /\
    forall k, q !! k =
      if decide (k ∈ keys) then scale_value p k <$> SCALE_BOUNDS !! k else out !! k.
Proof.
  revert out. induction keys as [|key rest IH]; intros out Hin.
  - exists out. split; [reflexivity|]. intros k.
    destruct (decide (k ∈ [])) as [H|_]; [by apply not_elem_of_nil in H|done].
  - destruct (Hin key ltac:(left)) as [[lo hi] Hb].
    cbn [for_each]. rewrite (dict_get_Some _ _ _ Hb).
    cbn [mbind result_mbind result_bind].
    destruct (IH (<[key := F64.round6 (clamp (get_or p key (F64.dec 1 0)) lo hi)]> out))
      as (q & Hq & Hlook); [intros; apply Hin; by right|].
    exists q. split; [exact Hq|]. intros k. rewrite Hlook.
    destruct (decide (k ∈ rest)) as [Hr|Hr].
    + rewrite decide_True by (by right). done.
    + destruct (decide (k = key)) as [->|Hne].
      * rewrite decide_True by left. rewrite lookup_insert_eq, Hb. done.
      * rewrite decide_False by (rewrite elem_of_cons; tauto).
        by rewrite lookup_insert_ne.
Qed.

(** What [normalize_profile] computes, key by key. *)
Lemma normalize_profile_lookup (p : Profile) :
  exists q : Profile,
    normalize_profile p = Ok q /\
    q !! DELTA_KEY = Some (delta_value p) /\
    forall k, k <> DELTA_KEY -> q !! k = scale_value p k <$> SCALE_BOUNDS !! k.
Proof.
  destruct (for_each_scale p SCALE_KEYS ∅) as (out & Hout & Hlook).
  { intros k. apply scale_keys_bounded. }
  exists (<[DELTA_KEY := delta_value p]> out). split.
  - unfold normalize_profile. rewrite Hout. reflexivity.
  - split; [apply lookup_insert_eq|]. intros k Hk.
    rewrite lookup_insert_ne by done. rewrite Hlook.
    destruct (decide (k ∈ SCALE_KEYS)) as [Hin|Hin]; [done|].
    rewrite lookup_empty. symmetry.
    destruct (SCALE_BOUNDS !! k) eqn:Hb; [|done].
    exfalso. apply Hin, scale_keys_bounded. eauto.
Qed.

Lemma delta_not_bounded : SCALE_BOUNDS !! DELTA_KEY = None.
Proof.
  destruct (SCALE_BOUNDS !! DELTA_KEY) eqn:H; [|done].
  exfalso. apply delta_not_scale, scale_keys_bounded. eauto.
Qed.

(** C7: normalization is idempotent on every profile of valid binary64
    values, and each normalized value lies within the bounds of its key. *)
Theorem normalize_profile_idempotent (p : Profile) :
  valid_profile p ->
  exists q : Profile,
    normalize_profile p = Ok q /\
    normalize_profile q = Ok q /\
    (forall key, key ∈ SCALE_KEYS ->
       exists lo hi v, SCALE_BOUNDS !! key = Some (lo, hi) /\ q !! key = Some v /\
                       F64.le lo v = true /\ F64.le v hi = true) /\
    (exists v, q !! DELTA_KEY = Some v /\
               F64.le (fst DELTA_BOUNDS) v = true /\ F64.le v (snd DELTA_BOUNDS) = true).
Proof.
  intros Hp.
  assert (forall key d, F64.valid d = true -> F64.valid (get_or p key d) = true) as Hget.
  { intros key d Hd. unfold get_or. destruct (p !! key) eqn:E; [exact (Hp _ _ E)|exact Hd]. }
  assert (F64.valid (F64.dec 1 0) = true) as H1 by (vm_compute; reflexivity).
  assert (F64.valid (F64.dec 0 0) = true) as H0 by (vm_compute; reflexivity).
  destruct (normalize_profile_lookup p) as (q & Hq & Hqd & Hqs).
  destruct (normalize_profile_lookup q) as (q' & Hq' & Hqd' & Hqs').
  destruct delta_bounds_good as [Hgd _].
  destruct (round6_clamp (get_or p DELTA_KEY (F64.dec 0 0)) _ _ (Hget _ _ H0) Hgd)
    as (Hd1 & Hd2 & Hd3 & Hd4 & _).
  exists q. split; [exact Hq|]. split; [|split].
  - rewrite Hq'. f_equal. apply map_eq. intros k.
    destruct (decide (k = DELTA_KEY)) as [->|Hk].
    + rewrite Hqd', Hqd. f_equal. unfold delta_value at 1.
      rewrite (get_or_Some _ _ _ _ Hqd). unfold delta_value.
      rewrite Hd3. exact Hd4.
    + rewrite Hqs', Hqs by done.
      destruct (SCALE_BOUNDS !! k) as [[lo hi]|] eqn:Hb; [|done].
      cbn [fmap option_fmap option_map]. f_equal.
      destruct (scale_bounds_good _ _ _ Hb) as [Hg _].
      destruct (round6_clamp (get_or p k (F64.dec 1 0)) _ _ (Hget _ _ H1) Hg)
        as (_ & _ & Hs3 & Hs4 & _).
      assert (q !! k = Some (scale_value p k (lo, hi))) as Hqk
        by (rewrite Hqs by done; rewrite Hb; reflexivity).
      unfold scale_value at 1. rewrite (get_or_Some _ _ _ _ Hqk).
      unfold scale_value. cbn [fst snd]. rewrite Hs3. exact Hs4.
  - intros key Hin. apply scale_keys_bounded in Hin as Hb. destruct Hb as [[lo hi] Hb].
    assert (key <> DELTA_KEY) as Hk by (intros ->; by apply delta_not_scale).
    destruct (scale_bounds_good _ _ _ Hb) as [Hg _].
    destruct (round6_clamp (get_or p key (F64.dec 1 0)) _ _ (Hget _ _ H1) Hg)
      as (Hs1 & Hs2 & _).
    exists lo, hi, (scale_value p key (lo, hi)).
    rewrite Hqs by done. rewrite Hb.
    split; [reflexivity|]. split; [reflexivity|]. split; [exact Hs1|exact Hs2].
  - exists (delta_value p). split; [exact Hqd|]. split; [exact Hd1|exact Hd2].
Qed.

Lemma normalize_profile_idempotent_witness :
  valid_profile {[ "risk_weight_scale"%string := F64.dec 5 0 ]} /\
  exists q : Profile,
    normalize_profile {[ "risk_weight_scale"%string := F64.dec 5 0 ]} = Ok q /\
    normalize_profile q = Ok q.
Proof.
  assert (valid_profile {[ "risk_weight_scale"%string := F64.dec 5 0 ]}) as Hv.
  { apply map_Forall_singleton. vm_compute. reflexivity. }
  split; [exact Hv|].
  destruct (normalize_profile_idempotent _ Hv) as (q & Hq & Hqq & _).
  exists q. split; [exact Hq|exact Hqq].
Defined.

(** C10: normalization succeeds on every mapping and yields exactly the 18
    scale keys and the delta key; each value is the input value, or the
    default 1.0 (0.0 for the delta key) when the key is absent, clamped to
    the key's bounds and rounded to six decimals, so an absent key ends up
    holding its default. *)
Theorem normalize_profile_total (p : Profile) :
  exists q : Profile,
    normalize_profile p = Ok q /\
    dom q = list_to_set PROFILE_KEYS /\
    NoDup PROFILE_KEYS /\ length SCALE_KEYS = 18%nat /\ length PROFILE_KEYS = 19%nat /\
    (forall key, key ∈ SCALE_KEYS ->
       exists lo hi,
         SCALE_BOUNDS !! key = Some (lo, hi) /\
         q !! key = Some (F64.round6 (clamp (default (F64.dec 1 0) (p !! key)) lo hi)) /\
         (p !! key = None -> q !! key = Some (F64.dec 1 0))) /\
    q !! DELTA_KEY =
      Some (F64.round6 (clamp (default (F64.dec 0 0) (p !! DELTA_KEY))
                              (fst DELTA_BOUNDS) (snd DELTA_BOUNDS))) /\
    (p !! DELTA_KEY = None -> q !! DELTA_KEY = Some (F64.dec 0 0)).
Proof.
  destruct (normalize_profile_lookup p) as (q & Hq & Hqd & Hqs).
  exists q. split; [exact Hq|]. split; [|split; [|split; [|split; [|split; [|split]]]]].
  - apply set_eq. intros k.
    rewrite elem_of_dom, elem_of_list_to_set. unfold PROFILE_KEYS.
    rewrite elem_of_app, list_elem_of_singleton, scale_keys_bounded.
    destruct (decide (k = DELTA_KEY)) as [->|Hk].
    + rewrite Hqd. split; [by right|by eauto].
    + rewrite Hqs by done. rewrite is_Some_alt.
      destruct (SCALE_BOUNDS !! k); cbn [fmap option_fmap option_map];
        rewrite ?is_Some_alt; tauto.
  - apply (bool_decide_eq_true_1 (NoDup PROFILE_KEYS)). vm_compute. reflexivity.
  - reflexivity.
  - reflexivity.
  - intros key Hin. apply scale_keys_bounded in Hin as Hb. destruct Hb as [[lo hi] Hb].
    assert (key <> DELTA_KEY) as Hk by (intros ->; by apply delta_not_scale).
    destruct (scale_bounds_good _ _ _ Hb) as [_ Hone].
    exists lo, hi. rewrite Hqs by done. rewrite Hb.
    split; [reflexivity|]. split; [reflexivity|].
    intros Hnone. cbn [fmap option_fmap option_map]. f_equal.
    unfold scale_value, get_or. rewrite Hnone. exact Hone.
  - exact Hqd.
  - intros Hnone. rewrite Hqd. f_equal. unfold delta_value, get_or. rewrite Hnone.
    apply delta_bounds_good.
Qed.

(** ** Reasoning about monadic programs *)

Lemma bind_inv {S A B} (m : M S A) (k : A -> M S B) s r s' :
  bind m k s = (r, s') ->
  (exists a s1, m s = (Ok a, s1) /\ k a s1 = (r, s')) \/
  (exists e, m s = (Raise e, s') /\ r = Raise e).
Proof.
  unfold bind. destruct (m s) as [[a|e] s1]; intros Heq.
  - left. eauto.
  - right. injection Heq as <- <-. eauto.
Qed.

Lemma bind_Ok_inv {S A B} (m : M S A) (k : A -> M S B) s b s' :
  bind m k s = (Ok b, s') ->
  exists a s1, m s = (Ok a, s1) /\ k a s1 = (Ok b, s').
Proof.
  intros [Hok|(e & _ & [=])]%bind_inv. exact Hok.
Qed.

Lemma result_bind_Ok_inv {A B} (r : result A) (k : A -> result B) b :
  r ≫= k = Ok b -> exists a, r = Ok a /\ k a = Ok b.
Proof. destruct r as [a|e]; [eauto|discriminate]. Qed.

Lemma lift_Ok_inv {S A} (r : result A) (s s' : S) a :
  lift r s = (Ok a, s') -> r = Ok a /\ s' = s.
Proof. unfold lift. by intros [= -> ->]. Qed.

Section Closure.
Context {S : Type} (R : S -> S -> Prop).
Hypothesis R_refl : forall s, R s s.
Hypothesis R_trans : forall s1 s2 s3, R s1 s2 -> R s2 s3 -> R s1 s3.

Lemma always_ret {A} (a : A) : always R (ret a).
Proof. intros s r s' [= <- <-]. apply R_refl. Qed.

Lemma always_raise {A} e : always R (raise (A := A) e).
Proof. intros s r s' [= <- <-]. apply R_refl. Qed.

Lemma always_lift {A} (x : result A) : always R (lift x).
Proof. intros s r s' [= <- <-]. apply R_refl. Qed.

Lemma always_get : always R get.
Proof. intros s r s' [= <- <-]. apply R_refl. Qed.

Lemma always_modify f : (forall s, R s (f s)) -> always R (modify f).
Proof. intros Hf s r s' [= <- <-]. apply Hf. Qed.

Lemma always_bind {A B} (m : M S A) (k : A -> M S B) :
  always R m -> (forall a, always R (k a)) -> always R (bind m k).
Proof.
  intros Hm Hk s r s' [(a & s1 & H1 & H2)|(e & H1 & _)]%bind_inv.
  - eapply R_trans; [eapply Hm, H1|eapply Hk, H2].
  - eapply Hm, H1.
Qed.

Lemma always_for_eachM {A B} (f : B -> A -> M S B) xs acc :
  (forall b x, always R (f b x)) -> always R (for_eachM f xs acc).
Proof.
  intros Hf. revert acc. induction xs as [|x xs IH]; intros acc.
  - apply always_ret.
  - cbn [for_eachM]. apply always_bind; [apply Hf|]. intros b. apply IH.
Qed.

Lemma always_on_return {A} (m : M S A) : always R m -> on_return R m.
Proof. intros Hm s a s' Hrun. eapply Hm, Hrun. Qed.

Lemma on_return_bind {A B} (m : M S A) (k : A -> M S B) :
  on_return R m -> (forall a, on_return R (k a)) -> on_return R (bind m k).
Proof.
  intros Hm Hk s b s' (a & s1 & H1 & H2)%bind_Ok_inv.
  eapply R_trans; [eapply Hm, H1|eapply Hk, H2].
Qed.

Lemma on_return_for_eachM {A B} (f : B -> A -> M S B) xs acc :
  (forall b x, on_return R (f b x)) -> on_return R (for_eachM f xs acc).
Proof.
  intros Hf. revert acc. induction xs as [|x xs IH]; intros acc.
  - apply always_on_return, always_ret.
  - cbn [for_eachM]. apply on_return_bind; [apply Hf|]. intros b. apply IH.
Qed.
End Closure.

(** ** Initialization and the exit paths of [main] *)

Section ExitPaths.
Context `{Environment}.

Lemma init_inv (args : Args) (w : World) r w0 :
  init args w = (r, w0) ->
  match r with
  | Ok s =>
      snapshot w = Ok (old_profile s) /\
      exists raw, active_profile_file w0 = Some raw /\
                  pre_session_active w = Ok raw
  | Raise _ =>
      active_profile_file w0 = active_profile_file w \/
      (active_profile_file w = None /\
       exists seed, pre_session_active w = Ok seed /\
                    active_profile_file w0 = Some seed)
  end.
Proof.
  unfold init, require, load_profile, snapshot, pre_session_active.
  unfold bind, get, modify, ret, raise, lift.
  intros Hrun.
  repeat run_step Hrun.
  all: cbv beta iota zeta in Hrun; injection Hrun as <- <-.
  all: cbn [active_profile_file set_active add_session_file make_session_dir
            old_profile read_path] in *.
  all: repeat match goal with
         | H : Some _ = Some _ |- _ => injection H as H; try subst
         | H : Some _ = None |- _ => discriminate H
         | H : None = Some _ |- _ => discriminate H
         end.
  all: cbn [mbind result_mbind result_bind].
  all: repeat match goal with
         | H1 : ?x = Some ?a, H2 : ?x = Some ?b |- _ =>
             assert (b = a) by congruence; subst b; clear H2
         end.
  all: first
    [ left; first [reflexivity | assumption]
    | right; split; [first [reflexivity | assumption]|];
      eexists; split; first [eassumption | reflexivity]
    | split; [assumption|]; solve [eauto] ].
Qed.

Lemma finalize_inv (args : Args) (s : Session) (st : SearchState) w r w' :
  finalize args s st w = (r, w') ->
  match r with
  | Ok code =>
      code = 0 /\
      champion_profile_file w' = Some (global_best_profile st) /\
      SessionChampion (global_best_profile st) ∈ session_files w' /\
      exists summary,
        SessionSummary summary ∈ session_files w' /\
        summary_champion_profile summary = global_best_profile st /\
        global_best_result st = Some (summary_best summary)
  | Raise _ => w' = w
  end.
Proof.
  unfold finalize. unfold bind, get, modify, ret, raise, lift.
  intros Hrun.
  repeat run_step Hrun.
  all: cbv beta iota zeta in Hrun; injection Hrun as <- <-.
  all: try reflexivity.
  all: cbn [champion_profile_file session_files set_active set_champion
            add_session_file set_latest_session].
  all: (split; [reflexivity|]; split; [reflexivity|]; split;
        [rewrite !elem_of_app, !list_elem_of_singleton; auto|]).
  all: eexists; split;
    [rewrite !elem_of_app, !list_elem_of_singleton; right; reflexivity|].
  all: split; reflexivity.
Qed.

(** C1, as the code has it: exit code 0 comes only with the champion
    committed and the summary written; every failure exits non-zero; a
    failure inside the [try] block (the loop and finalization) leaves the
    active profile holding exactly the normalized pre-session snapshot;
    a failure during initialization leaves the active profile as it was,
    or as it was seeded when missing. *)
Theorem main_exit_paths (args : Args) (w : World) :
  match main args w with
  | (Ok code, w') =>
      code = 0 /\ exit_code (Ok code) = 0 /\
      exists champion summary,
        champion_profile_file w' = Some champion /\
        SessionChampion champion ∈ session_files w' /\
        SessionSummary summary ∈ session_files w' /\
        summary_champion_profile summary = champion
  | (Raise e, w') =>
      exit_code (Raise e) <> 0 /\
      match init args w with
      | (Ok s, _) =>
          snapshot w = Ok (old_profile s) /\
          active_profile_file w' = Some (old_profile s)
      | (Raise _, _) =>
          active_profile_file w' = active_profile_file w \/
          (active_profile_file w = None /\
           exists seed, pre_session_active w = Ok seed /\
                        active_profile_file w' = Some seed)
      end
  end.
Proof.
  unfold main, bind.
  destruct (init args w) as [[s|e] w0] eqn:Hinit.
  - apply init_inv in Hinit as [Hsnap _].
    unfold try_finally, session_body.
    destruct (bind _ _ w0) as [[code|e] w1] eqn:Hbody; cbn [restore_unless_success].
    + unfold ret. apply bind_Ok_inv in Hbody as (st & w2 & _ & Hfin).
      apply finalize_inv in Hfin as (-> & Hc & Hsc & summary & Hs & Hsp & _).
      split; [reflexivity|]. split; [reflexivity|].
      exists (global_best_profile st), summary. auto.
    + unfold modify. split; [discriminate|]. split; [exact Hsnap|reflexivity].
  - apply init_inv in Hinit. split; [discriminate|exact Hinit].
Qed.
End ExitPaths.

(** C1 as stated fails: with a [--start-profile] file that does not
    exist, [main] fails after the snapshot is taken and leaves the active
    profile as it found it, out of bounds, not the normalized snapshot. *)
Lemma main_failure_not_snapshot :
  fst Scenario.lost_run = Raise FileNotFoundError /\
  snapshot Scenario.lost_world = Ok Scenario.lost_snapshot /\
  BackupActiveProfile Scenario.lost_snapshot ∈ session_files (snd Scenario.lost_run) /\
  active_profile_file (snd Scenario.lost_run) = Some Scenario.unnormalized /\
  active_profile_file (snd Scenario.lost_run) <> Some Scenario.lost_snapshot.
Proof. apply (bool_decide_unpack _). vm_compute. exact I. Qed.

(** ** The failure sentinel *)

Lemma nothing_below_minus_infinity x : SFltb x (S754_infinity true) = false.
Proof. destruct x as [?|[]| |[] ? ?]; reflexivity. Qed.

(** [float(n)] of a non-negative integer is never below zero. *)
Lemma of_int_nonneg n f :
  0 <= n -> F64.of_int n = Ok f -> SFltb f (S754_zero false) = false.
Proof.
  intros Hn. unfold F64.of_int, binary_normalize.
  destruct n as [|p|p]; [| |lia].
  - intros [= <-]. reflexivity.
  - unfold binary_round, binary_round_aux.
    destruct (shl_align _ _ _) as [mz ez].
    destruct (shr_fexp _ _ (Z.pos mz) ez loc_Exact) as [mrs' e'].
    destruct (shr_fexp _ _ _ e' loc_Exact) as [mrs'' e''].
    destruct (shr_m mrs'') as [|q|q];
      [|destruct (e'' <=? _); [|discriminate]|]; intros [= <-]; reflexivity.
Qed.

Lemma sentinel_tuple_not_greater (srow row : CandidateResult) metric ts t :
  is_sentinel srow ->
  metric ∈ three_metrics ->
  0 <= max_score row ->
  F64.lt (avg_frames row) (F64.dec 0 0) = false ->
  metric_tuple srow metric = Ok ts ->
  metric_tuple row metric = Ok t ->
  tuple_gt ts t = false.
Proof.
  intros (Ho & Ha & Hm & Hf) Hmetric Hmax Hframes.
  assert (F64.dec 0 0 = S754_zero false) as Hz by (vm_compute; reflexivity).
  rewrite Hz in Hframes, Hf.
  unfold metric_tuple. rewrite Ho, Ha, Hm, Hf.
  assert (F64.of_int 0 = Ok (S754_zero false)) as -> by (vm_compute; reflexivity).
  destruct (F64.of_int (max_score row)) as [m|] eqn:Hof.
  2: { repeat case_decide; discriminate. }
  pose proof (of_int_nonneg _ _ Hmax Hof) as Hmlt.
  cbn [mbind result_mbind result_bind].
  pose proof (nothing_below_minus_infinity (objective_value row)) as Hobj.
  pose proof (nothing_below_minus_infinity (avg_score row)) as Havg.
  unfold F64.lt in Hframes.
  assert (forall op x y rest rest',
    (op x y = false) -> items_cmp op rest rest' = false ->
    items_cmp op (x :: rest) (y :: rest') = false) as Hstep.
  { intros op x y rest rest' H1 H2. cbn [items_cmp]. destruct (F64.eq x y); done. }
  repeat case_decide; intros [= <-] [= <-]; unfold tuple_gt, tuple_items;
    repeat (apply Hstep; [unfold F64.gt; assumption|]); reflexivity.
Qed.

(** ** The evaluation loop *)

Section Evaluation.
Context `{Environment}.

(** Every outcome of the body of the evaluation loop. *)
Lemma evaluate_candidate_spec (args : Args) iter iter_dir idx spec w :
  evaluate_candidate args iter iter_dir idx spec w =
  (match benchmark (world_at_benchmark iter idx (fst spec) w) with
   | BenchFailed => Ok (row_for iter iter_dir idx spec FAILURE_SENTINEL)
   | BenchNoSummary => Raise FileNotFoundError
   | BenchSummary bot_rankings =>
       match find (fun item => bool_decide (bot_id item = bot args)) bot_rankings with
       | None => Raise RuntimeError
       | Some ranking =>
           Ok (row_for iter iter_dir idx spec
                 (ranking_objective_value ranking, ranking_avg_score ranking,
                  ranking_max_score ranking, ranking_avg_frames ranking))
       end
   end,
   world_after_benchmark iter idx (fst spec) w).
Proof.
  destruct spec as [p strat].
  unfold evaluate_candidate, except_called_process_error, benchmark_profile,
    world_after_benchmark, world_at_benchmark.
  unfold bind, get, modify, ret, raise. cbn [fst snd].
  destruct (benchmark _) as [|rk|]; try reflexivity.
  destruct (find _ rk); reflexivity.
Qed.

Lemma evaluate_candidates_all_failed (args : Args) iter iter_dir specs :
  (forall w, benchmark w = BenchFailed) ->
  forall idx results w,
  exists rows w',
    evaluate_candidates args iter iter_dir idx specs results w
      = (Ok (results ++ rows), w') /\
    length rows = length specs /\ Forall is_sentinel rows.
Proof.
  intros Hfail. induction specs as [|spec rest IH]; intros idx results w.
  - exists [], w. rewrite app_nil_r. repeat split. constructor.
  - cbn [evaluate_candidates]. unfold bind at 1.
    rewrite evaluate_candidate_spec, Hfail.
    destruct (IH (idx + 1) (results ++ [row_for iter iter_dir idx spec FAILURE_SENTINEL])
                 (world_after_benchmark iter idx (fst spec) w))
      as (rows & w' & Hrun & Hlen & Hall).
    exists (row_for iter iter_dir idx spec FAILURE_SENTINEL :: rows), w'.
    rewrite Hrun, <- app_assoc. split; [reflexivity|].
    split; [cbn [length]; congruence|].
    constructor; [|exact Hall]. repeat split.
Qed.

(** C2, as the code has it: a candidate whose benchmark run exits
    non-zero is recorded with the failure sentinel and the evaluation loop
    goes on (a benchmark that always fails yields a full list of sentinel
    rows); under each of the three metrics the sentinel's tuple is not
    greater than the tuple of any row whose maximum score is non-negative
    and whose average frames are not negative. *)
Theorem failure_sentinel :
  (forall (args : Args) iter iter_dir idx spec w,
     benchmark (world_at_benchmark iter idx (fst spec) w) = BenchFailed ->
     exists row,
       evaluate_candidate args iter iter_dir idx spec w
         = (Ok row, world_after_benchmark iter idx (fst spec) w) /\
       is_sentinel row /\ profile row = fst spec /\ strategy row = snd spec) /\
  (forall (args : Args) iter iter_dir idx specs results w,
     (forall w, benchmark w = BenchFailed) ->
     exists rows w',
       evaluate_candidates args iter iter_dir idx specs results w
         = (Ok (results ++ rows), w') /\
       length rows = length specs /\ Forall is_sentinel rows) /\
  (forall (srow row : CandidateResult) metric ts t,
     is_sentinel srow ->
     metric ∈ three_metrics ->
     0 <= max_score row ->
     F64.lt (avg_frames row) (F64.dec 0 0) = false ->
     metric_tuple srow metric = Ok ts ->
     metric_tuple row metric = Ok t ->
     tuple_gt ts t = false).
Proof.
  split; [|split].
  - intros args iter iter_dir idx spec w Hfail.
    exists (row_for iter iter_dir idx spec FAILURE_SENTINEL).
    rewrite evaluate_candidate_spec, Hfail. repeat split.
  - intros args iter iter_dir idx specs results w Hfail.
    by apply evaluate_candidates_all_failed.
  - apply sentinel_tuple_not_greater.
Qed.
End Evaluation.

Lemma failure_sentinel_witness :
  Scenario.always_fails Scenario.stay_world = BenchFailed /\
  is_sentinel Scenario.failed_row /\
  0 <= max_score Scenario.scored_row /\
  exists ts t,
    metric_tuple Scenario.failed_row "insane" = Ok ts /\
    metric_tuple Scenario.scored_row "insane" = Ok t /\
    tuple_gt ts t = false.
Proof.
  split; [reflexivity|]. split; [by apply (bool_decide_unpack _)|].
  split; [by apply (bool_decide_unpack _)|].
  destruct (@failure_sentinel (Scenario.lowest_draws Scenario.always_fails))
    as (_ & _ & Hrank).
  destruct (metric_tuple Scenario.failed_row "insane") as [ts|] eqn:Hts;
    [|vm_compute in Hts; discriminate].
  destruct (metric_tuple Scenario.scored_row "insane") as [t|] eqn:Ht;
    [|vm_compute in Ht; discriminate].
  exists ts, t. split; [reflexivity|]. split; [reflexivity|].
  apply (Hrank Scenario.failed_row Scenario.scored_row "insane"%string ts t).
  - by apply (bool_decide_unpack _).
  - by apply (bool_decide_unpack _).
  - by apply (bool_decide_unpack _).
  - vm_compute. reflexivity.
  - exact Hts.
  - exact Ht.
Defined.

(** C2 as stated fails: the sentinel outranks a successful result whose
    maximum score is negative (metric "insane"), and one that reports
    negative average frames with scores of minus infinity (metric
    "objective"). *)
Lemma sentinel_outranks_negative :
  is_sentinel Scenario.failed_row /\
  better_than Scenario.failed_row Scenario.negative_max_row "insane" = Ok true /\
  better_than Scenario.failed_row Scenario.negative_frames_row "objective" = Ok true.
Proof. apply (bool_decide_unpack _). vm_compute. exact I. Qed.

(** ** Candidate generation keeps signatures distinct *)

Section Dedup.
Context `{Environment}.

Lemma keeps_distinct_refl g : keeps_distinct g g.
Proof. by intros ?. Qed.

Lemma keeps_distinct_trans g1 g2 g3 :
  keeps_distinct g1 g2 -> keeps_distinct g2 g3 -> keeps_distinct g1 g3.
Proof. unfold keeps_distinct. auto. Qed.

Lemma with_rng_keeps {A} (m : M rng_t A) : always keeps_distinct (with_rng m).
Proof.
  intros g r g'. unfold with_rng. destruct (m (gen_rng g)) as [r0 rng'].
  intros [= <- <-]. by intros ?.
Qed.

(** What [push_candidate] does, case by case. *)
Lemma push_candidate_spec profile strategy g :
  push_candidate profile strategy g =
  match normalize_profile profile with
  | Raise e => (Raise e, g)
  | Ok normalized =>
      match profile_signature normalized with
      | Raise e => (Raise e, g)
      | Ok sig =>
          if decide (sig ∈ seen g) then (Ok false, g)
          else (Ok true,
                {| gen_rng := gen_rng g;
                   candidate_specs := candidate_specs g ++ [(normalized, strategy)];
                   seen := {[sig]} ∪ seen g |})
      end
  end.
Proof.
  unfold push_candidate, bind, lift, get, put, ret.
  destruct (normalize_profile profile) as [normalized|]; [|reflexivity].
  destruct (profile_signature normalized) as [sig|]; [|reflexivity].
  destruct (decide (sig ∈ seen g)); reflexivity.
Qed.

Lemma push_candidate_keeps profile strategy :
  always keeps_distinct (push_candidate profile strategy).
Proof.
  intros g r g'. rewrite push_candidate_spec.
  destruct (normalize_profile profile) as [normalized|]; [|by intros [= <- <-] ?].
  destruct (profile_signature normalized) as [sig|] eqn:Hsig; [|by intros [= <- <-] ?].
  destruct (decide (sig ∈ seen g)) as [Hin|Hin]; intros [= <- <-]; [by intros ?|].
  intros (Hnd & Hall & Hseen). unfold distinct_signatures. cbn [candidate_specs seen].
  rewrite map_app. cbn [map]. unfold spec_signature at 2 4 5. cbn [fst].
  rewrite Hsig. split; [|split].
  - apply NoDup_app. split; [exact Hnd|]. split; [|apply NoDup_singleton].
    intros x Hx ->%list_elem_of_singleton. by apply Hin, Hseen.
  - apply Forall_app. split; [exact Hall|]. constructor; [|constructor].
    exists sig. exact Hsig.
  - intros sig'. rewrite elem_of_union, elem_of_singleton, elem_of_app,
      list_elem_of_singleton, Hseen.
    split.
    + intros [->|?]; [right; reflexivity|left; assumption].
    + intros [?|[= ->]]; [right; assumption|left; reflexivity].
Qed.

Lemma has_room_keeps args : always keeps_distinct (has_room args).
Proof.
  unfold has_room.
  apply (always_bind keeps_distinct keeps_distinct_trans);
    [apply (always_get keeps_distinct keeps_distinct_refl)|].
  intros ?. apply (always_ret keeps_distinct keeps_distinct_refl).
Qed.

Lemma when_room_keeps args cond body :
  always keeps_distinct body -> always keeps_distinct (when_room args cond body).
Proof.
  intros Hbody. unfold when_room.
  destruct cond; [|apply (always_ret keeps_distinct keeps_distinct_refl)].
  apply (always_bind keeps_distinct keeps_distinct_trans); [apply has_room_keeps|].
  intros []; [exact Hbody|apply (always_ret keeps_distinct keeps_distinct_refl)].
Qed.

(** One syntax-directed step of the proof that a generation program
    keeps the signatures distinct. *)
Ltac keeps_step :=
  cbv beta zeta;
  lazymatch goal with
  | |- always _ (bind _ _) =>
      apply (always_bind keeps_distinct keeps_distinct_trans); [|intros ?]
  | |- always _ (ret _) => apply (always_ret keeps_distinct keeps_distinct_refl)
  | |- always _ (raise _) => apply (always_raise keeps_distinct keeps_distinct_refl)
  | |- always _ (lift _) => apply (always_lift keeps_distinct keeps_distinct_refl)
  | |- always _ get => apply (always_get keeps_distinct keeps_distinct_refl)
  | |- always _ (with_rng _) => apply with_rng_keeps
  | |- always _ (push_candidate _ _) => apply push_candidate_keeps
  | |- always _ (has_room _) => apply has_room_keeps
  | |- always _ (when_room _ _ _) => apply when_room_keeps
  | |- always _ (for_eachM _ _ _) =>
      apply (always_for_eachM keeps_distinct keeps_distinct_refl keeps_distinct_trans);
      intros ? ?
  | |- always _ (match ?x with _ => _ end) => destruct x
  end.

Lemma mutate_attempt_keeps args incumbent stagnation search_step :
  always keeps_distinct (mutate_attempt args incumbent stagnation search_step).
Proof. unfold mutate_attempt. repeat keeps_step. Qed.

Lemma mutate_loop_keeps budget args incumbent stagnation search_step :
  always keeps_distinct (mutate_loop budget args incumbent stagnation search_step).
Proof.
  induction budget as [|budget IH]; cbn [mutate_loop]; [repeat keeps_step|].
  apply (always_bind keeps_distinct keeps_distinct_trans); [apply has_room_keeps|].
  intros []; [|repeat keeps_step].
  apply (always_bind keeps_distinct keeps_distinct_trans);
    [apply mutate_attempt_keeps|intros ?; exact IH].
Qed.

Lemma generate_candidates_keeps args anchors st search_step :
  always keeps_distinct (generate_candidates args anchors st search_step).
Proof.
  unfold generate_candidates.
  repeat first [apply mutate_loop_keeps | keeps_step].
Qed.

(** C6: [push_candidate] keeps the accepted candidates' signatures
    pairwise distinct, and a candidate whose normalized signature is
    already in [seen] is rejected, the candidate list left as it was; so
    the candidates that the generation phase of an iteration hands over
    for evaluation have pairwise distinct signatures. *)
Theorem accepted_signatures_distinct :
  (forall profile strategy g r g',
     distinct_signatures g ->
     push_candidate profile strategy g = (r, g') ->
     distinct_signatures g' /\
     forall normalized sig,
       normalize_profile profile = Ok normalized ->
       profile_signature normalized = Ok sig ->
       sig ∈ seen g -> r = Ok false /\ g' = g) /\
  (forall args anchors st search_step specs rng',
     run_generation args anchors st search_step = Ok (specs, rng') ->
     NoDup (map spec_signature specs) /\
     Forall (fun spec => exists sig, spec_signature spec = Ok sig) specs).
Proof.
  split.
  - intros profile strategy g r g' Hg Hpush. split.
    + exact (push_candidate_keeps _ _ _ _ _ Hpush Hg).
    + intros normalized sig Hn Hs Hin. rewrite push_candidate_spec, Hn, Hs in Hpush.
      rewrite decide_True in Hpush by exact Hin.
      injection Hpush as Hr Hg'. split; [symmetry; exact Hr|symmetry; exact Hg'].
  - intros args anchors st search_step specs rng'. unfold run_generation.
    destruct (generate_candidates _ _ _ _ _) as [[[]|e] g] eqn:Hgen; [|discriminate].
    intros [= <- <-].
    apply generate_candidates_keeps in Hgen.
    destruct Hgen as (Hnd & Hall & _); [|by split].
    split; [constructor|]. split; [constructor|].
    intros sig. cbn [seen candidate_specs map]. rewrite elem_of_empty, elem_of_nil. tauto.
Qed.
End Dedup.

Lemma accepted_signatures_distinct_witness :
  Scenario.stay_generation = Ok (Scenario.stay_specs, tt) /\
  length Scenario.stay_specs = 2%nat /\
  NoDup (map spec_signature Scenario.stay_specs).
Proof.
  assert (Scenario.stay_generation = Ok (Scenario.stay_specs, tt)) as Hgen
    by (apply (bool_decide_unpack _); vm_compute; exact I).
  split; [exact Hgen|]. split; [apply (bool_decide_unpack _); vm_compute; exact I|].
  destruct (@accepted_signatures_distinct Scenario.stay_env) as [_ Hgenerated].
  exact (proj1 (Hgenerated _ _ _ _ _ _ Hgen)).
Defined.

(** ** Selection and adaptation *)

Lemma returns_eq {S A} (run : result A * S) dflt :
  returns run = true -> run = (Ok (returned run dflt), snd run).
Proof. destruct run as [[a|e] s]; [reflexivity|discriminate]. Qed.

(** What [profile_delta] computes, key by key. *)
Lemma profile_delta_lookup (newer older mom : Profile) :
  profile_delta newer older = Ok mom ->
  forall key,
    if decide (key ∈ PROFILE_KEYS) then
      exists x y, newer !! key = Some x /\ older !! key = Some y /\
                  mom !! key = Some (F64.round6 (F64.sub x y))
    else mom !! key = None.
Proof.
  unfold profile_delta.
  assert (forall keys (out : Profile),
    for_each
      (fun (out : Profile) key =>
         x ← dict_get newer key; y ← dict_get older key;
         Ok (<[key := F64.round6 (F64.sub x y)]> out)) keys out = Ok mom ->
    forall key,
      if decide (key ∈ keys) then
        exists x y, newer !! key = Some x /\ older !! key = Some y /\
                    mom !! key = Some (F64.round6 (F64.sub x y))
      else mom !! key = out !! key) as Hgen.
  { induction keys as [|k rest IH]; intros out Hrun key.
    - injection Hrun as ->. rewrite decide_False by apply not_elem_of_nil. reflexivity.
    - cbn [for_each] in Hrun.
      apply result_bind_Ok_inv in Hrun as (out' & Hstep & Hrest).
      apply result_bind_Ok_inv in Hstep as (x & Hx & Hstep).
      apply result_bind_Ok_inv in Hstep as (y & Hy & [= <-]).
      unfold dict_get in Hx, Hy.
      destruct (newer !! k) as [x'|] eqn:Ex; [|discriminate]. injection Hx as ->.
      destruct (older !! k) as [y'|] eqn:Ey; [|discriminate]. injection Hy as ->.
      specialize (IH _ Hrest key).
      destruct (decide (key ∈ rest)) as [Hin|Hin].
      + rewrite decide_True by (by right). exact IH.
      + destruct (decide (key = k)) as [->|Hne].
        * rewrite decide_True by left. exists x, y.
          rewrite IH, lookup_insert_eq. auto.
        * rewrite decide_False by (rewrite elem_of_cons; tauto).
          rewrite IH. by rewrite lookup_insert_ne. }
  intros Hrun key. specialize (Hgen _ _ Hrun key).
  destruct (decide (key ∈ PROFILE_KEYS)); [exact Hgen|]. rewrite Hgen. apply lookup_empty.
Qed.

Section Selection.
Context `{Environment}.

Lemma adapt_inv (args : Args) (st : SearchState) results winner improved st' :
  adapt args st results = Ok (winner, improved, st') ->
  head results = Some winner /\
  (exists incumbent_result,
     find_incumbent results = Ok incumbent_result /\
     better_than winner incumbent_result (selection_metric args) = Ok improved) /\
  (if improved then
     incumbent_profile st' = profile winner /\
     (exists mom, profile_delta (profile winner) (incumbent_profile st) = Ok mom /\
                  momentum st' = Some mom) /\
     last_gain_anchor st' = Some (incumbent_profile st) /\
     stagnation_count st' = 0
   else
     incumbent_profile st' = incumbent_profile st /\
     momentum st' = momentum st /\
     last_gain_anchor st' = last_gain_anchor st /\
     stagnation_count st' = stagnation_count st + 1) /\
  best_updated args winner st st' /\
  history st' = history st /\ rng st' = rng st.
Proof.
  unfold adapt, best_updated. intros Hrun.
  apply result_bind_Ok_inv in Hrun as (w0 & Hw & Hrun).
  apply result_bind_Ok_inv in Hrun as (inc & Hinc & Hrun).
  apply result_bind_Ok_inv in Hrun as (imp & Himp & Hrun).
  apply result_bind_Ok_inv in Hrun as (st1 & Hst1 & Hrun).
  apply result_bind_Ok_inv in Hrun as (replace & Hrep & Hrun).
  injection Hrun as -> -> <-.
  destruct results as [|r rest]; [discriminate|]. injection Hw as ->.
  split; [reflexivity|]. split; [eauto|].
  assert (global_best_result st1 = global_best_result st /\
          global_best_profile st1 = global_best_profile st /\
          history st1 = history st /\ rng st1 = rng st) as (Hg1 & Hg2 & Hh1 & Hr1).
  { destruct improved.
    - apply result_bind_Ok_inv in Hst1 as (mom & _ & [= <-]). done.
    - injection Hst1 as <-. done. }
  split; [|split].
  - destruct improved.
    + apply result_bind_Ok_inv in Hst1 as (mom & Hmom & [= <-]).
      destruct replace; cbn; eauto 8.
    + injection Hst1 as <-. destruct replace; cbn; auto.
  - rewrite Hg1 in Hrep. destruct (global_best_result st) as [best|].
    + exists replace. split; [exact Hrep|]. destruct replace; cbn; auto.
    + injection Hrep as <-. cbn. auto.
  - destruct replace; cbn; auto.
Qed.

(** The phases of one iteration that returned normally. *)
Lemma iteration_body_inv (args : Args) anchors dir (st : SearchState) iter w st' w' :
  iteration_body args anchors dir st iter w = (Ok st', w') ->
  exists base_step search_step specs rng' rows w1 ranked winner improved st2,
    step_sizes args st iter = Ok (base_step, search_step) /\
    run_generation args anchors st search_step = Ok (specs, rng') /\
    evaluate_candidates args iter (iter_dir_of dir iter) 0 specs [] w = (Ok rows, w1) /\
    sort_results (selection_metric args) rows = Ok ranked /\
    adapt args (with_rng_state st rng') ranked = Ok (winner, improved, st2) /\
    incumbent_profile st' = incumbent_profile st2 /\
    global_best_profile st' = global_best_profile st2 /\
    global_best_result st' = global_best_result st2 /\
    momentum st' = momentum st2 /\
    last_gain_anchor st' = last_gain_anchor st2 /\
    stagnation_count st' = stagnation_count st2 /\
    rng st' = rng st2 /\
    iteration_ran args iter st st' w1 w' ranked winner improved.
Proof.
  unfold iteration_body. intros Hrun.
  apply bind_Ok_inv in Hrun as ([base_step search_step] & s1 & [Hsteps ->]%lift_Ok_inv & Hrun).
  apply bind_Ok_inv in Hrun as ([specs rng'] & s2 & [Hgen ->]%lift_Ok_inv & Hrun).
  apply bind_Ok_inv in Hrun as (rows & w1 & Heval & Hrun).
  apply bind_Ok_inv in Hrun as (ranked & s3 & [Hsort ->]%lift_Ok_inv & Hrun).
  apply bind_Ok_inv in Hrun as ([] & s4 & [= <-] & Hrun).
  apply bind_Ok_inv in Hrun as ([[winner improved] st2] & s5 & [Hadapt ->]%lift_Ok_inv & Hrun).
  apply bind_Ok_inv in Hrun as ([] & s6 & [= <-] & Hrun).
  injection Hrun as <- <-.
  exists base_step, search_step, specs, rng', rows, w1, ranked, winner, improved, st2.
  repeat (split; [first [assumption | reflexivity]|]).
  destruct (adapt_inv _ _ _ _ _ _ Hadapt) as (Hhead & Hinc & _ & _ & Hhist & _).
  split; [exact Hhead|]. split; [exact Hinc|]. split; [reflexivity|].
  eexists. split; [cbn [with_history history]; rewrite Hhist; reflexivity|].
  repeat split.
Qed.

(** C3: in an iteration whose top-ranked result is not strictly greater
    than the incumbent carry-over's under the configured metric, the
    incumbent profile, the momentum and the last-gain anchor are left as
    they were and the stagnation counter goes up by exactly one. *)
Theorem no_improvement_frame (args : Args) anchors dir (st : SearchState)
    iter w st' w' :
  iteration_body args anchors dir st iter w = (Ok st', w') ->
  exists ranked winner improved w1,
    iteration_ran args iter st st' w1 w' ranked winner improved /\
    (improved = false ->
     incumbent_profile st' = incumbent_profile st /\
     momentum st' = momentum st /\
     last_gain_anchor st' = last_gain_anchor st /\
     stagnation_count st' = stagnation_count st + 1).
Proof.
  intros Hrun.
  destruct (iteration_body_inv _ _ _ _ _ _ _ _ Hrun)
    as (base_step & search_step & specs & rng' & rows & w1 & ranked & winner
        & improved & st2 & _ & _ & _ & _ & Hadapt & Hi & _ & _ & Hm & Hl & Hs & _ & Hran).
  exists ranked, winner, improved, w1. split; [exact Hran|].
  intros ->. destruct (adapt_inv _ _ _ _ _ _ Hadapt) as (_ & _ & Hframe & _).
  cbn in Hframe. destruct Hframe as (Hi2 & Hm2 & Hl2 & Hs2).
  rewrite Hi, Hm, Hl, Hs. auto.
Qed.

(** C4, as the code has it: in an iteration whose winner strictly beats
    the incumbent carry-over's result, the last-gain anchor becomes the
    previous incumbent, the momentum holds for each scale key and the
    delta key the difference (new incumbent minus previous incumbent)
    rounded to six decimals, the stagnation counter is 0 and the incumbent
    is the winner's profile. *)
Theorem improvement_update (args : Args) anchors dir (st : SearchState)
    iter w st' w' :
  iteration_body args anchors dir st iter w = (Ok st', w') ->
  exists ranked winner improved w1,
    iteration_ran args iter st st' w1 w' ranked winner improved /\
    (improved = true ->
     last_gain_anchor st' = Some (incumbent_profile st) /\
     (exists mom,
        momentum st' = Some mom /\
        profile_delta (incumbent_profile st') (incumbent_profile st) = Ok mom /\
        dom mom = list_to_set PROFILE_KEYS /\
        forall key, key ∈ PROFILE_KEYS ->
          exists x y,
            incumbent_profile st' !! key = Some x /\
            incumbent_profile st !! key = Some y /\
            mom !! key = Some (F64.round6 (F64.sub x y))) /\
     stagnation_count st' = 0 /\
     incumbent_profile st' = profile winner).
Proof.
  intros Hrun.
  destruct (iteration_body_inv _ _ _ _ _ _ _ _ Hrun)
    as (base_step & search_step & specs & rng' & rows & w1 & ranked & winner
        & improved & st2 & _ & _ & _ & _ & Hadapt & Hi & _ & _ & Hm & Hl & Hs & _ & Hran).
  exists ranked, winner, improved, w1. split; [exact Hran|].
  intros ->. destruct (adapt_inv _ _ _ _ _ _ Hadapt) as (_ & _ & Hupd & _).
  cbn in Hupd. destruct Hupd as (Hi2 & (mom & Hdelta & Hm2) & Hl2 & Hs2).
  rewrite Hi, Hm, Hl, Hs, Hi2. split; [exact Hl2|]. split; [|auto].
  exists mom. split; [exact Hm2|]. split; [exact Hdelta|].
  pose proof (profile_delta_lookup _ _ _ Hdelta) as Hlook. split.
  - apply set_eq. intros key. rewrite elem_of_dom, elem_of_list_to_set.
    specialize (Hlook key). destruct (decide (key ∈ PROFILE_KEYS)) as [Hin|Hin].
    + destruct Hlook as (x & y & _ & _ & ->). split; [done|by eauto].
    + rewrite Hlook. split; [by intros [? [=]]|done].
  - intros key Hin. specialize (Hlook key). rewrite decide_True in Hlook by exact Hin.
    exact Hlook.
Qed.
End Selection.

Lemma no_improvement_frame_witness :
  Scenario.stay_iteration = (Ok Scenario.stay_after, snd Scenario.stay_iteration) /\
  incumbent_profile Scenario.stay_after = incumbent_profile Scenario.stay_state /\
  momentum Scenario.stay_after = momentum Scenario.stay_state /\
  last_gain_anchor Scenario.stay_after = last_gain_anchor Scenario.stay_state /\
  stagnation_count Scenario.stay_after = stagnation_count Scenario.stay_state + 1.
Proof.
  assert (returns Scenario.stay_iteration = true) as Hret by (vm_compute; reflexivity).
  pose proof (returns_eq _ Scenario.stay_state Hret) as Hrun.
  split; [exact Hrun|].
  destruct (@no_improvement_frame Scenario.stay_env _ _ _ _ _ _ _ _ Hrun)
    as (ranked & winner & improved & w1 & Hran & Hframe).
  apply Hframe.
  destruct Hran as (_ & _ & _ & entry & Hhist & _ & Himp & _).
  apply (f_equal (map history_improved)) in Hhist.
  rewrite map_app in Hhist. cbn [map] in Hhist. rewrite Himp in Hhist.
  assert (map history_improved (history Scenario.stay_after) = [false]) as Hfalse
    by (apply (bool_decide_unpack _); vm_compute; exact I).
  fold Scenario.stay_after in Hhist. rewrite Hfalse in Hhist.
  cbn in Hhist. congruence.
Defined.

Lemma improvement_update_witness :
  Scenario.move_iteration = (Ok Scenario.move_after, snd Scenario.move_iteration) /\
  last_gain_anchor Scenario.move_after
    = Some (incumbent_profile (initial_state Scenario.move_session)) /\
  stagnation_count Scenario.move_after = 0 /\
  exists mom,
    momentum Scenario.move_after = Some mom /\
    profile_delta (incumbent_profile Scenario.move_after)
                  (incumbent_profile (initial_state Scenario.move_session)) = Ok mom.
Proof.
  assert (returns Scenario.move_iteration = true) as Hret by (vm_compute; reflexivity).
  pose proof (returns_eq _ (initial_state Scenario.move_session) Hret) as Hrun.
  split; [exact Hrun|].
  destruct (@improvement_update Scenario.move_env _ _ _ _ _ _ _ _ Hrun)
    as (ranked & winner & improved & w1 & Hran & Hupd).
  assert (improved = true) as ->.
  { destruct Hran as (_ & _ & _ & entry & Hhist & _ & Himp & _).
    apply (f_equal (map history_improved)) in Hhist.
    rewrite map_app in Hhist. cbn [map] in Hhist. rewrite Himp in Hhist.
    assert (map history_improved (history Scenario.move_after) = [true]) as Htrue
      by (apply (bool_decide_unpack _); vm_compute; exact I).
    assert (history (initial_state Scenario.move_session) = []) as Hnil
      by (apply (bool_decide_unpack _); vm_compute; exact I).
    fold Scenario.move_after in Hhist. rewrite Htrue, Hnil in Hhist.
    cbn in Hhist. congruence. }
  destruct (Hupd eq_refl) as (Hl & (mom & Hm & Hd & _) & Hs & _).
  split; [exact Hl|]. split; [exact Hs|]. exists mom. split; [exact Hm|exact Hd].
Defined.

(** C4 as stated fails: after an improving iteration the momentum is not
    the per-key difference of the two incumbents; for the risk weight the
    difference 1.0 - 1.000001 is not the float nearest to -0.000001 that
    the momentum holds. *)
Lemma momentum_not_plain_difference :
  map history_improved (history Scenario.move_after) = [true] /\
  elementwise_difference (incumbent_profile Scenario.move_after)
                         (incumbent_profile (initial_state Scenario.move_session))
    = Ok Scenario.move_difference /\
  momentum Scenario.move_after <> Some Scenario.move_difference /\
  (momentum Scenario.move_after ≫= (.!! "risk_weight_scale"%string))
    = Some (F64.dec (-1) 6) /\
  Scenario.move_difference !! "risk_weight_scale"%string
    = Some (F64.sub (F64.dec 1 0) (F64.dec 1000001 6)) /\
  F64.sub (F64.dec 1 0) (F64.dec 1000001 6) <> F64.dec (-1) 6.
Proof. apply (bool_decide_unpack _). vm_compute. exact I. Qed.

(** ** The anchor set *)

Section Anchors.
Context `{Environment}.

(** Every anchor that [load_anchors] keeps has a signature, and it is
    not the one the anchors were filtered by. *)
Lemma load_anchors_spec (incumbent_sig : Signature) sources anchors :
  load_anchors incumbent_sig sources = Ok anchors ->
  Forall (fun a => exists sig, profile_signature (snd a) = Ok sig /\
                               sig <> incumbent_sig) anchors.
Proof.
  unfold load_anchors.
  assert (forall acc,
    Forall (fun a => exists sig, profile_signature (snd a) = Ok sig /\
                                 sig <> incumbent_sig) acc ->
    for_each
      (fun anchors '(label, content) =>
         match content with
         | None => Ok anchors
         | Some raw =>
             p ← normalize_profile raw;
             sig ← profile_signature p;
             if decide (sig = incumbent_sig) then Ok anchors
             else Ok (anchors ++ [(label, p)])
         end) sources acc = Ok anchors ->
    Forall (fun a => exists sig, profile_signature (snd a) = Ok sig /\
                                 sig <> incumbent_sig) anchors) as Hgen.
  { induction sources as [|[label content] rest IH]; intros acc Hacc Hrun.
    - injection Hrun as <-. exact Hacc.
    - cbn [for_each] in Hrun.
      apply result_bind_Ok_inv in Hrun as (acc' & Hstep & Hrest).
      apply (IH acc'); [|exact Hrest].
      destruct content as [raw|]; [|injection Hstep as <-; exact Hacc].
      apply result_bind_Ok_inv in Hstep as (p & Hp & Hstep).
      apply result_bind_Ok_inv in Hstep as (sig & Hsig & Hstep).
      destruct (decide (sig = incumbent_sig)) as [Heq|Hne];
        injection Hstep as <-; [exact Hacc|].
      apply Forall_app. split; [exact Hacc|].
      constructor; [|constructor]. exists sig. auto. }
  apply Hgen. constructor.
Qed.

(** A session that starts has its anchors loaded against the signature
    of its starting incumbent. *)
Lemma init_anchors (args : Args) (w : World) s w0 :
  init args w = (Ok s, w0) ->
  exists sig sources,
    profile_signature (incumbent_profile (initial_state s)) = Ok sig /\
    load_anchors sig sources = Ok (anchor_profiles s) /\
    momentum (initial_state s) = None /\
    last_gain_anchor (initial_state s) = None /\
    stagnation_count (initial_state s) = 0 /\
    global_best_result (initial_state s) = None /\
    history (initial_state s) = [].
Proof.
  unfold init, require, load_profile.
  unfold bind, get, modify, ret, raise, lift.
  intros Hrun.
  repeat run_step Hrun.
  all: cbv beta iota zeta in Hrun; try discriminate Hrun.
  all: injection Hrun as <- <-.
  all: cbn [initial_state anchor_profiles incumbent_profile momentum
            last_gain_anchor stagnation_count global_best_result history].
  all: eexists _, _; split; [eassumption|]; split; [eassumption|]; auto.
Qed.

(** C9, as the code has it: the anchor set is filtered once, when the
    session starts, against the signature of the starting incumbent: no
    anchor of a started session has the signature of the incumbent the
    session starts from. *)
Theorem anchors_exclude_starting_incumbent (args : Args) (w : World) s w0 :
  init args w = (Ok s, w0) ->
  exists sig,
    profile_signature (incumbent_profile (initial_state s)) = Ok sig /\
    Forall (fun a => exists asig, profile_signature (snd a) = Ok asig /\ asig <> sig)
           (anchor_profiles s).
Proof.
  intros (sig & sources & Hsig & Hload & _)%init_anchors.
  exists sig. split; [exact Hsig|]. eapply load_anchors_spec, Hload.
Qed.
End Anchors.

Lemma anchors_exclude_starting_incumbent_witness :
  Scenario.move_init = (Ok Scenario.move_session, snd Scenario.move_init) /\
  exists sig,
    profile_signature (incumbent_profile (initial_state Scenario.move_session)) = Ok sig /\
    Forall (fun a => exists asig, profile_signature (snd a) = Ok asig /\ asig <> sig)
           (anchor_profiles Scenario.move_session).
Proof.
  assert (returns Scenario.move_init = true) as Hret by (vm_compute; reflexivity).
  pose proof (returns_eq Scenario.move_init
                (@Build_Session Scenario.move_env "" ∅ []
                   (@Build_SearchState Scenario.move_env ∅ ∅ None None None 0 [] tt))
                Hret) as Hrun.
  split; [exact Hrun|].
  exact (@anchors_exclude_starting_incumbent Scenario.move_env _ _ _ _ Hrun).
Defined.

(** C9 as stated fails: in the session that starts next to the defaults,
    the base profile is kept as an anchor; the first iteration moves the
    incumbent onto the defaults, and in the second iteration the anchor
    set holds an anchor with the signature of the current incumbent. *)
Lemma anchor_has_incumbent_signature :
  iterations Scenario.move_args = 2 /\
  returns Scenario.move_init = true /\
  returns Scenario.move_iteration = true /\
  anchor_profiles Scenario.move_session = [("base"%string, Scenario.defaults)] /\
  incumbent_profile Scenario.move_after = Scenario.defaults /\
  exists sig,
    profile_signature (incumbent_profile Scenario.move_after) = Ok sig /\
    Exists (fun a => profile_signature (snd a) = Ok sig)
           (anchor_profiles Scenario.move_session).
Proof.
  split; [reflexivity|].
  split; [vm_compute; reflexivity|].
  split; [vm_compute; reflexivity|].
  assert (anchor_profiles Scenario.move_session = [("base"%string, Scenario.defaults)]) as Ha
    by (apply (bool_decide_unpack _); vm_compute; exact I).
  assert (incumbent_profile Scenario.move_after = Scenario.defaults) as Hi
    by (apply (bool_decide_unpack _); vm_compute; exact I).
  split; [exact Ha|]. split; [exact Hi|].
  rewrite Ha, Hi.
  exists (json_dumps_sorted Scenario.defaults). 
  assert (profile_signature Scenario.defaults = Ok (json_dumps_sorted Scenario.defaults)) as Hs
    by (apply (bool_decide_unpack _); vm_compute; exact I).
  split; [exact Hs|]. constructor. exact Hs.
Qed.

(** ** A summary without the target bot *)

Section Guarded.
Context {S : Type} (clean : S -> bool) (e : exn).

Lemma aborts_with_keeps {A} (m : M S A) :
  always (fun s s' => clean s = true -> clean s' = true) m -> aborts_with clean e m.
Proof. intros Hm s r s' Hrun Hs. left. eapply Hm; eassumption. Qed.

Lemma aborts_with_lift {A} (x : result A) : aborts_with clean e (lift x).
Proof. intros s r s' [= <- <-] Hs. by left. Qed.

Lemma aborts_with_ret {A} (a : A) : aborts_with clean e (ret a).
Proof. intros s r s' [= <- <-] Hs. by left. Qed.

Lemma aborts_with_modify f :
  (forall s, clean s = true -> clean (f s) = true) -> aborts_with clean e (modify f).
Proof. intros Hf s r s' [= <- <-] Hs. left. by apply Hf. Qed.

Lemma aborts_with_bind {A B} (m : M S A) (k : A -> M S B) :
  aborts_with clean e m -> (forall a, aborts_with clean e (k a)) ->
  aborts_with clean e (bind m k).
Proof.
  intros Hm Hk s r s' [(a & s1 & H1 & H2)|(e' & H1 & ->)]%bind_inv Hs.
  - destruct (Hm _ _ _ H1 Hs) as [Hs1|[=]]. eapply Hk; eassumption.
  - destruct (Hm _ _ _ H1 Hs) as [Hs1|[= ->]]; [by left|by right].
Qed.

Lemma aborts_with_for_eachM {A B} (f : B -> A -> M S B) xs acc :
  (forall b x, aborts_with clean e (f b x)) -> aborts_with clean e (for_eachM f xs acc).
Proof.
  intros Hf. revert acc. induction xs as [|x xs IH]; intros acc.
  - apply aborts_with_ret.
  - cbn [for_eachM]. apply aborts_with_bind; [apply Hf|]. intros b. apply IH.
Qed.
End Guarded.

Section MissingBot.
Context `{Environment}.

(** Initialization runs no benchmark. *)
Lemma init_bench_log (args : Args) (w : World) r w0 :
  init args w = (r, w0) -> bench_log w0 = bench_log w.
Proof.
  unfold init, require, load_profile.
  unfold bind, get, modify, ret, raise, lift.
  intros Hrun.
  repeat run_step Hrun.
  all: cbv beta iota zeta in Hrun; injection Hrun as <- <-.
  all: reflexivity.
Qed.

Lemma evaluate_candidate_aborts (args : Args) iter iter_dir idx spec :
  aborts_with (bot_always_reported (bot args)) RuntimeError
              (evaluate_candidate args iter iter_dir idx spec).
Proof.
  intros w r w' Hrun Hclean. rewrite evaluate_candidate_spec in Hrun.
  injection Hrun as <- <-.
  unfold bot_always_reported, world_after_benchmark, log_bench in *.
  cbn [bench_log]. rewrite forallb_app. cbn [forallb snd summary_lacks_bot].
  change (bench_log (world_at_benchmark iter idx (fst spec) w)) with (bench_log w).
  rewrite Hclean. cbn [andb].
  destruct (benchmark _) as [|rk|]; cbn [summary_lacks_bot]; [by left| |by left].
  destruct (find _ rk); [by left|by right].
Qed.

Lemma evaluate_candidates_aborts (args : Args) iter iter_dir specs :
  forall idx results,
  aborts_with (bot_always_reported (bot args)) RuntimeError
              (evaluate_candidates args iter iter_dir idx specs results).
Proof.
  induction specs as [|spec rest IH]; intros idx results; cbn [evaluate_candidates].
  - apply aborts_with_ret.
  - apply aborts_with_bind; [apply evaluate_candidate_aborts|]. intros row. apply IH.
Qed.

Lemma iteration_body_aborts (args : Args) anchors dir (st : SearchState) iter :
  aborts_with (bot_always_reported (bot args)) RuntimeError
              (iteration_body args anchors dir st iter).
Proof.
  unfold iteration_body.
  apply aborts_with_bind; [apply aborts_with_lift|]. intros [base_step search_step].
  apply aborts_with_bind; [apply aborts_with_lift|]. intros [specs rng'].
  apply aborts_with_bind; [apply evaluate_candidates_aborts|]. intros rows.
  apply aborts_with_bind; [apply aborts_with_lift|]. intros ranked.
  apply aborts_with_bind; [apply aborts_with_modify; auto|]. intros _.
  apply aborts_with_bind; [apply aborts_with_lift|]. intros [[winner improved] st2].
  apply aborts_with_bind; [apply aborts_with_modify; auto|]. intros _.
  apply aborts_with_ret.
Qed.

Lemma finalize_bench_log (args : Args) (s : Session) (st : SearchState) w r w' :
  finalize args s st w = (r, w') -> bench_log w' = bench_log w.
Proof.
  unfold finalize. unfold bind, get, modify, ret, raise, lift.
  intros Hrun.
  repeat run_step Hrun.
  all: cbv beta iota zeta in Hrun; injection Hrun as <- <-.
  all: reflexivity.
Qed.

Lemma session_body_aborts (args : Args) (s : Session) :
  aborts_with (bot_always_reported (bot args)) RuntimeError (session_body args s).
Proof.
  unfold session_body, run_iterations.
  apply aborts_with_bind.
  - apply aborts_with_for_eachM. intros st iter. apply iteration_body_aborts.
  - intros st w r w' Hrun Hclean. left.
    unfold bot_always_reported in *. by rewrite (finalize_bench_log _ _ _ _ _ _ Hrun).
Qed.

(** C8: a benchmark run that exits zero with a summary that has no entry
    for the target bot makes the evaluation of that candidate raise
    [RuntimeError], with no row recorded; and a session in which such a
    run happens ends with [main] raising [RuntimeError], a non-zero exit,
    and the active profile restored to the pre-session snapshot. *)
Theorem missing_bot_is_fatal :
  (forall (args : Args) iter iter_dir idx spec w,
     summary_lacks_bot (bot args)
       (benchmark (world_at_benchmark iter idx (fst spec) w)) = true ->
     evaluate_candidate args iter iter_dir idx spec w
       = (Raise RuntimeError, world_after_benchmark iter idx (fst spec) w)) /\
  (forall (args : Args) w r w',
     main args w = (r, w') ->
     bot_always_reported (bot args) w = true ->
     bot_always_reported (bot args) w' = false ->
     r = Raise RuntimeError /\ exit_code r <> 0 /\
     exists old,
       snapshot w = Ok old /\ active_profile_file w' = Some old).
Proof.
  split.
  - intros args iter iter_dir idx spec w Hlack.
    rewrite evaluate_candidate_spec. unfold summary_lacks_bot in Hlack.
    destruct (benchmark _) as [|rk|]; try discriminate.
    destruct (find _ rk); [discriminate|reflexivity].
  - intros args w r w' Hmain Hclean Hdirty.
    unfold main, bind in Hmain.
    destruct (init args w) as [[s|e] w0] eqn:Hinit.
    + pose proof (init_bench_log _ _ _ _ Hinit) as Hlog.
      apply init_inv in Hinit as [Hsnap _].
      assert (bot_always_reported (bot args) w0 = true) as Hclean0
        by (unfold bot_always_reported in *; by rewrite Hlog).
      unfold try_finally in Hmain.
      destruct (session_body args s w0) as [r1 w1] eqn:Hbody.
      destruct (session_body_aborts _ _ _ _ _ Hbody Hclean0) as [Hclean1| ->].
      * destruct r1 as [code|e1]; cbn [restore_unless_success] in Hmain;
          unfold ret, modify in Hmain; injection Hmain as <- <-;
          unfold bot_always_reported in *; cbn [bench_log set_active] in Hdirty;
          congruence.
      * cbn [restore_unless_success] in Hmain. unfold modify in Hmain.
        injection Hmain as <- <-. split; [reflexivity|]. split; [discriminate|].
        exists (old_profile s). split; [exact Hsnap|reflexivity].
    + injection Hmain as <- <-.
      pose proof (init_bench_log _ _ _ _ Hinit) as Hlog.
      unfold bot_always_reported in *. rewrite Hlog in Hdirty. congruence.
Qed.
End MissingBot.

Lemma missing_bot_is_fatal_witness :
  bot_always_reported (bot Scenario.stay_args) Scenario.stay_world = true /\
  bot_always_reported (bot Scenario.stay_args) (snd Scenario.absent_run) = false /\
  fst Scenario.absent_run = Raise RuntimeError /\
  exists old,
    snapshot Scenario.stay_world = Ok old /\
    active_profile_file (snd Scenario.absent_run) = Some old.
Proof.
  assert (bot_always_reported (bot Scenario.stay_args) (snd Scenario.absent_run) = false)
    as Hdirty by (vm_compute; reflexivity).
  split; [reflexivity|]. split; [exact Hdirty|].
  destruct (@missing_bot_is_fatal (Scenario.lowest_draws Scenario.omits_bot)) as [_ Hmain].
  destruct (Hmain Scenario.stay_args Scenario.stay_world
                  (fst Scenario.absent_run) (snd Scenario.absent_run))
    as (Hr & _ & Hold).
  - unfold Scenario.absent_run. apply surjective_pairing.
  - reflexivity.
  - exact Hdirty.
  - split; [exact Hr|exact Hold].
Defined.

(** ** The order of metric tuples *)

Lemma ltb_key x y :
  F64.is_nan x = false -> F64.is_nan y = false ->
  SFltb x y = true <-> key_lt x y.
Proof.
  intros Hx Hy. unfold SFltb, key_lt.
  destruct x as [sx|sx| |sx mx ex], y as [sy|sy| |sy my ey]; try discriminate;
    try destruct sx; try destruct sy;
    cbn [SFcompare order_class order_exponent order_mantissa];
    try (split; [discriminate|lia]); try (split; [lia|reflexivity]).
  all: pose proof (Pos.compare_spec mx my) as Hm; unfold Pos.compare in Hm.
  all: destruct (Z.compare_spec ex ey); try (split; [discriminate|lia]);
         try (split; [lia|reflexivity]).
  all: destruct Hm; cbn [CompOpp]; try (split; [discriminate|lia]);
         try (split; [lia|reflexivity]).
Qed.

Lemma eqb_key x y :
  F64.is_nan x = false -> F64.is_nan y = false ->
  SFeqb x y = true <-> key_eq x y.
Proof.
  intros Hx Hy. unfold SFeqb, key_eq.
  destruct x as [sx|sx| |sx mx ex], y as [sy|sy| |sy my ey]; try discriminate;
    try destruct sx; try destruct sy;
    cbn [SFcompare order_class order_exponent order_mantissa];
    try (split; [discriminate|lia]); try (split; [lia|reflexivity]).
  all: pose proof (Pos.compare_spec mx my) as Hm; unfold Pos.compare in Hm.
  all: destruct (Z.compare_spec ex ey); try (split; [discriminate|lia]);
         try (split; [lia|reflexivity]).
  all: destruct Hm; cbn [CompOpp]; try (split; [discriminate|lia]);
         try (split; [lia|reflexivity]).
Qed.

(** On floats that are not NaN, [<] and [==] are a total preorder. *)
Lemma float_trichotomy x y :
  F64.is_nan x = false -> F64.is_nan y = false ->
  F64.eq x y = negb (F64.lt x y) && negb (F64.lt y x).
Proof.
  intros Hx Hy. unfold F64.eq, F64.lt.
  pose proof (ltb_key x y Hx Hy) as H1. pose proof (ltb_key y x Hy Hx) as H2.
  pose proof (eqb_key x y Hx Hy) as H3. unfold key_lt, key_eq in *.
  destruct (SFltb x y), (SFltb y x), (SFeqb x y); cbn; try reflexivity; exfalso.
  all: repeat match goal with
         | H : true = true <-> _ |- _ => destruct H as [H _]; specialize (H eq_refl)
         | H : false = true <-> _ |- _ =>
             destruct H as [_ H];
             assert (false = true -> False) by discriminate
         end; lia.
Qed.

Lemma float_lt_asym x y :
  F64.is_nan x = false -> F64.is_nan y = false ->
  F64.lt x y = true -> F64.lt y x = false.
Proof.
  intros Hx Hy. unfold F64.lt.
  rewrite (ltb_key x y Hx Hy). intros H1.
  destruct (SFltb y x) eqn:E; [|reflexivity].
  apply (ltb_key y x Hy Hx) in E. unfold key_lt in *. lia.
Qed.

Lemma float_lt_negtrans x y z :
  F64.is_nan x = false -> F64.is_nan y = false -> F64.is_nan z = false ->
  F64.lt x y = false -> F64.lt y z = false -> F64.lt x z = false.
Proof.
  intros Hx Hy Hz. unfold F64.lt. intros H1 H2.
  destruct (SFltb x z) eqn:E; [|reflexivity].
  apply (ltb_key x z Hx Hz) in E.
  assert (~ key_lt x y) as N1 by (rewrite <- (ltb_key x y Hx Hy); congruence).
  assert (~ key_lt y z) as N2 by (rewrite <- (ltb_key y z Hy Hz); congruence).
  unfold key_lt in *. lia.
Qed.

Lemma float_eq_sym x y : F64.eq x y = F64.eq y x.
Proof.
  destruct (F64.is_nan x) eqn:Hx; [by destruct x, y|].
  destruct (F64.is_nan y) eqn:Hy; [by destruct x, y|].
  rewrite !float_trichotomy by assumption. apply andb_comm.
Qed.

Lemma float_eq_lt_l x y z :
  F64.is_nan x = false -> F64.is_nan y = false -> F64.is_nan z = false ->
  F64.eq x y = true -> F64.lt x z = F64.lt y z.
Proof.
  intros Hx Hy Hz. unfold F64.eq, F64.lt. rewrite (eqb_key x y Hx Hy). intros He.
  pose proof (ltb_key x z Hx Hz) as H1. pose proof (ltb_key y z Hy Hz) as H2.
  unfold key_lt, key_eq in *.
  destruct (SFltb x z), (SFltb y z); try reflexivity; exfalso.
  - destruct H1 as [H1 _]. specialize (H1 eq_refl).
    assert (false = true -> False) by discriminate. lia.
  - destruct H2 as [H2 _]. specialize (H2 eq_refl).
    assert (false = true -> False) by discriminate. lia.
Qed.

Lemma float_eq_lt_r x y z :
  F64.is_nan x = false -> F64.is_nan y = false -> F64.is_nan z = false ->
  F64.eq x y = true -> F64.lt z x = F64.lt z y.
Proof.
  intros Hx Hy Hz. unfold F64.eq, F64.lt. rewrite (eqb_key x y Hx Hy). intros He.
  pose proof (ltb_key z x Hz Hx) as H1. pose proof (ltb_key z y Hz Hy) as H2.
  unfold key_lt, key_eq in *.
  destruct (SFltb z x), (SFltb z y); try reflexivity; exfalso.
  - destruct H1 as [H1 _]. specialize (H1 eq_refl).
    assert (false = true -> False) by discriminate. lia.
  - destruct H2 as [H2 _]. specialize (H2 eq_refl).
    assert (false = true -> False) by discriminate. lia.
Qed.

Lemma float_eq_trans x y z :
  F64.is_nan x = false -> F64.is_nan y = false -> F64.is_nan z = false ->
  F64.eq x y = true -> F64.eq y z = F64.eq x z.
Proof.
  intros Hx Hy Hz He.
  rewrite (float_trichotomy y z), (float_trichotomy x z) by assumption.
  by rewrite (float_eq_lt_l x y z), (float_eq_lt_r x y z).
Qed.

(** [>] on tuples is [<] with the sides exchanged. *)
Lemma items_gt_lt xs ys : items_cmp F64.gt xs ys = items_cmp F64.lt ys xs.
Proof.
  revert ys. induction xs as [|x xs IH]; intros [|y ys]; try reflexivity.
  cbn [items_cmp]. rewrite (float_eq_sym y x), IH. reflexivity.
Qed.

Lemma items_lt_irrefl xs : items_cmp F64.lt xs xs = false.
Proof.
  induction xs as [|x xs IH]; [reflexivity|]. cbn [items_cmp].
  destruct (F64.eq x x); [exact IH|]. by destruct x as [?|[]| |[] ? ?];
    unfold F64.lt, SFltb; cbn [SFcompare]; rewrite ?Z.compare_refl,
      ?Pos.compare_cont_refl.
Qed.

Lemma items_lt_asym xs ys :
  nan_free xs -> nan_free ys ->
  items_cmp F64.lt xs ys = true -> items_cmp F64.lt ys xs = false.
Proof.
  intros Hxs. revert ys. induction Hxs as [|x xs Hx Hxs IH]; intros ys Hys;
    destruct Hys as [|y ys Hy Hys]; try discriminate.
  cbn [items_cmp]. rewrite (float_eq_sym y x).
  destruct (F64.eq x y); [by apply IH|]. by apply float_lt_asym.
Qed.

Lemma items_lt_negtrans xs ys zs :
  nan_free xs -> nan_free ys -> nan_free zs ->
  length xs = length ys -> length ys = length zs ->
  items_cmp F64.lt xs ys = false -> items_cmp F64.lt ys zs = false ->
  items_cmp F64.lt xs zs = false.
Proof.
  intros Hxs. revert ys zs. induction Hxs as [|x xs Hx Hxs IH]; intros ys zs Hys Hzs;
    destruct Hys as [|y ys Hy Hys]; destruct Hzs as [|z zs Hz Hzs];
    try discriminate; try reflexivity.
  intros [= L1] [= L2]. cbn [items_cmp].
  destruct (F64.eq x y) eqn:Exy.
  - rewrite (float_eq_trans x y z) by assumption.
    destruct (F64.eq x z) eqn:Exz; [by apply IH|].
    intros _. by rewrite (float_eq_lt_l x y z).
  - destruct (F64.eq y z) eqn:Eyz.
    + rewrite float_eq_sym in Eyz.
      assert (F64.eq x z = false) as ->.
      { rewrite float_eq_sym, <- (float_eq_trans z y x) by assumption.
        by rewrite float_eq_sym. }
      intros H1 _. by rewrite (float_eq_lt_r z y x).
    + intros H1 H2.
      destruct (F64.eq x z) eqn:Exz.
      * exfalso. rewrite (float_trichotomy x y) in Exy by assumption.
        rewrite H1 in Exy. cbn in Exy.
        rewrite (float_eq_lt_r x z y) in Exy by assumption.
        rewrite H2 in Exy. discriminate.
      * by apply (float_lt_negtrans x y z).
Qed.

(** ** [float(n)] is a number *)

Lemma shr_1_nonneg mrs : 0 <= shr_m mrs -> 0 <= shr_m (shr_1 mrs).
Proof. destruct mrs as [m r s]. destruct m as [|[p|p|]|[p|p|]]; cbn; lia. Qed.

Lemma iter_pos_shr_1_nonneg p : forall mrs,
  0 <= shr_m mrs -> 0 <= shr_m (SpecFloat.iter_pos shr_1 p mrs).
Proof.
  induction p as [p IH|p IH|]; intros mrs Hm; cbn [SpecFloat.iter_pos].
  - apply IH, IH, shr_1_nonneg, Hm.
  - apply IH, IH, Hm.
  - apply shr_1_nonneg, Hm.
Qed.

Lemma shr_fexp_nonneg m e l :
  0 <= m -> 0 <= shr_m (fst (shr_fexp F64.prec F64.emax m e l)).
Proof.
  intros Hm. unfold shr_fexp, shr.
  assert (0 <= shr_m (shr_record_of_loc m l)) as H0 by (by destruct l as [|[]]).
  destruct (fexp _ _ _ - e); cbn [fst]; [exact H0| |exact H0].
  apply iter_pos_shr_1_nonneg, H0.
Qed.

Lemma round_nearest_even_nonneg m l : 0 <= m -> 0 <= round_nearest_even m l.
Proof.
  intros Hm. unfold round_nearest_even.
  destruct l as [|[]]; try destruct (Z.even m); lia.
Qed.

Lemma of_int_not_nan n f : F64.of_int n = Ok f -> F64.is_nan f = false.
Proof.
  unfold F64.of_int, binary_normalize.
  assert (forall s p, F64.is_nan (binary_round F64.prec F64.emax s p 0) = false) as Hround.
  { intros s p. unfold binary_round, binary_round_aux.
    destruct (shl_align _ _ _) as [mz ez].
    pose proof (shr_fexp_nonneg (Z.pos mz) ez loc_Exact ltac:(lia)) as H1.
    destruct (shr_fexp _ _ (Z.pos mz) ez loc_Exact) as [mrs' e']. cbn [fst] in H1.
    pose proof (shr_fexp_nonneg
                  (round_nearest_even (shr_m mrs') (loc_of_shr_record mrs')) e' loc_Exact
                  (round_nearest_even_nonneg _ _ H1)) as H2.
    destruct (shr_fexp _ _ _ e' loc_Exact) as [mrs'' e'']. cbn [fst] in H2.
    destruct (shr_m mrs'') as [|q|q]; [reflexivity| |lia].
    by destruct (e'' <=? _). }
  destruct n as [|p|p].
  - by intros [= <-].
  - specialize (Hround false p). destruct (binary_round _ _ false p 0);
      intros [= <-]; first [reflexivity | discriminate].
  - specialize (Hround true p). destruct (binary_round _ _ true p 0);
      intros [= <-]; first [reflexivity | discriminate].
Qed.

(** ** Metric tuples as a strict weak order *)

Lemma tuple_items_length t : length (tuple_items t) = 4%nat.
Proof. by destruct t as [[[a b] c] d]. Qed.

Lemma tuple_gt_lt a b : tuple_gt a b = tuple_lt b a.
Proof. apply items_gt_lt. Qed.

Lemma tuple_lt_irrefl a : tuple_lt a a = false.
Proof. apply items_lt_irrefl. Qed.

Lemma tuple_lt_asym a b :
  nan_free (tuple_items a) -> nan_free (tuple_items b) ->
  tuple_lt a b = true -> tuple_lt b a = false.
Proof. apply items_lt_asym. Qed.

Lemma tuple_lt_negtrans a b c :
  nan_free (tuple_items a) -> nan_free (tuple_items b) -> nan_free (tuple_items c) ->
  tuple_lt a b = false -> tuple_lt b c = false -> tuple_lt a c = false.
Proof.
  intros Ha Hb Hc. apply items_lt_negtrans; try assumption;
    by rewrite !tuple_items_length.
Qed.

Lemma metric_tuple_nan_free row metric t :
  row_nan_free row = true ->
  metric_tuple row metric = Ok t -> nan_free (tuple_items t).
Proof.
  unfold row_nan_free, metric_tuple.
  intros [[Ho Ha]%andb_prop Hf]%andb_prop.
  apply negb_true_iff in Ho, Ha, Hf.
  destruct (F64.of_int (max_score row)) as [m|] eqn:Hm.
  2: { repeat case_decide; discriminate. }
  apply of_int_not_nan in Hm. cbn [mbind result_mbind result_bind].
  repeat case_decide; intros [= <-]; repeat constructor; assumption.
Qed.

Lemma better_than_inv a b metric r :
  better_than a b metric = Ok r ->
  exists ka kb, metric_tuple a metric = Ok ka /\ metric_tuple b metric = Ok kb /\
                r = tuple_lt kb ka.
Proof.
  unfold better_than.
  intros (ka & Ha & (kb & Hb & [= <-])%result_bind_Ok_inv)%result_bind_Ok_inv.
  exists ka, kb. by rewrite tuple_gt_lt.
Qed.

Lemma better_than_intro a b metric ka kb :
  metric_tuple a metric = Ok ka -> metric_tuple b metric = Ok kb ->
  better_than a b metric = Ok (tuple_lt kb ka).
Proof.
  intros Ha Hb. unfold better_than. rewrite Ha, Hb.
  cbn [mbind result_mbind result_bind]. by rewrite tuple_gt_lt.
Qed.

(** ** Sorting *)

Lemma insert_desc_perm {A} (x : MetricTuple * A) l : insert_desc x l ≡ₚ x :: l.
Proof.
  induction l as [|y l IH]; [reflexivity|]. cbn [insert_desc].
  destruct (tuple_lt (fst x) (fst y)); [|reflexivity].
  rewrite IH. apply Permutation_swap.
Qed.

Lemma sort_desc_perm {A} (l : list (MetricTuple * A)) : sort_desc l ≡ₚ l.
Proof.
  induction l as [|x l IH]; [reflexivity|]. cbn [sort_desc].
  by rewrite insert_desc_perm, IH.
Qed.

(** No element of the list is above the head of the sorted list. *)
Lemma sort_desc_head {A} (l : list (MetricTuple * A)) h :
  Forall (fun y => nan_free (tuple_items (fst y))) l ->
  head (sort_desc l) = Some h ->
  forall y, y ∈ l -> tuple_lt (fst h) (fst y) = false.
Proof.
  revert h. induction l as [|x rest IH]; intros h Hnan Hhead y Hy.
  - by apply elem_of_nil in Hy.
  - apply Forall_cons in Hnan as [Hx Hrest].
    assert (Forall (fun y => nan_free (tuple_items (fst y))) (sort_desc rest)) as Hs
      by (by rewrite sort_desc_perm).
    cbn [sort_desc] in Hhead.
    destruct (sort_desc rest) as [|h0 s'] eqn:Es.
    + assert (rest = []) as ->.
      { apply Permutation_nil_r. by rewrite <- Es, sort_desc_perm. }
      injection Hhead as <-. apply list_elem_of_singleton in Hy as ->.
      apply tuple_lt_irrefl.
    + specialize (IH h0 Hrest eq_refl).
      apply Forall_cons in Hs as [Hh0 _].
      cbn [insert_desc] in Hhead.
      assert (forall z, z ∈ rest -> nan_free (tuple_items (fst z))) as Hz
        by (by apply Forall_forall).
      destruct (tuple_lt (fst x) (fst h0)) eqn:Elt; injection Hhead as <-.
      * apply elem_of_cons in Hy as [->|Hy]; [by apply tuple_lt_asym|by apply IH].
      * apply elem_of_cons in Hy as [->|Hy]; [apply tuple_lt_irrefl|].
        apply (tuple_lt_negtrans _ (fst h0)); auto.
Qed.

Lemma with_keys_spec metric rows keyed :
  with_keys metric rows = Ok keyed ->
  map snd keyed = rows /\
  Forall (fun kr => metric_tuple (snd kr) metric = Ok (fst kr)) keyed.
Proof.
  revert keyed. induction rows as [|row rest IH]; intros keyed; cbn [with_keys].
  - intros [= <-]. by split.
  - intros (k & Hk & (ks & Hks & [= <-])%result_bind_Ok_inv)%result_bind_Ok_inv.
    destruct (IH _ Hks) as [Hmap Hall]. split; [cbn; by rewrite Hmap|].
    by constructor.
Qed.

(** [sort_results] permutes the rows, and no row is strictly better than
    the first of the sorted rows. *)
Lemma sort_results_spec metric rows ranked :
  sort_results metric rows = Ok ranked ->
  ranked ≡ₚ rows /\
  (Forall (fun row => row_nan_free row = true) rows ->
   forall winner, head ranked = Some winner ->
   forall row, row ∈ ranked -> better_than row winner metric = Ok false).
Proof.
  unfold sort_results.
  intros (keyed & Hkeyed & [= <-])%result_bind_Ok_inv.
  destruct (with_keys_spec _ _ _ Hkeyed) as [Hmap Hall].
  split; [by rewrite sort_desc_perm, Hmap|].
  intros Hnan winner Hhead row Hrow.
  assert (Forall (fun y => nan_free (tuple_items (fst y))) keyed) as Hknan.
  { apply Forall_forall. intros [k r] Hin.
    pose proof (proj1 (Forall_forall _ _) Hall _ Hin) as Hk. cbn [fst snd] in *.
    apply (metric_tuple_nan_free r metric); [|exact Hk].
    apply (proj1 (Forall_forall _ _) Hnan). rewrite <- Hmap.
    apply list_elem_of_fmap. by exists (k, r). }
  destruct (sort_desc keyed) as [|[kw rw] s'] eqn:Es; [discriminate|].
  injection Hhead as <-.
  apply list_elem_of_fmap in Hrow as ([k r] & -> & Hin). cbn [snd].
  rewrite <- Es, sort_desc_perm in Hin.
  assert ((kw, rw) ∈ keyed) as Hw by (rewrite <- sort_desc_perm, Es; left).
  pose proof (proj1 (Forall_forall _ _) Hall _ Hin) as Hk.
  pose proof (proj1 (Forall_forall _ _) Hall _ Hw) as Hkw. cbn [fst snd] in *.
  rewrite (better_than_intro _ _ _ _ _ Hk Hkw). f_equal.
  exact (sort_desc_head keyed (kw, rw) Hknan ltac:(by rewrite Es) (k, r) Hin).
Qed.

(** ** The global best *)

Lemma evaluated_rows_add f w :
  evaluated_rows (add_session_file f w)
  = evaluated_rows w ++ match f with Leaderboard _ rows => rows | _ => [] end.
Proof.
  unfold evaluated_rows. cbn [session_files add_session_file].
  rewrite map_app, concat_app. cbn [map concat]. by rewrite app_nil_r.
Qed.

Section GlobalBest.
Context `{Environment}.
Hypothesis benchmark_nan_free : forall w, outcome_nan_free (benchmark w) = true.

Lemma evaluate_candidate_rows (args : Args) iter iter_dir idx spec w row w1 :
  evaluate_candidate args iter iter_dir idx spec w = (Ok row, w1) ->
  row_nan_free row = true /\ evaluated_rows w1 = evaluated_rows w.
Proof.
  rewrite evaluate_candidate_spec. intros Hrun.
  assert (w1 = world_after_benchmark iter idx (fst spec) w) as -> by congruence.
  split.
  - pose proof (benchmark_nan_free (world_at_benchmark iter idx (fst spec) w)) as Hnan.
    assert (F64.dec 0 0 = S754_zero false) as Hz by (vm_compute; reflexivity).
    destruct (benchmark _) as [|rk|]; [| |discriminate].
    + injection Hrun as <-. unfold row_for, FAILURE_SENTINEL, row_nan_free.
      cbn [objective_value avg_score avg_frames]. by rewrite Hz.
    + destruct (find _ rk) as [ranking|] eqn:Hfind; [|discriminate].
      injection Hrun as <-. apply find_some in Hfind as [Hin _].
      cbn [outcome_nan_free] in Hnan.
      exact (proj1 (forallb_forall _ _) Hnan _ Hin).
  - unfold world_after_benchmark, world_at_benchmark.
    unfold evaluated_rows. cbn [session_files log_bench set_active add_session_file].
    rewrite map_app, concat_app. cbn [map concat]. by rewrite app_nil_r.
Qed.

Lemma evaluate_candidates_rows (args : Args) iter iter_dir specs :
  forall idx results w rows w1,
  evaluate_candidates args iter iter_dir idx specs results w = (Ok rows, w1) ->
  Forall (fun row => row_nan_free row = true) results ->
  Forall (fun row => row_nan_free row = true) rows /\
  evaluated_rows w1 = evaluated_rows w.
Proof.
  induction specs as [|spec rest IH]; intros idx results w rows w1;
    cbn [evaluate_candidates].
  - intros [= <- <-] Hres. by split.
  - intros (row & w0 & Hone & Hrest)%bind_Ok_inv Hres.
    apply evaluate_candidate_rows in Hone as [Hrow Hw0].
    destruct (IH _ _ _ _ _ Hrest) as [Hall Hw1].
    + apply Forall_app. split; [exact Hres|]. by constructor.
    + split; [exact Hall|congruence].
Qed.

(** One iteration keeps the global best on top of everything evaluated
    so far, and does not decrease it. *)
Lemma iteration_keeps_best (args : Args) anchors dir (st : SearchState)
    iter w st' w' :
  iteration_body args anchors dir st iter w = (Ok st', w') ->
  best_tracks args st w ->
  best_tracks args st' w' /\ not_decreased args st st'.
Proof.
  intros Hrun [Hnan Hbest].
  destruct (iteration_body_inv _ _ _ _ _ _ _ _ Hrun)
    as (base_step & search_step & specs & rng' & rows & w1 & ranked & winner
        & improved & st2 & _ & _ & Heval & Hsort & Hadapt & _ & Hgp & Hgr & _ & _
        & _ & _ & Hran).
  destruct Hran as (Hhead & _ & -> & _).
  destruct (evaluate_candidates_rows _ _ _ _ _ _ _ _ _ Heval) as [Hrows Hw1];
    [constructor|].
  destruct (sort_results_spec _ _ _ Hsort) as [Hperm Hmax].
  specialize (Hmax Hrows winner Hhead).
  destruct (adapt_inv _ _ _ _ _ _ Hadapt) as (_ & _ & _ & Hupd & _).
  unfold best_updated in Hupd. cbn [global_best_result global_best_profile
    with_rng_state] in Hupd.
  assert (winner ∈ ranked) as Hwin
    by (destruct ranked; [discriminate|injection Hhead as ->; left]).
  assert (Forall (fun row => row_nan_free row = true) ranked) as Hranked
    by (by rewrite Hperm).
  assert (forall row, row ∈ ranked -> row_nan_free row = true) as Hrn
    by (by apply Forall_forall).
  assert (forall row, row ∈ evaluated_rows w -> row_nan_free row = true) as Hon
    by (by apply Forall_forall).
  unfold best_tracks, not_decreased.
  rewrite !evaluated_rows_add, app_nil_r, Hw1, Hgr, Hgp.
  split; [split; [by apply Forall_app|]|].
  - destruct (global_best_result st) as [best|].
    + destruct Hbest as (Hin & Hprof & Htop).
      destruct Hupd as (replace & Hcmp & Hnew).
      pose proof (better_than_inv _ _ _ _ Hcmp) as (kw & kb & Hkw & Hkb & Hrep).
      pose proof (metric_tuple_nan_free _ _ _ (Hrn _ Hwin) Hkw) as Nw.
      pose proof (metric_tuple_nan_free _ _ _ (Hon _ Hin) Hkb) as Nb.
      destruct replace; destruct Hnew as [-> ->].
      * split; [apply elem_of_app; by right|]. split; [reflexivity|].
        intros row [Hrow|Hrow]%elem_of_app; [|by apply Hmax].
        pose proof (better_than_inv _ _ _ _ (Htop _ Hrow))
          as (kr & kb' & Hkr & Hkb' & Hlt).
        assert (kb' = kb) as -> by congruence.
        pose proof (metric_tuple_nan_free _ _ _ (Hon _ Hrow) Hkr) as Nr.
        rewrite (better_than_intro _ _ _ _ _ Hkr Hkw). f_equal.
        apply (tuple_lt_negtrans kw kb kr); auto.
        by apply tuple_lt_asym.
      * split; [apply elem_of_app; by left|]. split; [exact Hprof|].
        intros row [Hrow|Hrow]%elem_of_app; [by apply Htop|].
        pose proof (better_than_inv _ _ _ _ (Hmax _ Hrow))
          as (kr & kw' & Hkr & Hkw' & Hlt).
        assert (kw' = kw) as -> by congruence.
        pose proof (metric_tuple_nan_free _ _ _ (Hrn _ Hrow) Hkr) as Nr.
        rewrite (better_than_intro _ _ _ _ _ Hkr Hkb). f_equal.
        apply (tuple_lt_negtrans kb kw kr); auto.
    + destruct Hupd as [-> ->]. rewrite Hbest. cbn [app].
      split; [exact Hwin|]. split; [reflexivity|exact Hmax].
  - destruct (global_best_result st) as [best|]; [|exact I].
    destruct Hbest as (Hin & Hprof & Htop).
    destruct Hupd as (replace & Hcmp & Hnew).
    pose proof (better_than_inv _ _ _ _ Hcmp) as (kw & kb & Hkw & Hkb & Hrep).
    pose proof (metric_tuple_nan_free _ _ _ (Hrn _ Hwin) Hkw) as Nw.
    pose proof (metric_tuple_nan_free _ _ _ (Hon _ Hin) Hkb) as Nb.
    destruct replace; destruct Hnew as [-> _].
    + split; [right; exact Hcmp|].
      rewrite (better_than_intro _ _ _ _ _ Hkb Hkw). f_equal.
      by apply tuple_lt_asym.
    + split; [by left|].
      rewrite (better_than_intro _ _ _ _ _ Hkb Hkb). f_equal.
      apply tuple_lt_irrefl.
Qed.

Lemma run_iterations_keeps_best (args : Args) anchors dir iters :
  forall (st : SearchState) w st' w',
  run_iterations args anchors dir st iters w = (Ok st', w') ->
  best_tracks args st w ->
  best_tracks args st' w' /\
  (iters <> [] -> is_Some (global_best_result st')).
Proof.
  unfold run_iterations.
  induction iters as [|iter rest IH]; intros st w st' w'; cbn [for_eachM].
  - intros [= <- <-] Hbest. by split.
  - intros (st1 & w1 & Hone & Hrest)%bind_Ok_inv Hbest.
    pose proof (iteration_body_inv _ _ _ _ _ _ _ _ Hone)
      as (bs & ss & specs & rng' & rows & w1' & ranked & winner & improved & st2
          & _ & _ & _ & _ & Hadapt & _ & _ & Hgr & _).
    destruct (iteration_keeps_best _ _ _ _ _ _ _ _ Hone Hbest) as [Hbest1 Hmono].
    destruct (IH _ _ _ _ Hrest Hbest1) as [Hbest' Hsome].
    split; [exact Hbest'|]. intros _.
    destruct rest as [|iter' rest']; [|by apply Hsome].
    injection Hrest as <- <-.
    destruct (adapt_inv _ _ _ _ _ _ Hadapt) as (_ & _ & _ & Hupd & _).
    unfold best_updated in Hupd. rewrite Hgr.
    cbn [global_best_result with_rng_state] in Hupd.
    destruct (global_best_result st) as [best|].
    + destruct Hupd as (replace & _ & Hnew).
      destruct replace; destruct Hnew as [-> _]; by eexists.
    + destruct Hupd as [-> _]. by eexists.
Qed.

(** A session that starts has an empty leaderboard record. *)
Lemma init_session_files (args : Args) (w : World) s w0 :
  init args w = (Ok s, w0) ->
  session_files w0 = [BackupActiveProfile (old_profile s)].
Proof.
  unfold init, require, load_profile.
  unfold bind, get, modify, ret, raise, lift.
  intros Hrun.
  repeat run_step Hrun.
  all: cbv beta iota zeta in Hrun; try discriminate Hrun.
  all: injection Hrun as <- <-.
  all: reflexivity.
Qed.

Lemma finalize_rows (args : Args) (s : Session) (st : SearchState) w r w' :
  finalize args s st w = (r, w') -> evaluated_rows w' = evaluated_rows w.
Proof.
  unfold finalize. unfold bind, get, modify, ret, raise, lift.
  intros Hrun.
  repeat run_step Hrun.
  all: cbv beta iota zeta in Hrun; injection Hrun as <- <-.
  all: try reflexivity.
  all: unfold evaluated_rows;
    cbn [session_files set_latest_session set_active add_session_file set_champion];
    rewrite !map_app, !concat_app; cbn [map concat]; by rewrite !app_nil_r.
Qed.

(** C5: provided the benchmark reports numbers (never NaN), an
    iteration leaves the global best at least as high under the active
    metric as it was, and on top of every row evaluated so far; and when
    [main] returns, the committed champion is the profile of an evaluated
    row that no evaluated row of the session is strictly better than. *)
Theorem global_best_tracking :
  (forall (args : Args) anchors dir (st : SearchState) iter w st' w',
     iteration_body args anchors dir st iter w = (Ok st', w') ->
     best_tracks args st w ->
     best_tracks args st' w' /\ not_decreased args st st') /\
  (forall (args : Args) w code w',
     main args w = (Ok code, w') ->
     exists best,
       best ∈ evaluated_rows w' /\
       (forall row, row ∈ evaluated_rows w' ->
          better_than row best (selection_metric args) = Ok false) /\
       champion_profile_file w' = Some (profile best)).
Proof.
  split; [apply iteration_keeps_best|].
  intros args w code w' Hmain.
  unfold main in Hmain.
  apply bind_Ok_inv in Hmain as (s & w0 & Hinit & Hmain).
  unfold try_finally in Hmain.
  destruct (session_body args s w0) as [[code'|e] w1] eqn:Hbody;
    cbn [restore_unless_success] in Hmain; unfold ret, modify in Hmain;
    [|discriminate].
  injection Hmain as -> ->.
  unfold session_body in Hbody.
  apply bind_Ok_inv in Hbody as (st & w2 & Hloop & Hfin).
  pose proof (init_session_files _ _ _ _ Hinit) as Hfiles.
  destruct (init_anchors _ _ _ _ Hinit)
    as (sig & sources & _ & _ & _ & _ & _ & Hnone & _).
  destruct (run_iterations_keeps_best _ _ _ _ _ _ _ _ Hloop) as [[_ Hbest] _].
  { unfold best_tracks, evaluated_rows. rewrite Hnone, Hfiles. cbn. by split. }
  pose proof (finalize_rows _ _ _ _ _ _ Hfin) as Hrows.
  apply finalize_inv in Hfin as (_ & Hchamp & _ & summary & _ & _ & Hsome).
  rewrite Hsome in Hbest. destruct Hbest as (Hin & Hprof & Htop).
  exists (summary_best summary). rewrite Hrows, Hchamp, Hprof. auto.
Qed.
End GlobalBest.

Lemma global_best_tracking_witness :
  (forall w, outcome_nan_free (@benchmark Scenario.stay_env w) = true) /\
  Scenario.stay_run = (Ok 0, snd Scenario.stay_run) /\
  exists best,
    best ∈ evaluated_rows (snd Scenario.stay_run) /\
    (forall row, row ∈ evaluated_rows (snd Scenario.stay_run) ->
       better_than row best (selection_metric Scenario.stay_args) = Ok false) /\
    champion_profile_file (snd Scenario.stay_run) = Some (profile best).
Proof.
  assert (forall w, outcome_nan_free (@benchmark Scenario.stay_env w) = true) as Hnan.
  { intros w. change (outcome_nan_free (Scenario.prefers Scenario.defaults w) = true).
    unfold Scenario.prefers.
    destruct (decide (active_profile_file w = Some Scenario.defaults));
      vm_compute; reflexivity. }
  assert (returns Scenario.stay_run = true) as Hret by (vm_compute; reflexivity).
  assert (returned Scenario.stay_run 1 = 0) as Hcode by (vm_compute; reflexivity).
  pose proof (returns_eq Scenario.stay_run 1 Hret) as Hrun. rewrite Hcode in Hrun.
  split; [exact Hnan|]. split; [exact Hrun|].
  destruct (@global_best_tracking Scenario.stay_env Hnan) as [_ Hmain].
  exact (Hmain Scenario.stay_args Scenario.stay_world 0 (snd Scenario.stay_run) Hrun).
Defined.

(** C5 as stated fails: when the benchmark reports NaN, the global best
    is not the best evaluated candidate.  In this session of two
    iterations of two candidates the first iteration leaves a global best
    that scored 3; in the second the incumbent's run reports NaN and the
    other candidate scores 5.  Sorting the two rows compares them once,
    the NaN row is not less than the other and stays first, and it is
    neither better than its own row nor than the global best; so [main]
    returns with the champion that scored 3 although a row that scored 5,
    strictly better under the metric, was evaluated. *)
Lemma global_best_misses_better_row :
  fst Scenario.nan_run = Ok 0 /\
  Exists (fun row => F64.is_nan (avg_score row) = true)
         (evaluated_rows (snd Scenario.nan_run)) /\
  (summary_best <$> session_summary (snd Scenario.nan_run)) = Some Scenario.nan_best /\
  avg_score Scenario.nan_best = F64.dec 3 0 /\
  champion_profile_file (snd Scenario.nan_run) = Some (profile Scenario.nan_best) /\
  Scenario.nan_better ∈ evaluated_rows (snd Scenario.nan_run) /\
  avg_score Scenario.nan_better = F64.dec 5 0 /\
  better_than Scenario.nan_better Scenario.nan_best
              (selection_metric (Scenario.args_with 2 None)) = Ok true /\
  champion_profile_file (snd Scenario.nan_run) <> Some (profile Scenario.nan_better).
Proof.
  split; [|split; [|split; [|split; [|split; [|split; [|split; [|split]]]]]]].
  all: apply (bool_decide_unpack _); vm_compute; exact I.
Qed.

(** ** Entering and leaving a session *)

Section Entry.
Context `{Environment}.

(** The phases of a run of [main] that returned normally. *)
Lemma main_Ok_inv (args : Args) w code w' :
  main args w = (Ok code, w') ->
  exists s w0 st w1,
    init args w = (Ok s, w0) /\
    run_iterations args (anchor_profiles s) (session_dir s) (initial_state s)
                   (iteration_range args) w0 = (Ok st, w1) /\
    finalize args s st w1 = (Ok code, w').
Proof.
  unfold main. intros (s & w0 & Hinit & Hmain)%bind_Ok_inv.
  unfold try_finally in Hmain.
  destruct (session_body args s w0) as [[code'|e] w1] eqn:Hbody;
    cbn [restore_unless_success] in Hmain; unfold ret, modify in Hmain;
    [|discriminate].
  injection Hmain as -> ->.
  unfold session_body in Hbody.
  apply bind_Ok_inv in Hbody as (st & w2 & Hloop & Hfin).
  exists s, w0, st, w2. auto.
Qed.

Lemma init_session_dir (args : Args) (w : World) s w0 :
  init args w = (Ok s, w0) ->
  session_dir s = ("codex-tuner/runs/" +:+ session_name w)%string.
Proof.
  unfold init, require, load_profile.
  unfold bind, get, modify, ret, raise, lift.
  intros Hrun.
  repeat run_step Hrun.
  all: cbv beta iota zeta in Hrun; try discriminate Hrun.
  all: injection Hrun as <- <-.
  all: reflexivity.
Qed.

(** X1: a count out of range ([--iterations] below 1, [--candidates]
    below 2, [--max-frames] below 1) makes [main] raise [ValueError]
    before it reads or writes anything. *)
Theorem main_rejects_bad_counts (args : Args) (w : World) :
  iterations args < 1 \/ candidates args < 2 \/ max_frames args < 1 ->
  main args w = (Raise ValueError, w) /\ exit_code (fst (main args w)) = 1.
Proof.
  intros Hbad.
  assert (main args w = (Raise ValueError, w)) as Hmain.
  { unfold main, init, require.
    unfold bind at 1. unfold bind at 1.
    destruct (Z.ltb_spec (iterations args) 1); [reflexivity|].
    cbn [negb]. unfold ret at 1. unfold bind at 1.
    destruct (Z.ltb_spec (candidates args) 2); [reflexivity|].
    cbn [negb]. unfold ret at 1. unfold bind at 1.
    destruct (Z.ltb_spec (max_frames args) 1); [reflexivity|]. lia. }
  by rewrite Hmain.
Qed.

(** X2: with counts in range, a missing seeds file or a missing base
    profile makes [main] raise [FileNotFoundError] before it writes
    anything, whatever else exists. *)
Theorem main_requires_sources (args : Args) (w : World) :
  1 <= iterations args -> 2 <= candidates args -> 1 <= max_frames args ->
  seeds_file_exists w = false \/ base_profile_file w = None ->
  main args w = (Raise FileNotFoundError, w).
Proof.
  intros Hi Hc Hm Hmissing.
  unfold main, init, require.
  unfold bind at 1. unfold bind at 1.
  destruct (Z.ltb_spec (iterations args) 1); [lia|].
  cbn [negb]. unfold ret at 1. unfold bind at 1.
  destruct (Z.ltb_spec (candidates args) 2); [lia|].
  cbn [negb]. unfold ret at 1. unfold bind at 1.
  destruct (Z.ltb_spec (max_frames args) 1); [lia|].
  cbn [negb]. unfold ret at 1. unfold bind at 1. unfold get at 1.
  unfold bind at 1.
  destruct (seeds_file_exists w); [|reflexivity].
  unfold ret at 1. unfold bind at 1.
  destruct Hmissing as [[=]| ->]. reflexivity.
Qed.

(** X3: with counts in range and the seeds file and base profile in
    place, a session directory that already exists makes [main] raise
    [FileExistsError]; no benchmark has run and no session file is
    written, and the active profile is untouched unless it was missing,
    in which case it has been seeded. *)
Theorem main_requires_fresh_session_dir (args : Args) (w : World) :
  1 <= iterations args -> 2 <= candidates args -> 1 <= max_frames args ->
  seeds_file_exists w = true -> is_Some (base_profile_file w) ->
  session_dir_exists w = true ->
  exists w',
    main args w = (Raise FileExistsError, w') /\
    bench_log w' = bench_log w /\
    session_files w' = session_files w /\
    champion_profile_file w' = champion_profile_file w /\
    match active_profile_file w with
    | Some _ => w' = w
    | None => exists seed, pre_session_active w = Ok seed /\ w' = set_active seed w
    end.
Proof.
  intros Hi Hc Hm Hseeds [base Hbase] Hdir.
  unfold main, init, require, pre_session_active.
  unfold bind at 1. unfold bind at 1.
  destruct (Z.ltb_spec (iterations args) 1); [lia|].
  cbn [negb]. unfold ret at 1. unfold bind at 1.
  destruct (Z.ltb_spec (candidates args) 2); [lia|].
  cbn [negb]. unfold ret at 1. unfold bind at 1.
  destruct (Z.ltb_spec (max_frames args) 1); [lia|].
  cbn [negb]. unfold ret at 1. unfold bind at 1. unfold get at 1.
  unfold bind at 1. rewrite Hseeds. unfold ret at 1. unfold bind at 1.
  rewrite Hbase. rewrite bool_decide_eq_true_2 by eauto.
  unfold ret at 1. unfold bind at 1.
  destruct (active_profile_file w) as [active|] eqn:Hactive.
  - unfold ret at 1. unfold bind at 1. rewrite Hdir. cbn [negb].
    unfold raise at 1. exists w. done.
  - unfold load_profile.
    assert (exists raw,
              match champion_profile_file w with
              | Some p => Some p
              | None => Some base
              end = Some raw) as [raw Hraw]
      by (destruct (champion_profile_file w); eauto).
    rewrite Hraw.
    destruct (normalize_profile_lookup raw) as (seed & Hseed & _).
    unfold bind at 1. unfold ret at 1. unfold bind at 1. unfold lift at 1.
    rewrite Hseed. unfold modify at 1. unfold bind at 1.
    rewrite Hdir. cbn [negb]. unfold raise at 1.
    exists (set_active seed w).
    repeat (split; [reflexivity|]).
    exists seed. split; [|reflexivity].
    destruct (champion_profile_file w); injection Hraw as ->; exact Hseed.
Qed.

Lemma finalize_install (args : Args) (s : Session) (st : SearchState) w code w' :
  finalize args s st w = (Ok code, w') ->
  champion_profile_file w' = Some (global_best_profile st) /\
  active_profile_file w'
    = Some (if decide (install_mode args = "champion")
            then global_best_profile st else old_profile s) /\
  latest_session w' = Some (session_dir s) /\
  bench_log w' = bench_log w /\
  exists summary,
    SessionSummary summary ∈ session_files w' /\
    summary_history summary = history st /\
    summary_iterations summary = iterations args /\
    summary_candidates summary = candidates args.
Proof.
  unfold finalize. unfold bind, get, modify, ret, raise, lift.
  intros Hrun.
  repeat run_step Hrun.
  all: cbv beta iota zeta in Hrun; try discriminate Hrun.
  all: injection Hrun as <- <-.
  all: cbn [champion_profile_file active_profile_file latest_session bench_log
            session_files set_active set_champion add_session_file
            set_latest_session].
  all: repeat (split; [reflexivity|]).
  all: eexists; split;
    [rewrite !elem_of_app, !list_elem_of_singleton; right; reflexivity|].
  all: repeat split.
Qed.

(** X4: when [main] returns, the install policy decides the active
    profile: with [--install-mode champion] it is the committed champion,
    otherwise the normalized pre-session snapshot; and the latest-session
    pointer names the session directory. *)
Theorem install_mode_policy (args : Args) (w : World) code w' :
  main args w = (Ok code, w') ->
  (install_mode args = "champion"%string ->
   active_profile_file w' = champion_profile_file w') /\
  (install_mode args <> "champion"%string ->
   exists old, snapshot w = Ok old /\ active_profile_file w' = Some old) /\
  latest_session w' = Some ("codex-tuner/runs/" +:+ session_name w)%string.
Proof.
  intros (s & w0 & st & w1 & Hinit & _ & Hfin)%main_Ok_inv.
  pose proof (init_session_dir _ _ _ _ Hinit) as Hdir.
  apply init_inv in Hinit as [Hsnap _].
  apply finalize_install in Hfin as (Hchamp & Hactive & Hlatest & _).
  rewrite Hactive, Hchamp, Hlatest, Hdir.
  split; [|split; [|reflexivity]].
  - intros Hmode. by rewrite decide_True.
  - intros Hmode. rewrite decide_False by done. eauto.
Qed.
End Entry.

Lemma main_rejects_bad_counts_witness :
  iterations (Scenario.args_with 0 None) < 1 /\
  @main Scenario.stay_env (Scenario.args_with 0 None) Scenario.stay_world
    = (Raise ValueError, Scenario.stay_world).
Proof.
  assert (iterations (Scenario.args_with 0 None) < 1) as Hbad by (cbn; lia).
  split; [exact Hbad|].
  exact (proj1 (@main_rejects_bad_counts Scenario.stay_env (Scenario.args_with 0 None)
                  Scenario.stay_world (or_introl Hbad))).
Defined.

Lemma main_requires_sources_witness :
  @main Scenario.stay_env Scenario.stay_args (Scenario.without_base Scenario.stay_world)
    = (Raise FileNotFoundError, Scenario.without_base Scenario.stay_world).
Proof.
  apply (@main_requires_sources Scenario.stay_env).
  - cbn. lia.
  - cbn. lia.
  - cbn. lia.
  - right. reflexivity.
Defined.

Lemma main_requires_fresh_session_dir_witness :
  exists w',
    @main Scenario.stay_env Scenario.stay_args (make_session_dir Scenario.stay_world)
      = (Raise FileExistsError, w') /\
    bench_log w' = bench_log (make_session_dir Scenario.stay_world).
Proof.
  destruct (@main_requires_fresh_session_dir Scenario.stay_env Scenario.stay_args
              (make_session_dir Scenario.stay_world))
    as (w' & Hmain & Hlog & _).
  - cbn. lia.
  - cbn. lia.
  - cbn. lia.
  - reflexivity.
  - cbn. eauto.
  - reflexivity.
  - exists w'. split; [exact Hmain|exact Hlog].
Defined.

Lemma install_mode_policy_witness :
  Scenario.stay_run = (Ok 0, snd Scenario.stay_run) /\
  active_profile_file (snd Scenario.stay_run)
    = champion_profile_file (snd Scenario.stay_run).
Proof.
  assert (returns Scenario.stay_run = true) as Hret by (vm_compute; reflexivity).
  assert (returned Scenario.stay_run 1 = 0) as Hcode by (vm_compute; reflexivity).
  pose proof (returns_eq Scenario.stay_run 1 Hret) as Hrun. rewrite Hcode in Hrun.
  split; [exact Hrun|].
  destruct (@install_mode_policy Scenario.stay_env Scenario.stay_args
              Scenario.stay_world 0 (snd Scenario.stay_run) Hrun) as (Hchamp & _).
  apply Hchamp. reflexivity.
Defined.

(** ** Evaluation and ranking *)

Section Protocol.
Context `{Environment}.

(** X5: the evaluation loop that returns has run the benchmark exactly
    once per candidate, in order, each time with the active profile
    holding that candidate's profile; it appends one row per candidate,
    numbered consecutively, with the candidate's profile and strategy;
    and it leaves the active profile holding the last candidate. *)
Theorem evaluation_protocol (args : Args) iter iter_dir specs :
  forall idx results w rows w',
  evaluate_candidates args iter iter_dir idx specs results w = (Ok rows, w') ->
  exists new entries,
    rows = results ++ new /\
    map profile new = map fst specs /\
    map strategy new = map snd specs /\
    map candidate new = seqZ idx (Z.of_nat (length specs)) /\
    Forall (fun row => iteration row = iter) new /\
    bench_log w' = bench_log w ++ entries /\
    map fst entries = map (fun spec => Some (fst spec)) specs /\
    active_profile_file w'
      = match last specs with
        | Some spec => Some (fst spec)
        | None => active_profile_file w
        end.
Proof.
  induction specs as [|spec rest IH]; intros idx results w rows w';
    cbn [evaluate_candidates].
  - intros [= <- <-]. exists [], []. rewrite !app_nil_r. repeat split. constructor.
  - intros (row & w0 & Hone & Hrest)%bind_Ok_inv.
    rewrite evaluate_candidate_spec in Hone.
    assert (w0 = world_after_benchmark iter idx (fst spec) w) as -> by congruence.
    assert (profile row = fst spec /\ strategy row = snd spec /\
            candidate row = idx /\ iteration row = iter) as (Hp & Hs & Hc & Hi).
    { destruct (benchmark _) as [|rk|]; [| |discriminate].
      - injection Hone as <-. repeat split.
      - destruct (find _ rk); [|discriminate]. injection Hone as <-. repeat split. }
    destruct (IH _ _ _ _ _ Hrest)
      as (new & entries & -> & Hprof & Hstrat & Hcand & Hiter & Hlog & Hent & Hact).
    exists (row :: new),
      ((Some (fst spec), benchmark (world_at_benchmark iter idx (fst spec) w)) :: entries).
    rewrite <- app_assoc. split; [reflexivity|].
    cbn [map length]. rewrite Hprof, Hstrat, Hcand, Hp, Hs, Hc, Hent.
    repeat (split; [reflexivity|]).
    split; [|split; [by constructor|split; [|split; [reflexivity|]]]].
    + rewrite Nat2Z.inj_succ. rewrite (seqZ_cons idx) by lia.
      by rewrite Z.pred_succ.
    + rewrite Hlog. unfold world_after_benchmark, world_at_benchmark.
      cbn [bench_log log_bench set_active add_session_file active_profile_file].
      by rewrite <- app_assoc.
    + rewrite Hact, (last_cons spec rest). by destruct (last rest).
Qed.
End Protocol.

(** Descending order is kept by insertion. *)
Lemma insert_desc_sorted {A} (x : MetricTuple * A) l :
  nan_free (tuple_items (fst x)) ->
  Forall (fun y => nan_free (tuple_items (fst y))) l ->
  StronglySorted (fun a b => tuple_lt (fst a) (fst b) = false) l ->
  StronglySorted (fun a b => tuple_lt (fst a) (fst b) = false) (insert_desc x l).
Proof.
  intros Hx Hl Hs. induction Hs as [|y l Hs IH Hy]; cbn [insert_desc].
  - repeat constructor.
  - apply Forall_cons in Hl as [Hny Hnl].
    destruct (tuple_lt (fst x) (fst y)) eqn:Elt.
    + constructor; [by apply IH|].
      rewrite insert_desc_perm. constructor; [by apply tuple_lt_asym|exact Hy].
    + constructor; [by constructor|].
      constructor; [exact Elt|].
      apply Forall_forall. intros z Hz.
      apply (tuple_lt_negtrans _ (fst y)); auto.
      * exact (proj1 (Forall_forall _ _) Hnl _ Hz).
      * exact (proj1 (Forall_forall _ _) Hy _ Hz).
Qed.

Lemma sort_desc_sorted {A} (l : list (MetricTuple * A)) :
  Forall (fun y => nan_free (tuple_items (fst y))) l ->
  StronglySorted (fun a b => tuple_lt (fst a) (fst b) = false) (sort_desc l).
Proof.
  induction l as [|x l IH]; intros Hl; cbn [sort_desc]; [constructor|].
  apply Forall_cons in Hl as [Hx Hl].
  apply insert_desc_sorted; [exact Hx| |by apply IH].
  by rewrite sort_desc_perm.
Qed.

(** X6: the ranked rows are a rearrangement of the evaluated rows, and,
    the metrics being numbers, they are in descending order: no row is
    strictly better under the metric than a row ranked before it. *)
Theorem leaderboard_sorted metric rows ranked :
  sort_results metric rows = Ok ranked ->
  Forall (fun row => row_nan_free row = true) rows ->
  ranked ≡ₚ rows /\
  forall (i j : nat) ri rj,
    (i < j)%nat -> ranked !! i = Some ri -> ranked !! j = Some rj ->
    better_than rj ri metric = Ok false.
Proof.
  unfold sort_results.
  intros (keyed & Hkeyed & [= <-])%result_bind_Ok_inv Hnan.
  destruct (with_keys_spec _ _ _ Hkeyed) as [Hmap Hall].
  split; [by rewrite sort_desc_perm, Hmap|].
  assert (Forall (fun y => nan_free (tuple_items (fst y))) keyed) as Hknan.
  { apply Forall_forall. intros [k r] Hin.
    pose proof (proj1 (Forall_forall _ _) Hall _ Hin) as Hk. cbn [fst snd] in *.
    apply (metric_tuple_nan_free r metric); [|exact Hk].
    apply (proj1 (Forall_forall _ _) Hnan). rewrite <- Hmap.
    apply list_elem_of_fmap. by exists (k, r). }
  pose proof (sort_desc_sorted keyed Hknan) as Hsorted.
  assert (Forall (fun kr => metric_tuple (snd kr) metric = Ok (fst kr)) (sort_desc keyed))
    as Hall' by (by rewrite sort_desc_perm).
  revert Hsorted Hall'. generalize (sort_desc keyed). clear.
  intros l Hsorted Hall i j ri rj Hij Hi Hj.
  rewrite list_lookup_fmap in Hi, Hj.
  destruct (l !! i) as [[ki ri']|] eqn:Ei; [|discriminate]. injection Hi as ->.
  destruct (l !! j) as [[kj rj']|] eqn:Ej; [|discriminate]. injection Hj as ->.
  pose proof (proj1 (Forall_forall _ _) Hall _ (list_elem_of_lookup_2 _ _ _ Ei)) as Hki.
  pose proof (proj1 (Forall_forall _ _) Hall _ (list_elem_of_lookup_2 _ _ _ Ej)) as Hkj.
  cbn [fst snd] in *.
  rewrite (better_than_intro _ _ _ _ _ Hkj Hki). f_equal.
  revert i j Hij Ei Ej. induction Hsorted as [|y l Hs IH Hy]; intros i j Hij Ei Ej.
  - by rewrite lookup_nil in Ei.
  - apply Forall_cons in Hall as [_ Hall].
    destruct j as [|j]; [lia|]. cbn in Ej.
    destruct i as [|i].
    + injection Ei as ->.
      exact (proj1 (Forall_forall _ _) Hy _ (list_elem_of_lookup_2 _ _ _ Ej)).
    + cbn in Ei. apply (IH Hall i j); [lia|done|done].
Qed.

Lemma leaderboard_sorted_witness :
  sort_results "score" Scenario.unranked_rows
    = Ok [Scenario.scored_row; Scenario.middling_row; Scenario.failed_row] /\
  better_than Scenario.failed_row Scenario.scored_row "score" = Ok false.
Proof.
  assert (sort_results "score" Scenario.unranked_rows
          = Ok [Scenario.scored_row; Scenario.middling_row; Scenario.failed_row]) as Hsort
    by (apply (bool_decide_unpack _); vm_compute; exact I).
  split; [exact Hsort|].
  assert (Forall (fun row => row_nan_free row = true) Scenario.unranked_rows) as Hnan
    by (repeat constructor).
  destruct (leaderboard_sorted _ _ _ Hsort Hnan) as [_ Horder].
  exact (Horder 0%nat 2%nat Scenario.scored_row Scenario.failed_row
           ltac:(lia) eq_refl eq_refl).
Defined.

Lemma evaluation_protocol_witness :
  Scenario.stay_evaluation
    = (Ok (returned Scenario.stay_evaluation []), snd Scenario.stay_evaluation) /\
  map profile (returned Scenario.stay_evaluation []) = map fst Scenario.stay_specs /\
  length (bench_log (snd Scenario.stay_evaluation)) = 2%nat.
Proof.
  assert (returns Scenario.stay_evaluation = true) as Hret by (vm_compute; reflexivity).
  pose proof (returns_eq Scenario.stay_evaluation [] Hret) as Hrun.
  split; [exact Hrun|].
  destruct (@evaluation_protocol Scenario.stay_env _ _ _ _ _ _ _ _ _ Hrun)
    as (new & entries & Hrows & Hprof & _ & _ & _ & Hlog & Hent & _).
  cbn [app] in Hrows. rewrite Hrows. split; [exact Hprof|].
  rewrite Hlog, length_app.
  change (length (bench_log Scenario.stay_world)) with 0%nat.
  rewrite <- (length_map fst entries), Hent, length_map. vm_compute. reflexivity.
Defined.

(** ** The order behind [better_than] *)

Lemma lt_not_nan x y :
  F64.lt x y = true -> F64.is_nan x = false /\ F64.is_nan y = false.
Proof. by destruct x as [?|?| |? ? ?], y as [?|?| |? ? ?]. Qed.

Lemma gt_not_eq x y : F64.gt x y = true -> F64.eq x y = false.
Proof.
  unfold F64.gt. intros Hgt.
  destruct (lt_not_nan _ _ Hgt) as [Hy Hx].
  rewrite float_trichotomy by assumption.
  unfold F64.lt. rewrite Hgt. apply andb_false_r.
Qed.

(** X7: on rows whose metrics are numbers, [better_than] is a strict weak
    order under each metric: no row is better than itself, two rows are
    never each better than the other, "better" is transitive, and so is
    "not better". *)
Theorem better_than_strict_order (a b c : CandidateResult) metric :
  row_nan_free a = true -> row_nan_free b = true -> row_nan_free c = true ->
  better_than a a metric <> Ok true /\
  (better_than a b metric = Ok true -> better_than b a metric = Ok false) /\
  (better_than a b metric = Ok true -> better_than b c metric = Ok true ->
   better_than a c metric = Ok true) /\
  (better_than a b metric = Ok false -> better_than b c metric = Ok false ->
   better_than a c metric = Ok false).
Proof.
  intros Ha Hb Hc.
  split; [|split; [|split]].
  - intros (ka & ka' & Hka & Hka' & Hlt)%better_than_inv.
    assert (ka' = ka) as -> by congruence.
    by rewrite tuple_lt_irrefl in Hlt.
  - intros (ka & kb & Hka & Hkb & Hlt)%better_than_inv.
    rewrite (better_than_intro _ _ _ _ _ Hkb Hka). f_equal.
    apply tuple_lt_asym; eauto using metric_tuple_nan_free.
  - intros (ka & kb & Hka & Hkb & Hab)%better_than_inv
           (kb' & kc & Hkb' & Hkc & Hbc)%better_than_inv.
    assert (kb' = kb) as -> by congruence.
    rewrite (better_than_intro _ _ _ _ _ Hka Hkc). f_equal.
    pose proof (metric_tuple_nan_free _ _ _ Ha Hka) as Na.
    pose proof (metric_tuple_nan_free _ _ _ Hb Hkb) as Nb.
    pose proof (metric_tuple_nan_free _ _ _ Hc Hkc) as Nc.
    destruct (tuple_lt kc ka) eqn:Eca; [reflexivity|exfalso].
    assert (tuple_lt ka kb = false) as Hba by (by apply tuple_lt_asym).
    pose proof (tuple_lt_negtrans kc ka kb Nc Na Nb Eca Hba) as Hcb. congruence.
  - intros (ka & kb & Hka & Hkb & Hab)%better_than_inv
           (kb' & kc & Hkb' & Hkc & Hbc)%better_than_inv.
    assert (kb' = kb) as -> by congruence.
    rewrite (better_than_intro _ _ _ _ _ Hka Hkc). f_equal.
    apply (tuple_lt_negtrans kc kb ka); eauto using metric_tuple_nan_free.
Qed.

Lemma better_than_strict_order_witness :
  better_than Scenario.scored_row Scenario.middling_row "score" = Ok true /\
  better_than Scenario.middling_row Scenario.failed_row "score" = Ok true /\
  better_than Scenario.scored_row Scenario.failed_row "score" = Ok true.
Proof.
  assert (better_than Scenario.scored_row Scenario.middling_row "score" = Ok true) as H1
    by (vm_compute; reflexivity).
  assert (better_than Scenario.middling_row Scenario.failed_row "score" = Ok true) as H2
    by (vm_compute; reflexivity).
  split; [exact H1|]. split; [exact H2|].
  destruct (better_than_strict_order Scenario.scored_row Scenario.middling_row
              Scenario.failed_row "score" eq_refl eq_refl eq_refl) as (_ & _ & Htrans & _).
  exact (Htrans H1 H2).
Defined.

(** X8: what each selection metric ranks by.  A strictly greater
    objective value decides under "objective", a strictly greater average
    score under "score", a strictly greater maximum score (as a float)
    under "insane", whatever the other fields hold; when the first fields
    are equal the second decides: the average score under "objective" and
    "insane", the maximum score under "score". *)
Theorem metric_priority (a b : CandidateResult) ma mb :
  F64.of_int (max_score a) = Ok ma ->
  F64.of_int (max_score b) = Ok mb ->
  (F64.gt (objective_value a) (objective_value b) = true ->
   better_than a b "objective" = Ok true) /\
  (F64.gt (avg_score a) (avg_score b) = true ->
   better_than a b "score" = Ok true) /\
  (F64.gt ma mb = true -> better_than a b "insane" = Ok true) /\
  (F64.eq (objective_value a) (objective_value b) = true ->
   F64.gt (avg_score a) (avg_score b) = true ->
   better_than a b "objective" = Ok true) /\
  (F64.eq (avg_score a) (avg_score b) = true -> F64.gt ma mb = true ->
   better_than a b "score" = Ok true) /\
  (F64.eq ma mb = true -> F64.gt (avg_score a) (avg_score b) = true ->
   better_than a b "insane" = Ok true).
Proof.
  intros Ha Hb. unfold better_than, metric_tuple.
  rewrite Ha, Hb. cbn [mbind result_mbind result_bind].
  repeat split.
  all: rewrite ?decide_True by reflexivity.
  all: rewrite ?(decide_False (P := "score"%string = "objective"%string)) by done.
  all: rewrite ?(decide_False (P := "insane"%string = "objective"%string)) by done.
  all: rewrite ?(decide_False (P := "insane"%string = "score"%string)) by done.
  all: rewrite ?decide_True by reflexivity.
  all: cbn [mbind result_mbind result_bind]; unfold tuple_gt, tuple_items;
    cbn [items_cmp].
  1-3: intros Hgt; by rewrite (gt_not_eq _ _ Hgt), Hgt.
  all: intros -> Hgt; by rewrite (gt_not_eq _ _ Hgt), Hgt.
Qed.

Lemma metric_priority_witness :
  better_than Scenario.middling_row Scenario.scored_row "insane" = Ok true /\
  better_than Scenario.scored_row Scenario.middling_row "score" = Ok true.
Proof.
  destruct (metric_priority Scenario.middling_row Scenario.scored_row
              (F64.dec 9 0) (F64.dec 7 0)) as (_ & _ & Hmax & _).
  - vm_compute. reflexivity.
  - vm_compute. reflexivity.
  - destruct (metric_priority Scenario.scored_row Scenario.middling_row
                (F64.dec 7 0) (F64.dec 9 0)) as (_ & Hscore & _).
    + vm_compute. reflexivity.
    + vm_compute. reflexivity.
    + split; [apply Hmax|apply Hscore]; vm_compute; reflexivity.
Defined.

(** ** How many candidates an iteration generates *)

Lemma ends_with_bind {S A B} (P : S -> Prop) (m : M S A) (k : A -> M S B) :
  (forall a, ends_with P (k a)) -> ends_with P (bind m k).
Proof. intros Hk s b s' (a & s1 & _ & H2)%bind_Ok_inv. eapply Hk, H2. Qed.

Section Counting.
Context `{Environment}.

Lemma grows_by_refl k g : grows_by k g g.
Proof. exists []. rewrite app_nil_r. split; [reflexivity|cbn; lia]. Qed.

Lemma grows_by_trans k1 k2 g1 g2 g3 :
  grows_by k1 g1 g2 -> grows_by k2 g2 g3 -> grows_by (k1 + k2) g1 g3.
Proof.
  intros (e1 & H1 & L1) (e2 & H2 & L2). exists (e1 ++ e2).
  rewrite H2, H1, <- app_assoc, length_app. split; [reflexivity|lia].
Qed.

Lemma adds_ret {A} k (a : A) : adds_at_most k (ret a).
Proof. intros g r g' [= <- <-]. apply grows_by_refl. Qed.

Lemma adds_raise {A} k e : adds_at_most k (raise (A := A) e).
Proof. intros g r g' [= <- <-]. apply grows_by_refl. Qed.

Lemma adds_lift {A} k (x : result A) : adds_at_most k (lift x).
Proof. intros g r g' [= <- <-]. apply grows_by_refl. Qed.

Lemma adds_get k : adds_at_most k get.
Proof. intros g r g' [= <- <-]. apply grows_by_refl. Qed.

Lemma adds_with_rng {A} k (m : M rng_t A) : adds_at_most k (with_rng m).
Proof.
  intros g r g'. unfold with_rng. destruct (m (gen_rng g)) as [r0 rng'].
  intros [= <- <-]. exists []. cbn [candidate_specs]. rewrite app_nil_r.
  split; [reflexivity|cbn; lia].
Qed.

Lemma adds_bind {A B} k1 k2 (m : M GenState A) (f : A -> M GenState B) :
  adds_at_most k1 m -> (forall a, adds_at_most k2 (f a)) ->
  adds_at_most (k1 + k2) (bind m f).
Proof.
  intros Hm Hf g r g' [(a & g1 & H1 & H2)|(e & H1 & _)]%bind_inv.
  - eapply grows_by_trans; [eapply Hm, H1|eapply Hf, H2].
  - destruct (Hm _ _ _ H1) as (extra & Hx & Hl). exists extra. split; [exact Hx|lia].
Qed.

Lemma adds_bind_00 {A B} (m : M GenState A) (f : A -> M GenState B) :
  adds_at_most 0 m -> (forall a, adds_at_most 0 (f a)) -> adds_at_most 0 (bind m f).
Proof. apply (adds_bind 0 0). Qed.

Lemma adds_bind_01 {A B} (m : M GenState A) (f : A -> M GenState B) :
  adds_at_most 0 m -> (forall a, adds_at_most 1 (f a)) -> adds_at_most 1 (bind m f).
Proof. apply (adds_bind 0 1). Qed.

Lemma adds_bind_10 {A B} (m : M GenState A) (f : A -> M GenState B) :
  adds_at_most 1 m -> (forall a, adds_at_most 0 (f a)) -> adds_at_most 1 (bind m f).
Proof. apply (adds_bind 1 0). Qed.

Lemma adds_for_eachM {A B} (f : B -> A -> M GenState B) xs acc :
  (forall b x, adds_at_most 0 (f b x)) -> adds_at_most 0 (for_eachM f xs acc).
Proof.
  intros Hf. revert acc. induction xs as [|x xs IH]; intros acc; cbn [for_eachM].
  - apply adds_ret.
  - apply adds_bind_00; [apply Hf|]. intros b. apply IH.
Qed.

Lemma adds_push profile strategy : adds_at_most 1 (push_candidate profile strategy).
Proof.
  intros g r g'. rewrite push_candidate_spec.
  destruct (normalize_profile profile) as [normalized|];
    [|intros [= <- <-]; apply grows_by_refl].
  destruct (profile_signature normalized) as [sig|];
    [|intros [= <- <-]; apply grows_by_refl].
  destruct (decide (sig ∈ seen g)); intros [= <- <-]; [apply grows_by_refl|].
  exists [(normalized, strategy)]. split; [reflexivity|cbn; lia].
Qed.

Lemma adds_has_room k args : adds_at_most k (has_room args).
Proof. intros g r g' [= <- <-]. apply grows_by_refl. Qed.

(** Steps of a generation program that accept nothing. *)
Ltac adds0 :=
  cbv beta zeta;
  lazymatch goal with
  | |- adds_at_most 0 (bind _ _) => apply adds_bind_00; [adds0|intros ?; adds0]
  | |- adds_at_most 0 (ret _) => apply adds_ret
  | |- adds_at_most 0 (raise _) => apply adds_raise
  | |- adds_at_most 0 (lift _) => apply adds_lift
  | |- adds_at_most 0 (with_rng _) => apply adds_with_rng
  | |- adds_at_most 0 (for_eachM _ _ _) => apply adds_for_eachM; intros ? ?; adds0
  | |- adds_at_most 0 (match ?x with _ => _ end) => destruct x; adds0
  end.

(** A strategy: draws and arithmetic, then one [push_candidate]. *)
Ltac adds1 :=
  cbv beta zeta;
  lazymatch goal with
  | |- adds_at_most 1 (bind (push_candidate _ _) _) =>
      apply adds_bind_10; [apply adds_push|intros ?; adds0]
  | |- adds_at_most 1 (bind _ _) => apply adds_bind_01; [adds0|intros ?; adds1]
  | |- adds_at_most 1 (match ?x with _ => _ end) => destruct x; adds1
  end.

Lemma adds_when_room args cond body :
  adds_at_most 1 body -> adds_at_most 1 (when_room args cond body).
Proof.
  intros Hbody. unfold when_room. destruct cond; [|apply adds_ret].
  apply adds_bind_01; [apply adds_has_room|].
  intros []; [exact Hbody|apply adds_ret].
Qed.

Lemma adds_mutate_attempt args incumbent stagnation search_step :
  adds_at_most 1 (mutate_attempt args incumbent stagnation search_step).
Proof. unfold mutate_attempt. adds1. Qed.

Lemma adds_mutate_loop budget args incumbent stagnation search_step :
  adds_at_most budget (mutate_loop budget args incumbent stagnation search_step).
Proof.
  induction budget as [|budget IH]; cbn [mutate_loop]; [apply adds_ret|].
  apply (adds_bind 0 (S budget)); [apply adds_has_room|].
  intros []; [|apply adds_ret].
  apply (adds_bind 1 budget); [apply adds_mutate_attempt|]. intros _. exact IH.
Qed.

Lemma capped_refl n g : capped n g g.
Proof. by split. Qed.

Lemma capped_trans n g1 g2 g3 : capped n g1 g2 -> capped n g2 g3 -> capped n g1 g3.
Proof. intros [P1 L1] [P2 L2]. split; [by etrans|auto]. Qed.

(** With room for one more, a step that accepts at most one candidate
    stays within the cap. *)
Lemma room_for_one {A} n (m : M GenState A) g r g' :
  adds_at_most 1 m -> m g = (r, g') ->
  Z.of_nat (length (candidate_specs g)) < n -> capped n g g'.
Proof.
  intros Hm Hrun Hroom. destruct (Hm _ _ _ Hrun) as (extra & Hx & Hl).
  split; [rewrite Hx; by apply prefix_app_r|].
  intros _. rewrite Hx, length_app. lia.
Qed.

Lemma capped_when_room args cond body :
  adds_at_most 1 body -> always (capped (candidates args)) (when_room args cond body).
Proof.
  intros Hbody g r g'. unfold when_room.
  destruct cond; [|intros [= <- <-]; apply capped_refl].
  cbv beta iota delta [bind has_room get ret].
  destruct (Z.ltb_spec (Z.of_nat (length (candidate_specs g))) (candidates args));
    [|intros [= <- <-]; apply capped_refl].
  intros Hrun. by eapply room_for_one.
Qed.

Lemma capped_mutate_loop budget args incumbent stagnation search_step :
  always (capped (candidates args))
         (mutate_loop budget args incumbent stagnation search_step).
Proof.
  induction budget as [|budget IH]; cbn [mutate_loop];
    [apply (always_ret _ (capped_refl _))|].
  intros g r g'. unfold bind at 1. cbv beta iota delta [bind has_room get ret].
  destruct (Z.ltb_spec (Z.of_nat (length (candidate_specs g))) (candidates args));
    [|intros [= <- <-]; apply capped_refl].
  change (bind (mutate_attempt args incumbent stagnation search_step)
            (fun _ => mutate_loop budget args incumbent stagnation search_step) g
          = (r, g') -> capped (candidates args) g g').
  intros [(a & g1 & H1 & H2)|(e & H1 & _)]%bind_inv.
  - eapply capped_trans; [|eapply IH, H2].
    eapply room_for_one; [apply adds_mutate_attempt|exact H1|done].
  - eapply room_for_one; [apply adds_mutate_attempt|exact H1|done].
Qed.

(** One syntax-directed step through the strategies of an iteration. *)
Ltac capped_step :=
  cbv beta zeta;
  lazymatch goal with
  | |- always _ (bind _ _) =>
      apply (always_bind _ (capped_trans _)); [|intros ?]
  | |- always _ (ret _) => apply (always_ret _ (capped_refl _))
  | |- always _ (raise _) => apply (always_raise _ (capped_refl _))
  | |- always _ (when_room _ _ _) => apply capped_when_room; adds1
  | |- always _ (mutate_loop _ _ _ _ _) => apply capped_mutate_loop
  | |- always _ (has_room _) =>
      intros ? ? ? [= <- <-]; apply capped_refl
  | |- always _ (match ?x with _ => _ end) => destruct x
  end.

(** A generation phase returns only with the candidate list full. *)
Lemma generate_candidates_full args anchors (st : SearchState) search_step :
  ends_with (fun g' => candidates args <= Z.of_nat (length (candidate_specs g')))
            (generate_candidates args anchors st search_step).
Proof.
  unfold generate_candidates.
  do 8 (apply ends_with_bind; intros _).
  intros g a g'. cbv beta iota delta [bind has_room get ret raise].
  destruct (Z.ltb_spec (Z.of_nat (length (candidate_specs g))) (candidates args));
    [discriminate|]. by intros [= _ <-].
Qed.

(** X9: a generation phase that returns hands over exactly
    [--candidates] candidates (the count being at least 1), and the first
    of them is the normalized incumbent, tagged "incumbent". *)
Theorem generation_fills_exactly (args : Args) anchors (st : SearchState)
    search_step specs rng' :
  1 <= candidates args ->
  run_generation args anchors st search_step = Ok (specs, rng') ->
  Z.of_nat (length specs) = candidates args /\
  exists normalized,
    normalize_profile (incumbent_profile st) = Ok normalized /\
    head specs = Some (normalized, "incumbent"%string).
Proof.
  intros Hn. unfold run_generation.
  destruct (generate_candidates _ _ _ _ _) as [[[]|e] g'] eqn:Hgen; [|discriminate].
  intros [= <- <-].
  pose proof (generate_candidates_full _ _ _ _ _ _ _ Hgen) as Hfull.
  cbv beta in Hfull.
  unfold generate_candidates in Hgen.
  apply bind_Ok_inv in Hgen as (pushed & g1 & Hpush & Htail).
  rewrite push_candidate_spec in Hpush.
  destruct (normalize_profile_lookup (incumbent_profile st)) as (normalized & Hnorm & _).
  rewrite Hnorm in Hpush.
  destruct (profile_signature normalized) as [sig|]; [|discriminate].
  cbn [seen candidate_specs gen_rng app] in Hpush.
  rewrite decide_False in Hpush by apply not_elem_of_empty.
  injection Hpush as <- <-.
  match type of Htail with
  | ?tail _ = _ => assert (always (capped (candidates args)) tail) as Hcap
  end.
  { repeat capped_step. }
  destruct (Hcap _ _ _ Htail) as [[extra Hprefix] Hlen].
  cbn [candidate_specs length] in Hprefix, Hlen.
  specialize (Hlen ltac:(lia)).
  split; [lia|]. exists normalized. split; [exact Hnorm|]. by rewrite Hprefix.
Qed.

Lemma adds_generate_candidates args anchors (st : SearchState) search_step :
  adds_at_most 327 (generate_candidates args anchors st search_step).
Proof.
  unfold generate_candidates.
  apply (adds_bind 1 326); [apply adds_push|intros _].
  apply (adds_bind 1 325);
    [destruct (momentum st); [apply adds_when_room; adds1|apply adds_ret]|intros _].
  apply (adds_bind 1 324);
    [destruct (last_gain_anchor st); [apply adds_when_room; adds1|apply adds_ret]
    |intros _].
  apply (adds_bind 1 323); [apply adds_when_room; adds1|intros _].
  apply (adds_bind 1 322); [apply adds_when_room; adds1|intros _].
  apply (adds_bind 1 321); [apply adds_when_room; adds1|intros _].
  apply (adds_bind 1 320); [apply adds_when_room; adds1|intros _].
  apply (adds_bind 320 0); [apply adds_mutate_loop|intros _].
  apply (adds_bind 0 0); [apply adds_has_room|]. intros []; [apply adds_raise|apply adds_ret].
Qed.

(** X10: one generation phase accepts at most 327 candidates (the
    incumbent, one per strategy of the six, and one per attempt of the
    320 of the mutation loop); asked for more, it never returns. *)
Theorem generation_bounded (args : Args) anchors (st : SearchState) search_step :
  (forall specs rng',
     run_generation args anchors st search_step = Ok (specs, rng') ->
     (length specs <= 327)%nat) /\
  (327 < candidates args ->
   exists e, run_generation args anchors st search_step = Raise e).
Proof.
  assert (forall specs rng',
            run_generation args anchors st search_step = Ok (specs, rng') ->
            (length specs <= 327)%nat) as Hbound.
  { intros specs rng'. unfold run_generation.
    destruct (generate_candidates _ _ _ _ _) as [[[]|e] g'] eqn:Hgen; [|discriminate].
    intros [= <- <-].
    destruct (adds_generate_candidates _ _ _ _ _ _ _ Hgen) as (extra & -> & Hl).
    cbn [candidate_specs app]. exact Hl. }
  split; [exact Hbound|].
  intros Hmany.
  destruct (run_generation args anchors st search_step) as [[specs rng']|e] eqn:Hrun;
    [|by exists e].
  pose proof (Hbound _ _ eq_refl) as Hle. exfalso.
  unfold run_generation in Hrun.
  destruct (generate_candidates _ _ _ _ _) as [[[]|e] g'] eqn:Hgen; [|discriminate].
  injection Hrun as <- <-.
  pose proof (generate_candidates_full _ _ _ _ _ _ _ Hgen) as Hfull.
  cbv beta in Hfull. cbn [candidate_specs] in Hle. lia.
Qed.
End Counting.

Lemma generation_fills_exactly_witness :
  Scenario.stay_generation = Ok (Scenario.stay_specs, tt) /\
  Z.of_nat (length Scenario.stay_specs) = candidates Scenario.stay_args /\
  exists normalized,
    normalize_profile Scenario.defaults = Ok normalized /\
    head Scenario.stay_specs = Some (normalized, "incumbent"%string).
Proof.
  assert (Scenario.stay_generation = Ok (Scenario.stay_specs, tt)) as Hgen
    by (apply (bool_decide_unpack _); vm_compute; exact I).
  split; [exact Hgen|].
  apply (@generation_fills_exactly Scenario.stay_env Scenario.stay_args []
           Scenario.stay_state (F64.dec 18 2) Scenario.stay_specs tt);
    [cbn; lia|exact Hgen].
Defined.

Lemma generation_bounded_witness :
  327 < candidates Scenario.greedy_args /\
  exists e,
    @run_generation Scenario.stay_env Scenario.greedy_args [] Scenario.stay_state
                    (F64.dec 18 2) = Raise e.
Proof.
  assert (327 < candidates Scenario.greedy_args) as Hmany by (cbn; lia).
  split; [exact Hmany|].
  exact (proj2 (@generation_bounded Scenario.stay_env Scenario.greedy_args []
                  Scenario.stay_state (F64.dec 18 2)) Hmany).
Defined.

(** ** Combining profiles *)

Lemma result_bind_Raise_inv {A B} (r : result A) (k : A -> result B) e :
  r ≫= k = Raise e -> r = Raise e \/ exists a, r = Ok a /\ k a = Raise e.
Proof. destruct r as [a|e']; [right; eauto|intros [= ->]; by left]. Qed.

(** A loop whose body keeps an invariant under which it does not fail
    returns, with the invariant. *)
Lemma for_each_Ok {A B} (I : B -> Prop) (f : B -> A -> result B) xs acc :
  I acc ->
  (forall acc x, I acc -> x ∈ xs -> exists acc', f acc x = Ok acc' /\ I acc') ->
  exists r, for_each f xs acc = Ok r /\ I r.
Proof.
  revert acc. induction xs as [|x xs IH]; intros acc Hacc Hstep; cbn [for_each].
  - eauto.
  - destruct (Hstep acc x Hacc ltac:(left)) as (acc' & -> & Hacc').
    cbn [mbind result_mbind result_bind]. apply IH; [exact Hacc'|].
    intros a y Ha Hy. apply Hstep; [exact Ha|by right].
Qed.

(** A loop that fails does so in its body, at an accumulator the
    invariant holds of. *)
Lemma for_each_Raise {A B} (I : B -> Prop) (f : B -> A -> result B) xs acc e :
  I acc ->
  (forall acc x acc', I acc -> f acc x = Ok acc' -> I acc') ->
  for_each f xs acc = Raise e ->
  exists acc' x, I acc' /\ x ∈ xs /\ f acc' x = Raise e.
Proof.
  revert acc. induction xs as [|x xs IH]; intros acc Hacc Hstep; cbn [for_each];
    [discriminate|].
  intros [Hx|(acc' & Hx & Hrest)]%result_bind_Raise_inv.
  - exists acc, x. split; [exact Hacc|]. split; [left|exact Hx].
  - destruct (IH acc' (Hstep _ _ _ Hacc Hx) Hstep Hrest) as (a & y & Ha & Hy & Hf).
    exists a, y. split; [exact Ha|]. split; [by right|exact Hf].
Qed.

(** A loop that returns keeps an invariant of its body. *)
Lemma for_each_inv {A B} (I : B -> Prop) (f : B -> A -> result B) xs acc r :
  I acc ->
  (forall acc x acc', I acc -> f acc x = Ok acc' -> I acc') ->
  for_each f xs acc = Ok r -> I r.
Proof.
  revert acc. induction xs as [|x xs IH]; intros acc Hacc Hstep; cbn [for_each].
  - by intros [= <-].
  - intros (acc' & Hx & Hrest)%result_bind_Ok_inv.
    exact (IH acc' (Hstep _ _ _ Hacc Hx) Hstep Hrest).
Qed.

(** A loop that returns has run its body, without failure, on every
    element. *)
Lemma for_each_Ok_inv {A B} (f : B -> A -> result B) xs acc r :
  for_each f xs acc = Ok r ->
  forall x, x ∈ xs -> exists acc0 acc1, f acc0 x = Ok acc1.
Proof.
  revert acc. induction xs as [|y xs IH]; intros acc; cbn [for_each].
  - intros _ x Hx. by apply elem_of_nil in Hx.
  - intros (acc' & Hy & Hrest)%result_bind_Ok_inv x [->|Hx]%elem_of_cons; [eauto|].
    exact (IH _ Hrest x Hx).
Qed.

Lemma dict_get_Ok {A} (d : gmap string A) key v :
  dict_get d key = Ok v -> d !! key = Some v.
Proof. unfold dict_get. destruct (d !! key); [|discriminate]. by intros [= <-]. Qed.

Lemma dict_get_Raise {A} (d : gmap string A) key e :
  dict_get d key = Raise e -> e = KeyError /\ d !! key = None.
Proof. unfold dict_get. destruct (d !! key); [discriminate|]. by intros [= <-]. Qed.

Lemma normalize_profile_dom (p q : Profile) :
  normalize_profile p = Ok q -> dom q = list_to_set PROFILE_KEYS.
Proof.
  destruct (normalize_profile_lookup p) as (q' & Hq & Hqd & Hqs).
  rewrite Hq. intros [= <-].
  apply set_eq. intros k.
  rewrite elem_of_dom, elem_of_list_to_set. unfold PROFILE_KEYS.
  rewrite elem_of_app, list_elem_of_singleton, scale_keys_bounded.
  destruct (decide (k = DELTA_KEY)) as [->|Hk].
  - rewrite Hqd. split; [by right|by eauto].
  - rewrite Hqs by done. rewrite is_Some_alt.
    destruct (SCALE_BOUNDS !! k); cbn [fmap option_fmap option_map];
      rewrite ?is_Some_alt; tauto.
Qed.

Lemma normalize_profile_Ok (p : Profile) :
  exists q, normalize_profile p = Ok q /\ has_profile_keys q.
Proof.
  destruct (normalize_profile_lookup p) as (q & Hq & _).
  exists q. split; [exact Hq|]. intros key Hkey.
  apply elem_of_dom. rewrite (normalize_profile_dom _ _ Hq).
  by apply elem_of_list_to_set.
Qed.

Lemma scale_key_profile_key key : key ∈ SCALE_KEYS -> key ∈ PROFILE_KEYS.
Proof. intros Hkey. unfold PROFILE_KEYS. apply elem_of_app. by left. Qed.

Lemma delta_key_profile_key : DELTA_KEY ∈ PROFILE_KEYS.
Proof. unfold PROFILE_KEYS. apply elem_of_app. right. left. Qed.

(** X11: [blend_profiles] fails only with [KeyError], and exactly when a
    scale key or the delta key is missing from one of the two profiles;
    otherwise it returns a profile holding exactly the profile keys. *)
Theorem blend_profiles_key_error (a b : Profile) (alpha : float) :
  (has_profile_keys a -> has_profile_keys b ->
   exists q, blend_profiles a b alpha = Ok q /\
             dom q = list_to_set PROFILE_KEYS) /\
  (forall q, blend_profiles a b alpha = Ok q ->
     has_profile_keys a /\ has_profile_keys b) /\
  (forall e, blend_profiles a b alpha = Raise e ->
     e = KeyError /\
     exists key, key ∈ PROFILE_KEYS /\ (a !! key = None \/ b !! key = None)).
Proof.
  unfold blend_profiles. split; [|split].
  - intros Ha Hb.
    match goal with
    | |- context [for_each ?f SCALE_KEYS ∅] =>
        destruct (for_each_Ok (fun _ => True) f SCALE_KEYS ∅ I) as (out & -> & _)
    end.
    { intros acc key _ Hkey.
      apply scale_keys_bounded in Hkey as Hbound. destruct Hbound as [[lo hi] Hbound].
      destruct (Ha key (scale_key_profile_key _ Hkey)) as [x Hx].
      destruct (Hb key (scale_key_profile_key _ Hkey)) as [y Hy].
      rewrite (dict_get_Some _ _ _ Hbound), (dict_get_Some _ _ _ Hx),
        (dict_get_Some _ _ _ Hy).
      cbn [mbind result_mbind result_bind]. eauto. }
    destruct (Ha _ delta_key_profile_key) as [x Hx].
    destruct (Hb _ delta_key_profile_key) as [y Hy].
    cbn [mbind result_mbind result_bind].
    rewrite (dict_get_Some _ _ _ Hx), (dict_get_Some _ _ _ Hy).
    cbn [mbind result_mbind result_bind].
    match goal with
    | |- context [normalize_profile ?p] =>
        destruct (normalize_profile_lookup p) as (q & Hq & _)
    end.
    exists q. split; [exact Hq|]. exact (normalize_profile_dom _ _ Hq).
  - intros q (out & Hloop & Hrest)%result_bind_Ok_inv.
    apply result_bind_Ok_inv in Hrest as (x & Hx%dict_get_Ok & Hrest).
    apply result_bind_Ok_inv in Hrest as (y & Hy%dict_get_Ok & _).
    assert (forall key, key ∈ SCALE_KEYS -> is_Some (a !! key) /\ is_Some (b !! key))
      as Hscale.
    { intros key Hkey.
      destruct (for_each_Ok_inv _ _ _ _ Hloop key Hkey) as (acc0 & acc1 & Hstep).
      apply result_bind_Ok_inv in Hstep as ([lo hi] & _ & Hstep).
      apply result_bind_Ok_inv in Hstep as (xa & Hxa%dict_get_Ok & Hstep).
      apply result_bind_Ok_inv in Hstep as (yb & Hyb%dict_get_Ok & _). eauto. }
    split; intros key [Hkey|Hd%list_elem_of_singleton]%elem_of_app;
      first [by apply Hscale | subst key; eauto].
  - intros e [Hloop|(out & _ & Hrest)]%result_bind_Raise_inv.
    + apply (for_each_Raise (fun _ => True)) in Hloop as (acc & key & _ & Hkey & Hstep);
        [|exact I|auto].
      apply scale_keys_bounded in Hkey as Hbound. destruct Hbound as [[lo hi] Hbound].
      rewrite (dict_get_Some _ _ _ Hbound) in Hstep.
      cbn [mbind result_mbind result_bind] in Hstep.
      apply result_bind_Raise_inv in Hstep as [Hx|(x & _ & Hstep)].
      * apply dict_get_Raise in Hx as [-> Hx]. split; [reflexivity|].
        exists key. split; [by apply scale_key_profile_key|by left].
      * apply result_bind_Raise_inv in Hstep as [Hy|(y & _ & [=])].
        apply dict_get_Raise in Hy as [-> Hy]. split; [reflexivity|].
        exists key. split; [by apply scale_key_profile_key|by right].
    + apply result_bind_Raise_inv in Hrest as [Hx|(x & _ & Hrest)].
      * apply dict_get_Raise in Hx as [-> Hx]. split; [reflexivity|].
        exists DELTA_KEY. split; [apply delta_key_profile_key|by left].
      * apply result_bind_Raise_inv in Hrest as [Hy|(y & _ & Hnorm)].
        -- apply dict_get_Raise in Hy as [-> Hy]. split; [reflexivity|].
           exists DELTA_KEY. split; [apply delta_key_profile_key|by right].
        -- exfalso. revert Hnorm.
           match goal with
           | |- normalize_profile ?p = _ -> _ =>
               destruct (normalize_profile_lookup p) as (q & -> & _)
           end. discriminate.
Qed.


Lemma blend_profiles_key_error_witness :
  has_profile_keys Scenario.defaults /\
  exists q, blend_profiles Scenario.defaults Scenario.defaults (F64.dec 5 1) = Ok q /\
            dom q = list_to_set PROFILE_KEYS.
Proof.
  assert (has_profile_keys Scenario.defaults) as Hkeys.
  { intros key Hkey. apply elem_of_dom.
    rewrite (normalize_profile_dom ∅ Scenario.defaults)
      by (apply (bool_decide_unpack _); vm_compute; exact I).
    by apply elem_of_list_to_set. }
  split; [exact Hkeys|].
  exact (proj1 (blend_profiles_key_error Scenario.defaults Scenario.defaults
                  (F64.dec 5 1)) Hkeys Hkeys).
Defined.


(** ** The session history *)

Section History.
Context `{Environment}.

Lemma run_iterations_history (args : Args) anchors dir iters :
  forall (st : SearchState) w st' w',
  run_iterations args anchors dir st iters w = (Ok st', w') ->
  exists entries,
    history st' = history st ++ entries /\
    map history_iteration entries = iters /\
    (forall entry, last entries = Some entry ->
       history_stagnation_count entry = stagnation_count st').
Proof.
  unfold run_iterations.
  induction iters as [|iter rest IH]; intros st w st' w'; cbn [for_eachM].
  - intros [= <- <-]. exists []. rewrite app_nil_r. repeat split. discriminate.
  - intros (st1 & w1 & Hone & Hrest)%bind_Ok_inv.
    destruct (iteration_body_inv _ _ _ _ _ _ _ _ Hone)
      as (bs & ss & specs & rng' & rows & w1' & ranked & winner & improved & st2
          & _ & _ & _ & _ & _ & _ & _ & _ & _ & _ & _ & _ & Hran).
    destruct Hran as (_ & _ & _ & entry & Hhist & Hiter & _ & Hstag).
    destruct (IH _ _ _ _ Hrest) as (entries & Hhist' & Hmap & Hlast).
    exists (entry :: entries). rewrite Hhist', Hhist, <- app_assoc.
    split; [reflexivity|]. split; [cbn [map]; by rewrite Hiter, Hmap|].
    intros e. rewrite last_cons. destruct (last entries) as [e'|] eqn:El.
    + intros [= <-]. by apply Hlast.
    + intros [= <-]. destruct entries as [|e0 es]; [|by rewrite last_cons in El;
        destruct (last es)].
      destruct rest; [|discriminate]. by injection Hrest as <- _.
Qed.

(** X13: the summary that a returning [main] writes holds the history of
    the whole session: one entry per iteration, numbered 1 to
    [--iterations] in order, the last one carrying the final stagnation
    count; and it records the counts it was run with. *)
Theorem summary_history_complete (args : Args) (w : World) code w' :
  main args w = (Ok code, w') ->
  exists summary,
    SessionSummary summary ∈ session_files w' /\
    map history_iteration (summary_history summary) = seqZ 1 (iterations args) /\
    length (summary_history summary) = Z.to_nat (iterations args) /\
    summary_iterations summary = iterations args /\
    summary_candidates summary = candidates args.
Proof.
  intros (s & w0 & st & w1 & Hinit & Hloop & Hfin)%main_Ok_inv.
  destruct (init_anchors _ _ _ _ Hinit)
    as (sig & sources & _ & _ & _ & _ & _ & _ & Hnil).
  apply run_iterations_history in Hloop as (entries & Hhist & Hmap & _).
  rewrite Hnil in Hhist. cbn [app] in Hhist.
  apply finalize_install in Hfin as (_ & _ & _ & _ & summary & Hin & Hsh & Hsi & Hsc).
  exists summary. rewrite Hsh, Hhist.
  split; [exact Hin|]. split; [exact Hmap|].
  split; [|by split].
  rewrite <- (length_map history_iteration), Hmap. unfold iteration_range.
  apply length_seqZ.
Qed.

(** X15: the step sizes of an iteration: the base step is never below
    [--min-step], and the search step never above 2.4 times the base
    step, however long the search has stagnated. *)
Theorem step_size_bounds (args : Args) (st : SearchState) iter base_step search_step :
  step_sizes args st iter = Ok (base_step, search_step) ->
  F64.lt base_step (min_step args) = false /\
  F64.gt search_step (F64.mul base_step (F64.dec 24 1)) = false.
Proof.
  unfold step_sizes.
  intros (p & _ & (sc & _ & [= <- <-])%result_bind_Ok_inv)%result_bind_Ok_inv.
  assert (forall x, F64.lt x x = false) as Hirr.
  { intros x. destruct x as [?|[]| |[] m e]; unfold F64.lt, SFltb; cbn [SFcompare];
      rewrite ?Z.compare_refl, ?Pos.compare_cont_refl; reflexivity. }
  assert (forall x y, F64.lt x y = true -> F64.lt y x = false) as Hasym.
  { intros x y Hlt. destruct (lt_not_nan _ _ Hlt). by apply float_lt_asym. }
  split.
  - unfold F64.max, F64.gt. change SFltb with F64.lt.
    destruct (F64.lt (min_step args) _) eqn:E; [by apply Hasym|apply Hirr].
  - unfold F64.min, F64.gt. change SFltb with F64.lt.
    match goal with
    | |- F64.lt ?b (if F64.lt ?b ?a then _ else _) = false =>
        destruct (F64.lt b a) eqn:E; [apply Hirr|exact E]
    end.
Qed.
End History.

Lemma summary_history_complete_witness :
  Scenario.stay_run = (Ok 0, snd Scenario.stay_run) /\
  exists summary,
    SessionSummary summary ∈ session_files (snd Scenario.stay_run) /\
    map history_iteration (summary_history summary) = [1].
Proof.
  assert (returns Scenario.stay_run = true) as Hret by (vm_compute; reflexivity).
  assert (returned Scenario.stay_run 1 = 0) as Hcode by (vm_compute; reflexivity).
  pose proof (returns_eq Scenario.stay_run 1 Hret) as Hrun. rewrite Hcode in Hrun.
  split; [exact Hrun|].
  destruct (@summary_history_complete Scenario.stay_env Scenario.stay_args
              Scenario.stay_world 0 (snd Scenario.stay_run) Hrun)
    as (summary & Hin & Hmap & _).
  exists summary. split; [exact Hin|exact Hmap].
Defined.

Lemma step_size_bounds_witness :
  exists base_step search_step,
    @step_sizes Scenario.stay_env Scenario.stay_args Scenario.stay_state 1
      = Ok (base_step, search_step) /\
    F64.lt base_step (min_step Scenario.stay_args) = false /\
    F64.gt search_step (F64.mul base_step (F64.dec 24 1)) = false.
Proof.
  destruct (@step_sizes Scenario.stay_env Scenario.stay_args Scenario.stay_state 1)
    as [[base_step search_step]|e] eqn:Hsteps; [|vm_compute in Hsteps; discriminate].
  exists base_step, search_step. split; [reflexivity|].
  exact (@step_size_bounds Scenario.stay_env _ _ _ _ _ Hsteps).
Defined.

(** ** Values that are not finite numbers *)

Lemma bounds_absorb_nonfinite lo hi :
  (exists key, SCALE_BOUNDS !! key = Some (lo, hi)) \/ (lo, hi) = DELTA_BOUNDS ->
  F64.round6 (clamp S754_nan lo hi) = hi /\
  F64.round6 (clamp (S754_infinity false) lo hi) = hi /\
  F64.round6 (clamp (S754_infinity true) lo hi) = lo.
Proof.
  assert (forallb (fun b : float * float =>
            bool_decide (F64.round6 (clamp S754_nan (fst b) (snd b)) = snd b)
            && bool_decide (F64.round6 (clamp (S754_infinity false) (fst b) (snd b)) = snd b)
            && bool_decide (F64.round6 (clamp (S754_infinity true) (fst b) (snd b)) = fst b))
            (DELTA_BOUNDS :: (snd <$> map_to_list SCALE_BOUNDS)) = true) as Hall
    by (vm_compute; reflexivity).
  rewrite forallb_forall in Hall.
  intros Hb.
  assert ((lo, hi) ∈ DELTA_BOUNDS :: (snd <$> map_to_list SCALE_BOUNDS)) as Hin.
  { destruct Hb as [[key Hkey]|Hd].
    - apply elem_of_cons. right. apply list_elem_of_fmap. exists (key, (lo, hi)).
      split; [reflexivity|]. apply elem_of_map_to_list. exact Hkey.
    - rewrite Hd. apply elem_of_cons. left. reflexivity. }
  apply list_elem_of_In, Hall in Hin. cbn [fst snd] in Hin.
  apply andb_true_iff in Hin as [[H1 H2]%andb_true_iff H3].
  apply bool_decide_eq_true in H1, H2, H3. auto.
Qed.

(** X14: [normalize_profile] accepts values that are not finite numbers
    and replaces them by a bound: NaN and plus infinity by the upper bound
    of the key, minus infinity by the lower bound. *)
Theorem normalize_nonfinite (p : Profile) :
  exists q : Profile,
    normalize_profile p = Ok q /\
    (forall key lo hi,
       SCALE_BOUNDS !! key = Some (lo, hi) ->
       (p !! key = Some S754_nan -> q !! key = Some hi) /\
       (p !! key = Some (S754_infinity false) -> q !! key = Some hi) /\
       (p !! key = Some (S754_infinity true) -> q !! key = Some lo)) /\
    (p !! DELTA_KEY = Some S754_nan -> q !! DELTA_KEY = Some (snd DELTA_BOUNDS)) /\
    (p !! DELTA_KEY = Some (S754_infinity false) ->
     q !! DELTA_KEY = Some (snd DELTA_BOUNDS)) /\
    (p !! DELTA_KEY = Some (S754_infinity true) ->
     q !! DELTA_KEY = Some (fst DELTA_BOUNDS)).
Proof.
  destruct (normalize_profile_lookup p) as (q & Hq & Hqd & Hqs).
  exists q. split; [exact Hq|]. split.
  - intros key lo hi Hb.
    assert (key <> DELTA_KEY) as Hk.
    { intros ->. rewrite delta_not_bounded in Hb. discriminate. }
    destruct (bounds_absorb_nonfinite lo hi) as (Hnan & Hpos & Hneg); [left; eauto|].
    rewrite Hqs by exact Hk. rewrite Hb. cbn [fmap option_fmap option_map].
    unfold scale_value, get_or. cbn [fst snd].
    repeat split; intros ->; cbn [default]; f_equal; assumption.
  - destruct (bounds_absorb_nonfinite (fst DELTA_BOUNDS) (snd DELTA_BOUNDS))
      as (Hnan & Hpos & Hneg); [right; by destruct DELTA_BOUNDS|].
    rewrite Hqd. unfold delta_value, get_or.
    repeat split; intros ->; cbn [default]; f_equal; assumption.
Qed.

Lemma normalize_nonfinite_witness :
  exists q : Profile,
    normalize_profile Scenario.nonfinite = Ok q /\
    q !! "risk_weight_scale"%string = Some (F64.dec 23 1) /\
    q !! "survival_weight_scale"%string = Some (F64.dec 35 2) /\
    q !! DELTA_KEY = Some (F64.dec 3 1).
Proof.
  destruct (normalize_nonfinite Scenario.nonfinite) as (q & Hq & Hscale & _ & Hdelta & _).
  exists q. split; [exact Hq|].
  destruct (Hscale "risk_weight_scale"%string (F64.dec 35 2) (F64.dec 23 1))
    as (Hnan & _); [apply (bool_decide_unpack _); vm_compute; exact I|].
  destruct (Hscale "survival_weight_scale"%string (F64.dec 35 2) (F64.dec 24 1))
    as (_ & _ & Hneg); [apply (bool_decide_unpack _); vm_compute; exact I|].
  split; [apply Hnan; apply (bool_decide_unpack _); vm_compute; exact I|].
  split; [apply Hneg; apply (bool_decide_unpack _); vm_compute; exact I|].
  apply Hdelta. apply (bool_decide_unpack _). vm_compute. exact I.
Defined.

(** ** How candidate generation can fail *)

Section Total.
Context {S : Type}.

Lemma returns_with_ret {A} (Q : A -> Prop) a : Q a -> returns_with (S := S) Q (ret a).
Proof. intros Ha s r s' [= <- <-]. eauto. Qed.

Lemma returns_with_lift {A} (Q : A -> Prop) (x : result A) :
  (exists a, x = Ok a /\ Q a) -> returns_with (S := S) Q (lift x).
Proof. intros Hx s r s' [= <- <-]. exact Hx. Qed.

Lemma returns_with_bind {A B} (Q : A -> Prop) (Q' : B -> Prop)
    (m : M S A) (k : A -> M S B) :
  returns_with Q m -> (forall a, Q a -> returns_with Q' (k a)) ->
  returns_with Q' (bind m k).
Proof.
  intros Hm Hk s r s'. unfold bind.
  destruct (m s) as [r0 s0] eqn:Hrun.
  destruct (Hm _ _ _ Hrun) as (a & -> & Ha). intros Hrest.
  exact (Hk a Ha _ _ _ Hrest).
Qed.

Lemma returns_with_weaken {A} (Q Q' : A -> Prop) (m : M S A) :
  (forall a, Q a -> Q' a) -> returns_with Q m -> returns_with Q' m.
Proof.
  intros HQ Hm s r s' Hrun. destruct (Hm _ _ _ Hrun) as (a & -> & Ha). eauto.
Qed.

Lemma returns_with_for_eachM {A B} (I : B -> Prop) (f : B -> A -> M S B) xs acc :
  I acc ->
  (forall acc x, I acc -> x ∈ xs -> returns_with I (f acc x)) ->
  returns_with I (for_eachM f xs acc).
Proof.
  revert acc. induction xs as [|x xs IH]; intros acc Hacc Hstep; cbn [for_eachM].
  - by apply returns_with_ret.
  - apply (returns_with_bind I); [apply Hstep; [exact Hacc|left]|].
    intros acc' Hacc'. apply IH; [exact Hacc'|].
    intros a y Ha Hy. apply Hstep; [exact Ha|by right].
Qed.

Lemma returns_fails_only {A} (Q : A -> Prop) e (m : M S A) :
  returns_with Q m -> fails_only_with e m.
Proof. intros Hm s e' s' Hrun. by destruct (Hm _ _ _ Hrun) as (a & [=] & _). Qed.

Lemma fails_only_bind {A B} (Q : A -> Prop) e (m : M S A) (k : A -> M S B) :
  returns_with Q m -> (forall a, Q a -> fails_only_with e (k a)) ->
  fails_only_with e (bind m k).
Proof.
  intros Hm Hk s e' s'. unfold bind.
  destruct (m s) as [r0 s0] eqn:Hrun.
  destruct (Hm _ _ _ Hrun) as (a & -> & Ha). intros Hrest.
  exact (Hk a Ha _ _ _ Hrest).
Qed.
End Total.

Lemma insert_has_profile_keys (p : Profile) key v :
  has_profile_keys p -> has_profile_keys (<[key := v]> p).
Proof.
  intros Hp k Hk. destruct (decide (k = key)) as [->|Hne].
  - rewrite lookup_insert_eq. eauto.
  - rewrite lookup_insert_ne by done. by apply Hp.
Qed.

Section Exhaustion.
Context `{Environment}.
Hypothesis rng_ok : rng_well_behaved.

Lemma random_returns : returns_with (fun _ => True) random.
Proof.
  intros r x r'. unfold random. destruct (rng_random r) as [u r0].
  intros [= <- <-]. eauto.
Qed.

Lemma uniform_returns a b : returns_with (fun _ => True) (uniform a b).
Proof.
  unfold uniform. apply (returns_with_bind (fun _ => True)); [apply random_returns|].
  intros u _. by apply returns_with_ret.
Qed.

Lemma randint_returns a b :
  a <= b -> returns_with (fun i => a <= i <= b) (randint a b).
Proof.
  intros Hab. unfold randint.
  destruct (Z.leb_spec (b - a + 1) 0); [lia|].
  apply (returns_with_bind (fun i => 0 <= i < b - a + 1)).
  - intros r x r'. unfold randbelow.
    pose proof (proj1 rng_ok (b - a + 1) r ltac:(lia)) as Hi.
    destruct (rng_randbelow (b - a + 1) r) as [i r0]. intros [= <- <-]. eauto.
  - intros i Hi. apply returns_with_ret. lia.
Qed.

Lemma sample_returns population k :
  0 <= k <= Z.of_nat (length population) ->
  returns_with (fun xs => forall x, x ∈ xs -> x ∈ population) (sample population k).
Proof.
  intros Hk. unfold sample.
  destruct (Z.ltb_spec k 0); [lia|].
  destruct (Z.ltb_spec (Z.of_nat (length population)) k); [lia|].
  cbn [orb]. intros r x r'.
  pose proof (proj2 rng_ok population k r) as Hin.
  destruct (rng_sample population k r) as [xs r0]. intros [= <- <-]. eauto.
Qed.

Lemma choice_returns {A} (seq : list A) :
  seq <> [] -> returns_with (fun x => x ∈ seq) (choice seq).
Proof.
  intros Hne. unfold choice. destruct seq as [|x0 rest]; [done|].
  set (seq := x0 :: rest).
  apply (returns_with_bind (fun i => 0 <= i < Z.of_nat (length seq))).
  - intros r x r'. unfold randbelow.
    pose proof (proj1 rng_ok (Z.of_nat (length seq)) r ltac:(cbn; lia)) as Hi.
    destruct (rng_randbelow _ r) as [i r0]. intros [= <- <-]. eauto.
  - intros i Hi. destruct (Z.ltb_spec i 0); [lia|].
    destruct (seq !! Z.to_nat i) as [x|] eqn:Hx.
    + apply returns_with_ret. by eapply list_elem_of_lookup_2.
    + apply lookup_ge_None in Hx. lia.
Qed.

Lemma scale_key_bounds key :
  key ∈ SCALE_KEYS -> exists b, dict_get SCALE_BOUNDS key = Ok b.
Proof.
  intros [[lo hi] Hb]%scale_keys_bounded. exists (lo, hi). by apply dict_get_Some.
Qed.

Lemma normalize_returns {S} (p : Profile) :
  returns_with (S := S) has_profile_keys (lift (normalize_profile p)).
Proof. apply returns_with_lift, normalize_profile_Ok. Qed.

Lemma mutate_profile_returns base step min_fields max_fields delta_scale :
  has_profile_keys base ->
  returns_with has_profile_keys
               (mutate_profile base step min_fields max_fields delta_scale).
Proof.
  intros Hbase. unfold mutate_profile. cbv zeta.
  assert (len_SCALE_KEYS = 18) as -> by reflexivity.
  apply (returns_with_bind (fun i => 1 <= i <= 18)).
  { eapply returns_with_weaken; [|apply randint_returns; lia]. cbv beta. lia. }
  intros field_count Hcount.
  apply (returns_with_bind (fun xs => forall x, x ∈ xs -> x ∈ SCALE_KEYS)).
  { apply sample_returns. change (Z.of_nat (length SCALE_KEYS)) with 18. lia. }
  intros keys Hkeys.
  apply (returns_with_bind has_profile_keys).
  { apply returns_with_for_eachM; [exact Hbase|].
    intros out key Hout Hkey.
    destruct (scale_key_bounds key (Hkeys _ Hkey)) as [[lo hi] Hb].
    apply (returns_with_bind (fun _ => True)); [apply returns_with_lift; eauto|].
    intros [lo' hi'] _.
    apply (returns_with_bind (fun _ => True)); [apply uniform_returns|].
    intros u _.
    destruct (Hout key (scale_key_profile_key _ (Hkeys _ Hkey))) as [v Hv].
    apply (returns_with_bind (fun _ => True));
      [apply returns_with_lift; exists v; split; [by apply dict_get_Some|done]|].
    intros v' _. apply returns_with_ret. by apply insert_has_profile_keys. }
  intros out Hout.
  apply (returns_with_bind (fun _ => True)); [apply random_returns|].
  intros r _.
  apply (returns_with_bind has_profile_keys); [|intros; apply normalize_returns].
  destruct (F64.lt r _); [|by apply returns_with_ret].
  destruct (Hout _ delta_key_profile_key) as [v Hv].
  apply (returns_with_bind (fun _ => True));
    [apply returns_with_lift; exists v; split; [by apply dict_get_Some|done]|].
  intros v' _.
  apply (returns_with_bind (fun _ => True)); [apply uniform_returns|].
  intros u _. apply returns_with_ret. by apply insert_has_profile_keys.
Qed.

Lemma mutate_profile_aggressive_returns base step :
  has_profile_keys base ->
  returns_with has_profile_keys (mutate_profile_aggressive base step).
Proof.
  intros Hbase. unfold mutate_profile_aggressive.
  apply (returns_with_bind has_profile_keys); [by apply mutate_profile_returns|].
  intros out Hout.
  apply (returns_with_bind (fun _ => True)); [apply random_returns|].
  intros r _.
  apply (returns_with_bind has_profile_keys); [|intros; apply normalize_returns].
  destruct (F64.lt r _); [|by apply returns_with_ret].
  apply (returns_with_bind (fun key => key ∈ SCALE_KEYS)); [by apply choice_returns|].
  intros key Hkey.
  destruct (scale_key_bounds key Hkey) as [[lo hi] Hb].
  apply (returns_with_bind (fun _ => True)); [apply returns_with_lift; eauto|].
  intros [lo' hi'] _.
  apply (returns_with_bind (fun _ => True)); [apply uniform_returns|].
  intros u _. apply returns_with_ret. by apply insert_has_profile_keys.
Qed.

Lemma with_rng_returns {A} (Q : A -> Prop) (m : M rng_t A) :
  returns_with Q m -> returns_with Q (with_rng m).
Proof.
  intros Hm g r g'. unfold with_rng.
  destruct (m (gen_rng g)) as [r0 rng'] eqn:Hrun. intros [= <- <-].
  exact (Hm _ _ _ Hrun).
Qed.

Lemma push_candidate_returns profile strategy :
  returns_with (fun _ => True) (push_candidate profile strategy).
Proof.
  intros g r g'. rewrite push_candidate_spec.
  destruct (normalize_profile_lookup profile) as (normalized & -> & _).
  unfold profile_signature.
  destruct (normalize_profile_lookup normalized) as (again & -> & _).
  cbn [mbind result_mbind result_bind].
  destruct (decide (_ ∈ seen g)); intros [= <- <-]; eauto.
Qed.

Lemma has_room_returns args : returns_with (fun _ => True) (has_room args).
Proof. intros g r g' [= <- <-]. eauto. Qed.

Lemma when_room_returns args cond body :
  returns_with (fun _ => True) body ->
  returns_with (fun _ => True) (when_room args cond body).
Proof.
  intros Hbody. unfold when_room. destruct cond; [|by apply returns_with_ret].
  apply (returns_with_bind (fun _ => True)); [apply has_room_returns|].
  intros [] _; [exact Hbody|by apply returns_with_ret].
Qed.

(** A strategy ends by pushing its candidate. *)
Lemma push_then_returns profile strategy :
  returns_with (fun _ => True) (push_candidate profile strategy ;;; ret tt).
Proof.
  apply (returns_with_bind (fun _ => True)); [apply push_candidate_returns|].
  intros _ _. by apply returns_with_ret.
Qed.

Lemma blend_returns {S} a b alpha :
  has_profile_keys a -> has_profile_keys b ->
  returns_with (S := S) (fun _ => True) (lift (blend_profiles a b alpha)).
Proof.
  intros Ha Hb. apply returns_with_lift.
  assert (exists q, blend_profiles a b alpha = Ok q) as [q Hq]; [|eauto].
  unfold blend_profiles.
  match goal with
  | |- context [for_each ?f SCALE_KEYS ∅] =>
      destruct (for_each_Ok (fun _ => True) f SCALE_KEYS ∅ I) as (out & -> & _)
  end.
  { intros acc key _ Hkey.
    apply scale_keys_bounded in Hkey as Hbound. destruct Hbound as [[lo hi] Hbound].
    destruct (Ha key (scale_key_profile_key _ Hkey)) as [x Hx].
    destruct (Hb key (scale_key_profile_key _ Hkey)) as [y Hy].
    rewrite (dict_get_Some _ _ _ Hbound), (dict_get_Some _ _ _ Hx),
      (dict_get_Some _ _ _ Hy).
    cbn [mbind result_mbind result_bind]. eauto. }
  destruct (Ha _ delta_key_profile_key) as [x Hx].
  destruct (Hb _ delta_key_profile_key) as [y Hy].
  cbn [mbind result_mbind result_bind].
  rewrite (dict_get_Some _ _ _ Hx), (dict_get_Some _ _ _ Hy).
  cbn [mbind result_mbind result_bind].
  match goal with
  | |- context [normalize_profile ?p] =>
      destruct (normalize_profile_lookup p) as (q & Hq & _)
  end. eauto.
Qed.

Lemma momentum_returns {S} base mom scale :
  has_profile_keys base ->
  returns_with (S := S) (fun _ => True) (lift (apply_momentum base mom scale)).
Proof.
  intros Hbase. apply returns_with_lift.
  assert (exists q, apply_momentum base mom scale = Ok q) as [q Hq]; [|eauto].
  unfold apply_momentum.
  match goal with
  | |- context [for_each ?f SCALE_KEYS base] =>
      destruct (for_each_Ok has_profile_keys f SCALE_KEYS base Hbase)
        as (out & -> & Hout)
  end.
  { intros acc key Hacc Hkey.
    apply scale_keys_bounded in Hkey as Hbound. destruct Hbound as [[lo hi] Hbound].
    destruct (Hacc key (scale_key_profile_key _ Hkey)) as [x Hx].
    rewrite (dict_get_Some _ _ _ Hbound), (dict_get_Some _ _ _ Hx).
    cbn [mbind result_mbind result_bind]. eexists. split; [reflexivity|].
    by apply insert_has_profile_keys. }
  destruct (Hout _ delta_key_profile_key) as [x Hx].
  cbn [mbind result_mbind result_bind].
  rewrite (dict_get_Some _ _ _ Hx). cbn [mbind result_mbind result_bind].
  match goal with
  | |- context [normalize_profile ?p] =>
      destruct (normalize_profile_lookup p) as (q & Hq & _)
  end. eauto.
Qed.

Lemma mutate_attempt_returns args incumbent stagnation search_step :
  has_profile_keys incumbent ->
  returns_with (fun _ => True) (mutate_attempt args incumbent stagnation search_step).
Proof.
  intros Hinc. unfold mutate_attempt.
  apply (returns_with_bind (fun _ => True));
    [apply with_rng_returns, uniform_returns|]. intros u _. cbv zeta.
  destruct (is_insane args).
  - apply (returns_with_bind (fun _ => True));
      [apply with_rng_returns, uniform_returns|]. intros u' _.
    apply (returns_with_bind (fun _ => True));
      [apply with_rng_returns, random_returns|]. intros r _.
    destruct (F64.lt r _).
    + apply (returns_with_bind has_profile_keys);
        [by apply with_rng_returns, mutate_profile_aggressive_returns|].
      intros p _. apply push_then_returns.
    + apply (returns_with_bind has_profile_keys);
        [by apply with_rng_returns, mutate_profile_returns|].
      intros p _. apply push_then_returns.
  - apply (returns_with_bind has_profile_keys);
      [by apply with_rng_returns, mutate_profile_returns|].
    intros p _. apply push_then_returns.
Qed.

Lemma mutate_loop_returns budget args incumbent stagnation search_step :
  has_profile_keys incumbent ->
  returns_with (fun _ => True)
               (mutate_loop budget args incumbent stagnation search_step).
Proof.
  intros Hinc. induction budget as [|budget IH]; cbn [mutate_loop];
    [by apply returns_with_ret|].
  apply (returns_with_bind (fun _ => True)); [apply has_room_returns|].
  intros [] _; [|by apply returns_with_ret].
  apply (returns_with_bind (fun _ => True)); [by apply mutate_attempt_returns|].
  intros _ _. exact IH.
Qed.

(** X16: with a generator that keeps to its contract, and an incumbent,
    last-gain anchor and anchors that hold every profile key, the
    generation phase of an iteration can fail in one way only: with the
    [RuntimeError] raised when the candidate list could not be filled. *)
Theorem generation_fails_by_exhaustion_only (args : Args) anchors
    (st : SearchState) search_step e :
  has_profile_keys (incumbent_profile st) ->
  (forall anchor, last_gain_anchor st = Some anchor -> has_profile_keys anchor) ->
  Forall (fun a => has_profile_keys (snd a)) anchors ->
  run_generation args anchors st search_step = Raise e ->
  e = RuntimeError.
Proof.
  intros Hinc Hlast Hanchors. unfold run_generation.
  destruct (generate_candidates _ _ _ _ _) as [[[]|e'] g'] eqn:Hgen; [discriminate|].
  intros [= <-]. revert Hgen. generalize ({| gen_rng := rng st; candidate_specs := [];
                                             seen := ∅ |}).
  intros g0 Hgen.
  assert (fails_only_with RuntimeError
            (generate_candidates args anchors st search_step)) as Hsafe;
    [|exact (Hsafe _ _ _ Hgen)].
  clear g0 g' e' Hgen. unfold generate_candidates. cbv zeta.
  assert (forall a, a ∈ anchors -> has_profile_keys (snd a)) as Hanchor
    by (by apply Forall_forall).
  apply (fails_only_bind (fun _ => True)); [apply push_candidate_returns|]. intros _ _.
  apply (fails_only_bind (fun _ => True)).
  { destruct (momentum st) as [mom|]; [|by apply returns_with_ret].
    apply when_room_returns.
    apply (returns_with_bind (fun _ => True));
      [apply with_rng_returns, uniform_returns|]. intros u _.
    apply (returns_with_bind (fun _ => True)); [by apply momentum_returns|].
    intros p _. apply push_then_returns. }
  intros _ _.
  apply (fails_only_bind (fun _ => True)).
  { destruct (last_gain_anchor st) as [anchor|]; [|by apply returns_with_ret].
    apply when_room_returns.
    apply (returns_with_bind (fun _ => True));
      [apply with_rng_returns, uniform_returns|]. intros u _.
    apply (returns_with_bind (fun _ => True)); [apply blend_returns; auto|].
    intros p _. apply push_then_returns. }
  intros _ _.
  apply (fails_only_bind (fun _ => True)).
  { destruct (decide (anchors = [])) as [->|Hne].
    { cbn [negb]. by apply returns_with_ret. }
    apply when_room_returns.
    apply (returns_with_bind (fun a => a ∈ anchors));
      [by apply with_rng_returns, choice_returns|]. intros [label anchor] Hin.
    apply (returns_with_bind (fun _ => True));
      [apply with_rng_returns, uniform_returns|]. intros u _.
    apply (returns_with_bind (fun _ => True));
      [apply blend_returns; [exact Hinc|exact (Hanchor _ Hin)]|].
    intros p _. apply push_then_returns. }
  intros _ _.
  apply (fails_only_bind (fun _ => True)).
  { destruct (decide (anchors = [])) as [->|Hne].
    { cbn [negb andb]. by apply returns_with_ret. }
    apply when_room_returns.
    apply (returns_with_bind (fun a => a ∈ anchors));
      [by apply with_rng_returns, choice_returns|]. intros [label anchor] Hin.
    apply (returns_with_bind (fun _ => True));
      [apply with_rng_returns, uniform_returns|]. intros u _.
    apply (returns_with_bind has_profile_keys);
      [apply with_rng_returns, mutate_profile_returns; exact (Hanchor _ Hin)|].
    intros seed Hseed.
    apply (returns_with_bind (fun _ => True));
      [apply with_rng_returns, uniform_returns|]. intros u' _.
    apply (returns_with_bind (fun _ => True)); [by apply blend_returns|].
    intros p _. apply push_then_returns. }
  intros _ _.
  apply (fails_only_bind (fun _ => True)).
  { apply when_room_returns.
    apply (returns_with_bind has_profile_keys);
      [by apply with_rng_returns, mutate_profile_aggressive_returns|].
    intros p _. apply push_then_returns. }
  intros _ _.
  apply (fails_only_bind (fun _ => True)).
  { apply when_room_returns.
    apply (returns_with_bind has_profile_keys);
      [by apply with_rng_returns, mutate_profile_aggressive_returns|].
    intros chaos Hchaos.
    apply (returns_with_bind (fun _ => True));
      [apply with_rng_returns, random_returns|]. intros r _.
    apply (returns_with_bind (fun _ => True)).
    { destruct (F64.lt r _); [|by apply returns_with_ret].
      apply (returns_with_bind (fun n => 1 <= n <= 3));
        [apply with_rng_returns, randint_returns; lia|]. intros n Hn.
      apply (returns_with_bind (fun xs => forall x, x ∈ xs -> x ∈ SCALE_KEYS)).
      { apply with_rng_returns, sample_returns.
        change (Z.of_nat (length SCALE_KEYS)) with 18. lia. }
      intros keys Hkeys.
      apply (returns_with_bind (fun _ => True)).
      { apply returns_with_for_eachM; [done|].
        intros acc key _ Hkey.
        destruct (scale_key_bounds key (Hkeys _ Hkey)) as [[lo hi] Hb].
        apply (returns_with_bind (fun _ => True)); [apply returns_with_lift; eauto|].
        intros [lo' hi'] _.
        apply (returns_with_bind (fun _ => True));
          [apply with_rng_returns, uniform_returns|].
        intros u _. by apply returns_with_ret. }
      intros chaos' _.
      apply (returns_with_bind (fun _ => True));
        [apply with_rng_returns, random_returns|]. intros r' _.
      destruct (F64.lt r' _); [|by apply returns_with_ret].
      apply (returns_with_bind (fun _ => True));
        [apply with_rng_returns, uniform_returns|].
      intros u _. by apply returns_with_ret. }
    intros chaos' _.
    apply (returns_with_bind has_profile_keys); [apply normalize_returns|].
    intros p _. apply push_then_returns. }
  intros _ _.
  apply (fails_only_bind (fun _ => True)); [by apply mutate_loop_returns|].
  intros _ _.
  apply (fails_only_bind (fun _ => True)); [apply has_room_returns|].
  intros [] _ g e' g'; [by intros [= <- _]|discriminate].
Qed.
End Exhaustion.

Lemma generation_fails_by_exhaustion_only_witness :
  @rng_well_behaved Scenario.stay_env /\
  has_profile_keys Scenario.defaults /\
  @run_generation Scenario.stay_env Scenario.greedy_args [] Scenario.stay_state
                  (F64.dec 18 2) = Raise RuntimeError.
Proof.
  assert (@rng_well_behaved Scenario.stay_env) as Hrng.
  { split.
    - intros n r Hn. cbn. lia.
    - intros population k r x Hx. cbn in Hx.
      apply elem_of_take in Hx as (i & Hi & _). by eapply list_elem_of_lookup_2. }
  assert (has_profile_keys Scenario.defaults) as Hkeys.
  { intros key Hkey. apply elem_of_dom.
    rewrite (normalize_profile_dom ∅ Scenario.defaults)
      by (apply (bool_decide_unpack _); vm_compute; exact I).
    by apply elem_of_list_to_set. }
  split; [exact Hrng|]. split; [exact Hkeys|].
  assert (match @run_generation Scenario.stay_env Scenario.greedy_args []
                  Scenario.stay_state (F64.dec 18 2) with
          | Ok _ => false
          | Raise _ => true
          end = true) as Hfails by (vm_compute; reflexivity).
  revert Hfails.
  destruct (@run_generation Scenario.stay_env Scenario.greedy_args [] Scenario.stay_state
              (F64.dec 18 2)) as [specs|e] eqn:Hrun; intros Hfails.
  - discriminate Hfails.
  - f_equal.
    apply (@generation_fails_by_exhaustion_only Scenario.stay_env Hrng
             Scenario.greedy_args [] Scenario.stay_state (F64.dec 18 2) e).
    + exact Hkeys.
    + intros anchor. discriminate.
    + constructor.
    + exact Hrun.
Defined.

(** ** Complete profiles throughout a session *)

Section Complete.
Context `{Environment}.

Lemma keeps_complete_refl g : keeps_complete g g.
Proof. by intros ?. Qed.

Lemma keeps_complete_trans g1 g2 g3 :
  keeps_complete g1 g2 -> keeps_complete g2 g3 -> keeps_complete g1 g3.
Proof. unfold keeps_complete. auto. Qed.

Lemma with_rng_complete {A} (m : M rng_t A) : always keeps_complete (with_rng m).
Proof.
  intros g r g'. unfold with_rng. destruct (m (gen_rng g)) as [r0 rng'].
  intros [= <- <-]. by intros ?.
Qed.

Lemma push_candidate_complete profile strategy :
  always keeps_complete (push_candidate profile strategy).
Proof.
  intros g r g'. rewrite push_candidate_spec.
  destruct (normalize_profile_Ok profile) as (normalized & -> & Hkeys).
  destruct (profile_signature normalized) as [sig|]; [|by intros [= <- <-] ?].
  destruct (decide (sig ∈ seen g)); intros [= <- <-]; [by intros ?|].
  intros Hall. cbn [candidate_specs]. apply Forall_app. split; [exact Hall|].
  by repeat constructor.
Qed.

Lemma has_room_complete args : always keeps_complete (has_room args).
Proof. intros g r g' [= <- <-]. by intros ?. Qed.

Lemma when_room_complete args cond body :
  always keeps_complete body -> always keeps_complete (when_room args cond body).
Proof.
  intros Hbody. unfold when_room.
  destruct cond; [|apply (always_ret keeps_complete keeps_complete_refl)].
  apply (always_bind keeps_complete keeps_complete_trans); [apply has_room_complete|].
  intros []; [exact Hbody|apply (always_ret keeps_complete keeps_complete_refl)].
Qed.

(** One syntax-directed step through a generation program. *)
Ltac complete_step :=
  cbv beta zeta;
  lazymatch goal with
  | |- always _ (bind _ _) =>
      apply (always_bind keeps_complete keeps_complete_trans); [|intros ?]
  | |- always _ (ret _) => apply (always_ret keeps_complete keeps_complete_refl)
  | |- always _ (raise _) => apply (always_raise keeps_complete keeps_complete_refl)
  | |- always _ (lift _) => apply (always_lift keeps_complete keeps_complete_refl)
  | |- always _ (with_rng _) => apply with_rng_complete
  | |- always _ (push_candidate _ _) => apply push_candidate_complete
  | |- always _ (has_room _) => apply has_room_complete
  | |- always _ (when_room _ _ _) => apply when_room_complete
  | |- always _ (for_eachM _ _ _) =>
      apply (always_for_eachM keeps_complete keeps_complete_refl keeps_complete_trans);
      intros ? ?
  | |- always _ (match ?x with _ => _ end) => destruct x
  end.

Lemma mutate_loop_complete budget args incumbent stagnation search_step :
  always keeps_complete (mutate_loop budget args incumbent stagnation search_step).
Proof.
  induction budget as [|budget IH]; cbn [mutate_loop]; [repeat complete_step|].
  apply (always_bind keeps_complete keeps_complete_trans); [apply has_room_complete|].
  intros []; [|repeat complete_step].
  apply (always_bind keeps_complete keeps_complete_trans); [|intros ?; exact IH].
  unfold mutate_attempt. repeat complete_step.
Qed.

Lemma run_generation_complete (args : Args) anchors (st : SearchState)
    search_step specs rng' :
  run_generation args anchors st search_step = Ok (specs, rng') ->
  Forall (fun spec => has_profile_keys (fst spec)) specs.
Proof.
  unfold run_generation.
  destruct (generate_candidates _ _ _ _ _) as [[[]|e] g'] eqn:Hgen; [|discriminate].
  intros [= <- <-].
  assert (always keeps_complete (generate_candidates args anchors st search_step))
    as Hkeeps.
  { unfold generate_candidates.
    repeat first [apply mutate_loop_complete | complete_step]. }
  apply (Hkeeps _ _ _ Hgen). constructor.
Qed.

Lemma evaluate_candidates_complete (args : Args) iter iter_dir specs :
  forall idx results w rows w',
  evaluate_candidates args iter iter_dir idx specs results w = (Ok rows, w') ->
  Forall (fun spec => has_profile_keys (fst spec)) specs ->
  Forall (fun row => has_profile_keys (profile row)) results ->
  Forall (fun row => has_profile_keys (profile row)) rows.
Proof.
  induction specs as [|spec rest IH]; intros idx results w rows w';
    cbn [evaluate_candidates].
  - by intros [= <- <-].
  - intros (row & w0 & Hone & Hrest)%bind_Ok_inv [Hspec Hspecs]%Forall_cons Hres.
    apply (IH _ _ _ _ _ Hrest Hspecs). apply Forall_app. split; [exact Hres|].
    constructor; [|constructor].
    rewrite evaluate_candidate_spec in Hone.
    destruct (benchmark _) as [|rk|]; [| |discriminate].
    + by injection Hone as <- _.
    + destruct (find _ rk); [|discriminate]. by injection Hone as <- _.
Qed.

Lemma load_anchors_complete sig sources anchors :
  load_anchors sig sources = Ok anchors ->
  Forall (fun a => has_profile_keys (snd a)) anchors.
Proof.
  unfold load_anchors. intros Hrun.
  apply (for_each_inv (Forall (fun a => has_profile_keys (snd a))) _ _ _ _
           (Forall_nil_2 _)) in Hrun; [exact Hrun|].
  intros acc [label content] acc' Hacc Hstep.
  destruct content as [raw|]; [|by injection Hstep as <-].
  destruct (normalize_profile_Ok raw) as (p & Hp & Hkeys). rewrite Hp in Hstep.
  cbn [mbind result_mbind result_bind] in Hstep.
  apply result_bind_Ok_inv in Hstep as (asig & _ & Hstep).
  destruct (decide (asig = sig)); injection Hstep as <-; [exact Hacc|].
  apply Forall_app. split; [exact Hacc|]. by repeat constructor.
Qed.

Lemma init_incumbent (args : Args) (w : World) s w0 :
  init args w = (Ok s, w0) ->
  exists raw, normalize_profile raw = Ok (incumbent_profile (initial_state s)).
Proof.
  unfold init, require, load_profile.
  unfold bind, get, modify, ret, raise, lift.
  intros Hrun.
  repeat run_step Hrun.
  all: cbv beta iota zeta in Hrun; try discriminate Hrun.
  all: injection Hrun as <- <-.
  all: cbn [initial_state incumbent_profile]; eauto.
Qed.

(** X17: throughout a session the profiles that candidates are made
    from hold every scale key and the delta key: initialization yields
    such an incumbent and such anchors, with no last-gain anchor, and
    every iteration that returns hands such an incumbent and last-gain
    anchor on to the next. *)
Theorem session_profiles_complete :
  (forall (args : Args) w s w0,
     init args w = (Ok s, w0) ->
     profiles_complete (initial_state s) /\
     Forall (fun a => has_profile_keys (snd a)) (anchor_profiles s)) /\
  (forall (args : Args) anchors dir (st : SearchState) iter w st' w',
     iteration_body args anchors dir st iter w = (Ok st', w') ->
     profiles_complete st -> profiles_complete st').
Proof.
  split.
  - intros args w s w0 Hinit.
    destruct (init_incumbent _ _ _ _ Hinit) as (raw & Hraw).
    destruct (init_anchors _ _ _ _ Hinit)
      as (sig & sources & _ & Hload & _ & Hnone & _).
    split; [split|].
    + destruct (normalize_profile_Ok raw) as (p & Hp & Hkeys).
      rewrite Hraw in Hp. injection Hp as <-. exact Hkeys.
    + rewrite Hnone. discriminate.
    + exact (load_anchors_complete _ _ _ Hload).
  - intros args anchors dir st iter w st' w' Hrun [Hinc Hlast].
    destruct (iteration_body_inv _ _ _ _ _ _ _ _ Hrun)
      as (base_step & search_step & specs & rng' & rows & w1 & ranked & winner
          & improved & st2 & _ & Hgen & Heval & Hsort & Hadapt & Hi & _ & _ & _
          & Hl & _ & _ & Hran).
    destruct Hran as (Hhead & _).
    apply run_generation_complete in Hgen.
    pose proof (evaluate_candidates_complete _ _ _ _ _ _ _ _ _ Heval Hgen
                  (Forall_nil_2 _)) as Hrows.
    destruct (sort_results_spec _ _ _ Hsort) as [Hperm _].
    assert (has_profile_keys (profile winner)) as Hwin.
    { rewrite <- Hperm in Hrows.
      apply (proj1 (Forall_forall _ _) Hrows).
      destruct ranked; [discriminate|injection Hhead as ->; left]. }
    destruct (adapt_inv _ _ _ _ _ _ Hadapt) as (_ & _ & Hupd & _).
    unfold profiles_complete. rewrite Hi, Hl.
    destruct improved.
    + destruct Hupd as (-> & _ & -> & _). split; [exact Hwin|].
      intros anchor [= <-]. exact Hinc.
    + destruct Hupd as (-> & _ & -> & _). by split.
Qed.
End Complete.

Lemma session_profiles_complete_witness :
  Scenario.move_init = (Ok Scenario.move_session, snd Scenario.move_init) /\
  Scenario.move_iteration = (Ok Scenario.move_after, snd Scenario.move_iteration) /\
  profiles_complete Scenario.move_after.
Proof.
  assert (returns Scenario.move_init = true) as Hret by (vm_compute; reflexivity).
  pose proof (returns_eq Scenario.move_init
                (@Build_Session Scenario.move_env "" ∅ []
                   (@Build_SearchState Scenario.move_env ∅ ∅ None None None 0 [] tt))
                Hret) as Hinit.
  assert (returns Scenario.move_iteration = true) as Hret' by (vm_compute; reflexivity).
  pose proof (returns_eq _ (initial_state Scenario.move_session) Hret') as Hrun.
  split; [exact Hinit|]. split; [exact Hrun|].
  destruct (@session_profiles_complete Scenario.move_env) as [Hstart Hstep].
  destruct (Hstart _ _ _ _ Hinit) as [Hcomplete _].
  exact (Hstep _ _ _ _ _ _ _ _ Hrun Hcomplete).
Defined.

(** ** What an iteration writes, and a benchmark without a summary *)

Section Files.
Context `{Environment}.

(** The evaluation loop writes the profile of each candidate, in
    order, under the candidate's number. *)
Lemma evaluate_candidates_files (args : Args) iter iter_dir specs :
  forall idx results w rows w',
  evaluate_candidates args iter iter_dir idx specs results w = (Ok rows, w') ->
  session_files w'
  = session_files w
    ++ imap (fun i spec => CandidateProfile iter (idx + Z.of_nat i) (fst spec)) specs.
Proof.
  induction specs as [|spec rest IH]; intros idx results w rows w';
    cbn [evaluate_candidates].
  - intros [= <- <-]. cbn [imap]. by rewrite app_nil_r.
  - intros (row & w0 & Hone & Hrest)%bind_Ok_inv.
    rewrite evaluate_candidate_spec in Hone.
    assert (w0 = world_after_benchmark iter idx (fst spec) w) as -> by congruence.
    rewrite (IH _ _ _ _ _ Hrest). unfold world_after_benchmark, world_at_benchmark.
    cbn [session_files log_bench set_active add_session_file imap].
    rewrite <- app_assoc. cbn [app]. rewrite Z.add_0_r. do 2 f_equal.
    apply imap_ext. intros i spec' _. cbn. f_equal. lia.
Qed.

(** X18: an iteration that returns has written one profile file per
    generated candidate, in order, then one leaderboard holding the
    evaluated rows as ranked, then one winner-profile file.  That file
    holds the incumbent as the iteration leaves it: the profile of the
    top-ranked row when that row is strictly better under the metric than
    the incumbent's own row, and otherwise the incumbent the iteration
    started with, whichever row is ranked first. *)
Theorem iteration_files (args : Args) anchors dir (st : SearchState) iter w st' w' :
  iteration_body args anchors dir st iter w = (Ok st', w') ->
  exists base_step search_step specs rng' rows w1 ranked winner incumbent_result improved,
    step_sizes args st iter = Ok (base_step, search_step) /\
    run_generation args anchors st search_step = Ok (specs, rng') /\
    evaluate_candidates args iter (iter_dir_of dir iter) 0 specs [] w = (Ok rows, w1) /\
    sort_results (selection_metric args) rows = Ok ranked /\
    ranked ≡ₚ rows /\
    session_files w'
      = session_files w
        ++ imap (fun i spec => CandidateProfile iter (Z.of_nat i) (fst spec)) specs
        ++ [Leaderboard iter ranked; WinnerProfile iter (incumbent_profile st')] /\
    head ranked = Some winner /\
    find_incumbent ranked = Ok incumbent_result /\
    better_than winner incumbent_result (selection_metric args) = Ok improved /\
    incumbent_profile st'
      = (if improved : bool then profile winner else incumbent_profile st).
Proof.
  intros Hrun.
  destruct (iteration_body_inv _ _ _ _ _ _ _ _ Hrun)
    as (base_step & search_step & specs & rng' & rows & w1 & ranked & winner
        & improved & st2 & Hsteps & Hgen & Heval & Hsort & Hadapt & Hi & _ & _ & _ & _
        & _ & _ & Hran).
  destruct Hran as (Hhead & (incumbent_result & Hfind & Hbetter) & -> & _).
  pose proof (evaluate_candidates_files _ _ _ _ _ _ _ _ _ Heval) as Hfiles.
  destruct (sort_results_spec _ _ _ Hsort) as [Hperm _].
  destruct (adapt_inv _ _ _ _ _ _ Hadapt) as (_ & _ & Hupd & _).
  exists base_step, search_step, specs, rng', rows, w1, ranked, winner,
    incumbent_result, improved.
  do 5 (split; [assumption|]).
  split.
  { cbn [session_files add_session_file]. rewrite Hfiles, <- !app_assoc.
    reflexivity. }
  do 3 (split; [assumption|]).
  rewrite Hi. destruct improved; by destruct Hupd as (-> & _).
Qed.




End Files.

Lemma iteration_files_witness :
  Scenario.stay_iteration = (Ok Scenario.stay_after, snd Scenario.stay_iteration) /\
  exists (specs : list (Profile * string)) ranked winner incumbent_result improved,
    session_files (snd Scenario.stay_iteration)
      = session_files Scenario.stay_world
        ++ imap (fun i spec => CandidateProfile 1 (Z.of_nat i) (fst spec)) specs
        ++ [Leaderboard 1 ranked;
            WinnerProfile 1 (incumbent_profile Scenario.stay_after)] /\
    head ranked = Some winner /\
    find_incumbent ranked = Ok incumbent_result /\
    better_than winner incumbent_result (selection_metric Scenario.stay_args)
      = Ok improved /\
    incumbent_profile Scenario.stay_after
      = (if improved : bool then profile winner
         else incumbent_profile Scenario.stay_state).
Proof.
  assert (returns Scenario.stay_iteration = true) as Hret by (vm_compute; reflexivity).
  pose proof (returns_eq _ Scenario.stay_state Hret) as Hrun.
  split; [exact Hrun|].
  destruct (@iteration_files Scenario.stay_env _ _ _ _ _ _ _ _ Hrun)
    as (base_step & search_step & specs & rng' & rows & w1 & ranked & winner
        & incumbent_result & improved & _ & _ & _ & _ & _ & Hfiles & Hhead
        & Hfind & Hbetter & Hinc).
  exists specs, ranked, winner, incumbent_result, improved. auto.
Defined.

